(** * HydroVacFinder: the location search of [server/storage.ts] and
      [server/routes.ts]

    A shallow embedding of the radius matchers of [DatabaseStorage]
    ([getCompaniesByRadius], [getDisposalSitesByRadius],
    [calculateDistance]) and of the [POST /api/search] handler, followed by
    the properties of the search specification stated against them.

    Conventions of the embedding.
    - A JavaScript number is a real number or [NaN]; rounding and the
      infinities of IEEE doubles are not represented.  Comparisons of reals
      are decided by [Rle_dec] and [Rlt_dec], so they do not evaluate by
      computation; concrete cases are settled by the lemmas on distance.
    - [null] and [undefined] are both [None].
    - A text column read through [parseFloat] is kept as what [parseFloat]
      makes of it, a jsonb column read through [JSON.parse] as what
      [JSON.parse] makes of it.
    - An entry of an [additionalLocations] array is [null] or an object
      whose fields may be absent or of another type than the admin form
      writes; a callback of [some] that throws on such an entry is [None],
      and the [catch] around the scan makes of it "no match".
    - Strings are ASCII strings; case mapping acts on the letters A-Z, a-z.
    - The tables are lists of rows and reading them does not fail; the
      geocoding request may throw.
    - The calls the handler makes to its collaborators (the geocoder and the
      storage layer) are recorded, in order, in a trace. *)

From Stdlib Require Import Reals Lra List String Ascii ZArith Bool Lia.
From Stdlib Require Import Permutation Sorted.
Import ListNotations.

Set Implicit Arguments.

(** ** JavaScript values *)

Module JS.

(** A number.  [NaN] absorbs every arithmetic operation and fails every
    comparison. *)
Inductive number : Type :=
| NaN
| Num (v : R).

Definition lift1 (f : R -> R) (x : number) : number :=
  match x with
  | Num a => Num (f a)
  | NaN => NaN
  end.

Definition lift2 (f : R -> R -> R) (x y : number) : number :=
  match x, y with
  | Num a, Num b => Num (f a b)
  | _, _ => NaN
  end.

Definition add := lift2 Rplus.
Definition sub := lift2 Rminus.
Definition mul := lift2 Rmult.
Definition div := lift2 Rdiv.

Definition Rleb (a b : R) : bool := if Rle_dec a b then true else false.
Definition Rltb (a b : R) : bool := if Rlt_dec a b then true else false.
Definition Reqb (a b : R) : bool := if Req_dec_T a b then true else false.

(** [x <= y] *)
Definition lte (x y : number) : bool :=
  match x, y with
  | Num a, Num b => Rleb a b
  | _, _ => false
  end.

(** [x < y] *)
Definition lt (x y : number) : bool :=
  match x, y with
  | Num a, Num b => Rltb a b
  | _, _ => false
  end.

(** Truthiness of a number: every number but [0] and [NaN]. *)
Definition truthy (x : number) : bool :=
  match x with
  | Num a => negb (Reqb a 0)
  | NaN => false
  end.

(** Truthiness of a string: every string but the empty one. *)
Definition truthy_string (s : string) : bool :=
  match s with
  | EmptyString => false
  | String _ _ => true
  end.

(** Truthiness of a field that may be [null] or [undefined]. *)
Definition truthy_opt {A} (t : A -> bool) (x : option A) : bool :=
  match x with
  | Some a => t a
  | None => false
  end.

Module Math.
Definition PI : number := Num Rtrigo1.PI.
Definition sin := lift1 Rtrigo_def.sin.
Definition cos := lift1 Rtrigo_def.cos.

Definition sqrt (x : number) : number :=
  match x with
  | Num a => if Rltb a 0 then NaN else Num (R_sqrt.sqrt a)
  | NaN => NaN
  end.

(** The angle of the point [(x, y)], in (-PI, PI]. *)
Definition atan2_R (y x : R) : R :=
  if Rltb 0 x then atan (y / x)
  else if Rltb x 0 then
         if Rltb y 0 then atan (y / x) - Rtrigo1.PI
         else atan (y / x) + Rtrigo1.PI
  else if Rltb 0 y then Rtrigo1.PI / 2
  else if Rltb y 0 then - (Rtrigo1.PI / 2)
  else 0.

Definition atan2 := lift2 atan2_R.
End Math.

(** [String.prototype.toLowerCase] and [toUpperCase] on ASCII text. *)
Definition lower_ascii (c : ascii) : ascii :=
  let n := nat_of_ascii c in
  if ((65 <=? n) && (n <=? 90))%nat then ascii_of_nat (n + 32) else c.

Definition upper_ascii (c : ascii) : ascii :=
  let n := nat_of_ascii c in
  if ((97 <=? n) && (n <=? 122))%nat then ascii_of_nat (n - 32) else c.

Fixpoint map_string (f : ascii -> ascii) (s : string) : string :=
  match s with
  | EmptyString => EmptyString
  | String c s' => String (f c) (map_string f s')
  end.

Definition toLowerCase : string -> string := map_string lower_ascii.
Definition toUpperCase : string -> string := map_string upper_ascii.

(** [s.includes(sub)]: [sub] occurs in [s] as a contiguous substring. *)
Fixpoint includes (s sub : string) : bool :=
  String.prefix sub s ||
  match s with
  | EmptyString => false
  | String _ s' => includes s' sub
  end.

(** [array.some(callback)] for a callback that may throw: the calls are
    made in order, up to the first that returns true; [None] when one of
    them throws. *)
Fixpoint some {A} (callback : A -> option bool) (l : list A) : option bool :=
  match l with
  | [] => Some false
  | x :: l' =>
      match callback x with
      | Some true => Some true
      | Some false => some callback l'
      | None => None
      end
  end.

(** The names of the properties that every object literal inherits from
    [Object.prototype]: looking one of them up gives a function or an
    object, not [undefined]. *)
Definition inheritedKey (key : string) : bool :=
  existsb (String.eqb key)
    ["constructor"; "hasOwnProperty"; "isPrototypeOf"; "propertyIsEnumerable";
     "toLocaleString"; "toString"; "valueOf"; "__proto__";
     "__defineGetter__"; "__defineSetter__"; "__lookupGetter__";
     "__lookupSetter__"]%string.

(** [Array.prototype.sort(cmp)].  The sort is stable; [x] is placed after
    [y] only when [cmp x y > 0].  For a comparator that orders its input
    consistently, which is the only case in which ECMAScript fixes the
    result, this is the arrangement every conforming engine returns. *)
Section Sort.
Variable A : Type.
Variable cmp : A -> A -> Z.

Fixpoint insert (x : A) (l : list A) : list A :=
  match l with
  | [] => [x]
  | y :: l' => if (0 <? cmp x y)%Z then y :: insert x l' else x :: l
  end.

Definition sort (l : list A) : list A := fold_right insert [] l.
End Sort.

End JS.

Import JS.

(** ** The provider records of [@shared/schema] that the search reads *)

(** A [text] coordinate column, as [parseFloat] reads it. *)
Inductive coordText : Type :=
| TextNull                 (* the column is null *)
| TextEmpty                (* the empty string *)
| TextNotANumber           (* a non-empty string that parseFloat maps to NaN *)
| TextNumber (v : R).      (* a non-empty string that parseFloat maps to v *)

Definition truthy_text (t : coordText) : bool :=
  match t with
  | TextNull | TextEmpty => false
  | TextNotANumber | TextNumber _ => true
  end.

Definition parseFloat (t : coordText) : number :=
  match t with
  | TextNumber v => Num v
  | _ => NaN
  end.

(** The [lat] or [lng] property of an entry of an [additionalLocations]
    array, as the company matcher uses it: for its truthiness and, in the
    arithmetic of the distance, for the number it converts to. *)
Inductive coordValue : Type :=
| CoordMissing                (* undefined, null, false or "" *)
| CoordNumber (v : R)         (* a number *)
| CoordOther (n : number).    (* a truthy value that is not a number (a
                                 non-empty string, true, an array, an
                                 object), kept as the number it converts to *)

Definition truthy_coord (c : coordValue) : bool :=
  match c with
  | CoordMissing => false
  | CoordNumber v => truthy (Num v)
  | CoordOther _ => true
  end.

(** The number a coordinate is in arithmetic; read only when it is truthy. *)
Definition toNumber (c : coordValue) : number :=
  match c with
  | CoordMissing => NaN
  | CoordNumber v => Num v
  | CoordOther n => n
  end.

(** The [city] or [address] property of an entry, as the disposal-site
    matcher uses it. *)
Inductive textValue : Type :=
| NoText               (* undefined, null, 0 or false *)
| Text (s : string)    (* a string *)
| NotText.             (* a truthy value that is not a string: it has no
                          [toLowerCase] *)

(** An entry that is not [null], read through the four properties the
    matchers look at.  A number, a string or a boolean has none of them. *)
Record AdditionalLocation : Type := {
  loc_city : textValue;
  loc_address : textValue;
  loc_lat : coordValue;
  loc_lng : coordValue
}.

(** An element of an [additionalLocations] array: [null], of which no
    property can be read, or anything else. *)
Inductive locationEntry : Type :=
| NullEntry
| ObjectEntry (loc : AdditionalLocation).

(** A parsed JSON value, as far as the matchers look at it. *)
Inductive jsonValue : Type :=
| JsonOther                                  (* anything that is not an array *)
| JsonArray (locs : list locationEntry).

(** The [additionalLocations] column. *)
Inductive additionalLocationsCol : Type :=
| ColNull                                    (* null, undefined or "" *)
| ColJson (v : jsonValue)                    (* a jsonb value *)
| ColString (parsed : option jsonValue).     (* a non-empty string and what
                                                JSON.parse returns for it;
                                                None when it throws *)

Record Company : Type := {
  company_id : Z;
  company_name : string;
  company_tier : string;
  company_lat : coordText;
  company_lng : coordText;
  company_additionalLocations : additionalLocationsCol
}.

Record DisposalSite : Type := {
  site_id : Z;
  site_name : string;
  site_lat : coordText;
  site_lng : coordText;
  site_additionalLocations : additionalLocationsCol
}.

(** ** [server/storage.ts]: distance and the radius matchers *)

Definition toRadians (degrees : number) : number :=
  mul degrees (div Math.PI (Num 180)).

(** Haversine formula, in miles. *)
Definition calculateDistance (lat1 lng1 lat2 lng2 : number) : number :=
  let R0 := Num 3959 in
  let dLat := toRadians (sub lat2 lat1) in
  let dLng := toRadians (sub lng2 lng1) in
  let a :=
    add (mul (Math.sin (div dLat (Num 2))) (Math.sin (div dLat (Num 2))))
        (mul (mul (mul (Math.cos (toRadians lat1)) (Math.cos (toRadians lat2)))
                  (Math.sin (div dLng (Num 2))))
             (Math.sin (div dLng (Num 2)))) in
  let c := mul (Num 2) (Math.atan2 (Math.sqrt a) (Math.sqrt (sub (Num 1) a))) in
  mul R0 c.

(** The value [locations] of the matchers: [Some v] when the [try] block
    gets past the parse, [None] when [JSON.parse] throws. *)
Definition parseLocations (col : additionalLocationsCol) : option jsonValue :=
  match col with
  | ColNull => None
  | ColJson v => Some v
  | ColString p => p
  end.

Definition truthy_col (col : additionalLocationsCol) : bool :=
  match col with
  | ColNull => false
  | _ => true
  end.

(** The callback of [locations.some] in [getCompaniesByRadius]; reading
    [loc.lat] of [null] throws. *)
Definition companyLocationInRadius (lat lng radiusMiles : number)
    (entry : locationEntry) : option bool :=
  match entry with
  | NullEntry => None
  | ObjectEntry loc =>
      if truthy_coord (loc_lat loc) && truthy_coord (loc_lng loc) then
        Some (lte (calculateDistance lat lng (toNumber (loc_lat loc))
                                             (toNumber (loc_lng loc)))
                  radiusMiles)
      else Some false
  end.

(** The callback of [allCompanies.filter] in [getCompaniesByRadius].  The
    [try] block holds the parse and the call of [some]: whatever throws in
    it, the company is not matched through its additional locations. *)
Definition companyMatches (lat lng radiusMiles : number) (company : Company) : bool :=
  if truthy_text (company_lat company) && truthy_text (company_lng company)
     && lte (calculateDistance lat lng (parseFloat (company_lat company))
                                       (parseFloat (company_lng company)))
            radiusMiles
  then true
  else
    if truthy_col (company_additionalLocations company) then
      match parseLocations (company_additionalLocations company) with
      | Some (JsonArray locations) =>
          if (0 <? List.length locations)%nat then
            match some (companyLocationInRadius lat lng radiusMiles) locations with
            | Some matchesAdditionalLocation => matchesAdditionalLocation
            | None => false    (* catch (e): thrown by the callback *)
            end
          else false
      | Some JsonOther => false
      | None => false          (* catch (e): thrown by JSON.parse *)
      end
    else false.

Definition getCompaniesByRadius (allCompanies : list Company)
    (lat lng radiusMiles : number) (searchAddress : option string) : list Company :=
  filter (companyMatches lat lng radiusMiles) allCompanies.

(** [value && searchLower.includes(value.toLowerCase())], as a boolean;
    a truthy value that is not a string throws. *)
Definition textMatch (searchLower : string) (value : textValue) : option bool :=
  match value with
  | NoText => Some false
  | Text s => Some (truthy_string s && includes searchLower (toLowerCase s))
  | NotText => None
  end.

(** The callback of [locations.some] in [getDisposalSitesByRadius]:
    [cityMatch] and [addressMatch] are both computed, then combined. *)
Definition siteLocationMatches (searchLower : string) (entry : locationEntry)
  : option bool :=
  match entry with
  | NullEntry => None
  | ObjectEntry loc =>
      match textMatch searchLower (loc_city loc) with
      | Some cityMatch =>
          match textMatch searchLower (loc_address loc) with
          | Some addressMatch => Some (cityMatch || addressMatch)
          | None => None
          end
      | None => None
      end
  end.

(** The callback of [allSites.filter] in [getDisposalSitesByRadius]. *)
Definition siteMatches (lat lng radiusMiles : number) (searchAddress : option string)
    (site : DisposalSite) : bool :=
  if truthy_text (site_lat site) && truthy_text (site_lng site)
     && lte (calculateDistance lat lng (parseFloat (site_lat site))
                                       (parseFloat (site_lng site)))
            radiusMiles
  then true
  else
    match searchAddress with
    | Some address =>
        if truthy_string address && truthy_col (site_additionalLocations site) then
          match parseLocations (site_additionalLocations site) with
          | Some (JsonArray locations) =>
              match some (siteLocationMatches (toLowerCase address)) locations with
              | Some matchesAdditionalLocation => matchesAdditionalLocation
              | None => false  (* catch (e): thrown by the callback *)
              end
          | Some JsonOther => false
          | None => false      (* catch (e): thrown by JSON.parse *)
          end
        else false
    | None => false
    end.

Definition getDisposalSitesByRadius (allSites : list DisposalSite)
    (lat lng radiusMiles : number) (searchAddress : option string) : list DisposalSite :=
  filter (siteMatches lat lng radiusMiles searchAddress) allSites.

(** ** The landing pages and the store *)

Record StateLandingPage : Type := {
  page_id : Z;
  page_stateCode : string;
  page_companyId : option Z;
  page_active : string
}.

Record DisposalSiteLandingPage : Type := {
  dpage_id : Z;
  dpage_stateCode : string;
  dpage_disposalSiteId : option Z;
  dpage_active : string
}.

(** The tables the search reads. *)
Record Database : Type := {
  companies : list Company;
  disposalSites : list DisposalSite;
  stateLandingPages : list StateLandingPage;
  disposalSiteLandingPages : list DisposalSiteLandingPage
}.

Definition getCompany (db : Database) (id : Z) : option Company :=
  find (fun c => (company_id c =? id)%Z) (companies db).

Definition getDisposalSite (db : Database) (id : Z) : option DisposalSite :=
  find (fun s => (site_id s =? id)%Z) (disposalSites db).

Definition getStateLandingPageByStateCode (db : Database) (stateCode : string)
  : option StateLandingPage :=
  find (fun p => (page_stateCode p =? toUpperCase stateCode)%string)
       (stateLandingPages db).

Definition getDisposalSiteLandingPageByStateCode (db : Database) (stateCode : string)
  : option DisposalSiteLandingPage :=
  find (fun p => (dpage_stateCode p =? toUpperCase stateCode)%string)
       (disposalSiteLandingPages db).

(** Truthiness of an id column: not null and not [0]. *)
Definition truthy_id (id : option Z) : bool :=
  match id with
  | Some n => negb (n =? 0)%Z
  | None => false
  end.

(** ** [server/routes.ts]: the [POST /api/search] handler *)

(** The geocoder's answer, as far as the handler reads it. *)
Record AddressComponent : Type := {
  comp_types : list string;
  comp_short_name : option string;
  comp_long_name : option string
}.

Record GeocodeResult : Type := {
  geo_lat : number;
  geo_lng : number;
  geo_formatted_address : string;
  geo_types : option (list string);
  geo_address_components : option (list AddressComponent)
}.

Record GeocodeData : Type := {
  geo_status : string;
  geo_results : option (list GeocodeResult)
}.

(** [req.body] *)
Record SearchBody : Type := {
  body_address : option string;
  body_radiusMiles : option number
}.

(** What surrounds the handler: the process environment, the geocoding
    service ([None] when [fetch] or [json()] throws) and the database. *)
Record Env : Type := {
  GOOGLE_API_KEY : option string;
  geocoder : string -> option GeocodeData;
  db : Database
}.

Inductive SearchType : Type := StateSearch | LocalSearch.

Record SearchResult : Type := {
  res_location : number * number * string;
  res_state : option (string * option string);
  res_searchType : SearchType;
  res_hasRadiusResults : bool;
  res_premiumLandingPage : option (StateLandingPage * option Company);
  res_disposalSiteLandingPage : option (DisposalSiteLandingPage * option DisposalSite);
  res_companies : list Company;
  res_disposalSites : list DisposalSite;
  res_radius : number
}.

Inductive ResponseBody : Type :=
| ErrorJson (error : string) (details : bool)
| SearchJson (result : SearchResult).

Inductive Response : Type :=
| Respond (status : Z) (body : ResponseBody).

(** The calls to collaborators, in the order the handler makes them. *)
Inductive Call : Type :=
| FetchGeocode (address : string)
| CallGetStateLandingPage (stateCode : string)
| CallGetCompany (id : Z)
| CallGetDisposalSiteLandingPage (stateCode : string)
| CallGetDisposalSite (id : Z)
| CallGetCompaniesByRadius (lat lng radiusMiles : number) (searchAddress : string)
| CallGetDisposalSitesByRadius (lat lng radiusMiles : number) (searchAddress : string).

(** A handler step: the calls made so far, and either the response already
    sent ([return res.status(..).json(..)]) or the value to go on with. *)
Definition M (A : Type) : Type := (list Call * (Response + A))%type.

Definition ret {A} (a : A) : M A := ([], inr a).

Definition bind {A B} (m : M A) (k : A -> M B) : M B :=
  match m with
  | (t, inl r) => (t, inl r)
  | (t, inr a) => let (t', x) := k a in (t ++ t', x)
  end.

Definition respond {A} (status : Z) (body : ResponseBody) : M A :=
  ([], inl (Respond status body)).

Definition call {A} (c : Call) (result : A) : M A := ([c], inr result).

Definition run (m : M Response) : list Call * Response :=
  match m with
  | (t, inl r) => (t, r)
  | (t, inr r) => (t, r)
  end.

Declare Scope handler_scope.
Delimit Scope handler_scope with handler.
Notation "x <- m ;; k" := (bind m (fun x => k))
  (at level 61, m at next level, right associativity) : handler_scope.
Notation "' pat <- m ;; k" := (bind m (fun x => match x with pat => k end))
  (at level 61, pat pattern, m at next level, right associativity) : handler_scope.
Notation "'guard' c 'otherwise' r ;; k" := (if c then k else r)
  (at level 61, c at next level, r at next level, right associativity,
   only parsing) : handler_scope.

(** Step 2: the state of the first address component tagged
    [administrative_area_level_1]. *)
Definition isState (types : list string) : bool :=
  existsb (String.eqb "administrative_area_level_1") types.

Fixpoint findState (components : list AddressComponent)
  : option string * option string :=
  match components with
  | [] => (None, None)
  | component :: rest =>
      if isState (comp_types component)
      then (comp_short_name component, comp_long_name component)
      else findState rest
  end.

Definition orEmpty {A} (l : option (list A)) : list A :=
  match l with
  | Some l => l
  | None => []
  end.

Definition stateCodeOf (result : GeocodeResult) : option string :=
  fst (findState (orEmpty (geo_address_components result))).

Definition stateNameOf (result : GeocodeResult) : option string :=
  snd (findState (orEmpty (geo_address_components result))).

(** Step 6a: what the lookup [tierOrder[tier]] in the object literal
    [{ premium: 3, featured: 2, verified: 1, basic: 0 }] gives. *)
Inductive tierLookup : Type :=
| OwnRank (rank : Z)       (* one of the four keys *)
| InheritedValue           (* a property of [Object.prototype] *)
| NoRank.                  (* undefined *)

Definition tierOrder (tier : string) : tierLookup :=
  if (tier =? "premium")%string then OwnRank 3
  else if (tier =? "featured")%string then OwnRank 2
  else if (tier =? "verified")%string then OwnRank 1
  else if (tier =? "basic")%string then OwnRank 0
  else if inheritedKey tier then InheritedValue
  else NoRank.

(** [tierOrder[tier] || 0] as an operand of the subtraction: a number, or
    [None] for an inherited function or object, which is truthy and makes
    the difference [NaN]. *)
Definition tierRank (c : Company) : option Z :=
  match tierOrder (company_tier c) with
  | OwnRank rank => Some rank
  | InheritedValue => None
  | NoRank => Some 0%Z
  end.

(** The comparator handed to [sort]; [None] is [NaN]. *)
Definition compareFn (companyId : Z) (a b : Company) : option Z :=
  if (company_id a =? companyId)%Z then Some (-1)%Z
  else if (company_id b =? companyId)%Z then Some 1%Z
  else match tierRank b, tierRank a with
       | Some rankB, Some rankA => Some (rankB - rankA)%Z
       | _, _ => None
       end.

(** What [sort] makes of a comparator's result: [NaN] counts as [+0]. *)
Definition sortCompare (v : option Z) : Z :=
  match v with
  | Some n => n
  | None => 0
  end.

Open Scope handler_scope.

(** Step 3, company half: the company an active landing page is bound to. *)
Definition resolvePremiumCompany (db : Database)
    (premiumLandingPage : option StateLandingPage) : M (option Company) :=
  match premiumLandingPage with
  | Some page =>
      if (page_active page =? "yes")%string && truthy_id (page_companyId page)
      then match page_companyId page with
           | Some id => call (CallGetCompany id) (getCompany db id)
           | None => ret None
           end
      else ret None
  | None => ret None
  end.

(** Step 3, disposal-site half. *)
Definition resolvePremiumDisposalSite (db : Database)
    (disposalSiteLandingPage : option DisposalSiteLandingPage) : M (option DisposalSite) :=
  match disposalSiteLandingPage with
  | Some page =>
      if (dpage_active page =? "yes")%string && truthy_id (dpage_disposalSiteId page)
      then match dpage_disposalSiteId page with
           | Some id => call (CallGetDisposalSite id) (getDisposalSite db id)
           | None => ret None
           end
      else ret None
  | None => ret None
  end.

(** Step 3: the landing pages of the state and the providers bound to them. *)
Definition resolvePremium (db : Database) (stateCode : option string)
  : M (option StateLandingPage * option Company
       * option DisposalSiteLandingPage * option DisposalSite) :=
  if truthy_opt truthy_string stateCode then
    match stateCode with
    | Some code =>
        premiumLandingPage <-
          call (CallGetStateLandingPage code) (getStateLandingPageByStateCode db code) ;;
        premiumCompany <- resolvePremiumCompany db premiumLandingPage ;;
        disposalSiteLandingPage <-
          call (CallGetDisposalSiteLandingPage code)
               (getDisposalSiteLandingPageByStateCode db code) ;;
        premiumDisposalSite <- resolvePremiumDisposalSite db disposalSiteLandingPage ;;
        ret (premiumLandingPage, premiumCompany,
             disposalSiteLandingPage, premiumDisposalSite)
    | None => ret (None, None, None, None)
    end
  else ret (None, None, None, None).

(** Step 6: the matched companies without the premium company. *)
Definition separatePremium (premiumCompany : option Company)
    (companiesInRadius : list Company) : list Company :=
  match premiumCompany with
  | Some premium =>
      filter (fun c => negb (company_id c =? company_id premium)%Z) companiesInRadius
  | None => companiesInRadius
  end.

(** Step 6a: the sort, run only when the state has a landing page with a
    company id. *)
Definition prioritize (premiumLandingPage : option StateLandingPage)
    (otherCompanies : list Company) : list Company :=
  match premiumLandingPage with
  | Some page =>
      if truthy_id (page_companyId page)
      then match page_companyId page with
           | Some id =>
               sort (fun a b => sortCompare (compareFn id a b)) otherCompanies
           | None => otherCompanies
           end
      else otherCompanies
  | None => otherCompanies
  end.

Definition radiusOf (body : SearchBody) : number :=
  match body_radiusMiles body with
  | Some r => r
  | None => Num 50
  end.

(** Steps 6 to the end: the response body of a successful search. *)
Definition assemble (result : GeocodeResult) (radiusMiles : number)
    (stateCode stateName : option string)
    (premiumLandingPage : option StateLandingPage) (premiumCompany : option Company)
    (disposalSiteLandingPage : option DisposalSiteLandingPage)
    (premiumDisposalSite : option DisposalSite)
    (companiesInRadius : list Company) (disposalSitesInRadius : list DisposalSite)
  : SearchResult :=
  (* Step 6 *)
  let otherCompanies := separatePremium premiumCompany companiesInRadius in
  (* Step 6a *)
  let otherCompanies := prioritize premiumLandingPage otherCompanies in
  let hasRadiusResults :=
    (0 <? List.length otherCompanies)%nat || (0 <? List.length disposalSitesInRadius)%nat in
  {|
    res_location := (geo_lat result, geo_lng result, geo_formatted_address result);
    res_state :=
      if truthy_opt truthy_string stateCode
      then match stateCode with
           | Some code => Some (code, stateName)
           | None => None
           end
      else None;
    res_searchType :=
      if isState (orEmpty (geo_types result)) then StateSearch else LocalSearch;
    res_hasRadiusResults := hasRadiusResults;
    res_premiumLandingPage :=
      match premiumLandingPage with
      | Some page => Some (page, premiumCompany)
      | None => None
      end;
    res_disposalSiteLandingPage :=
      match disposalSiteLandingPage with
      | Some page => Some (page, premiumDisposalSite)
      | None => None
      end;
    res_companies := otherCompanies;
    res_disposalSites := disposalSitesInRadius;
    res_radius := radiusMiles
  |}.

Definition searchHandler (env : Env) (body : SearchBody) : M Response :=
  let address := body_address body in
  let radiusMiles := radiusOf body in
  match address with
  | None => respond 400 (ErrorJson "Address is required" false)
  | Some address =>
  guard truthy_string address
    otherwise respond 400 (ErrorJson "Address is required" false) ;;
  guard truthy_opt truthy_string (GOOGLE_API_KEY env)
    otherwise respond 503 (ErrorJson "Google API key not configured" false) ;;
  (* Step 1 *)
  fetched <- call (FetchGeocode address) (geocoder env address) ;;
  match fetched with
  | None => respond 500 (ErrorJson "Failed to perform search" true)
  | Some geocodeData =>
  guard (geo_status geocodeData =? "OK")%string
    otherwise respond 400 (ErrorJson "Unable to geocode address" false) ;;
  match geo_results geocodeData with
  | Some (result :: _) =>
  let lat := geo_lat result in
  let lng := geo_lng result in
  (* Step 2 *)
  let stateCode := stateCodeOf result in
  let stateName := stateNameOf result in
  (* Step 3 *)
  '(premiumLandingPage, premiumCompany, disposalSiteLandingPage, premiumDisposalSite) <-
    resolvePremium (db env) stateCode ;;
  (* Step 4 *)
  companiesInRadius <-
    call (CallGetCompaniesByRadius lat lng radiusMiles address)
         (getCompaniesByRadius (companies (db env)) lat lng radiusMiles (Some address)) ;;
  (* Step 5 *)
  disposalSitesInRadius <-
    call (CallGetDisposalSitesByRadius lat lng radiusMiles address)
         (getDisposalSitesByRadius (disposalSites (db env)) lat lng radiusMiles
                                   (Some address)) ;;
  respond 200 (SearchJson
    (assemble result radiusMiles stateCode stateName
              premiumLandingPage premiumCompany
              disposalSiteLandingPage premiumDisposalSite
              companiesInRadius disposalSitesInRadius))
  | _ => respond 400 (ErrorJson "Unable to geocode address" false)
  end
  end
  end.

Close Scope handler_scope.

(** The handler run to its response: the calls made and what was sent. *)
Definition search (env : Env) (body : SearchBody) : list Call * Response :=
  run (searchHandler env body).

(** ** Sample data

    A search for Indianapolis, with companies and disposal sites placed at
    the search center or a known distance north of it. *)

Module Sample.

Local Open Scope string_scope.

Definition centerLat : R := 3977 / 100.
Definition centerLng : R := - (8616 / 100).

Definition atCenter (id : Z) (name tier : string) : Company := {|
  company_id := id;
  company_name := name;
  company_tier := tier;
  company_lat := TextNumber centerLat;
  company_lng := TextNumber centerLng;
  company_additionalLocations := ColNull
|}.

Definition acme : Company := atCenter 1 "Acme Hydrovac" "basic".
Definition inserv : Company := atCenter 42 "INSERV" "premium".
Definition badger : Company := atCenter 3 "Badger Daylighting" "verified".

(** Primary office 16 degrees of latitude (about 1,105 miles) north of the
    center, one additional office at the center. *)
Definition satellite : Company := {|
  company_id := 5;
  company_name := "Northern Vac";
  company_tier := "basic";
  company_lat := TextNumber (centerLat + 16);
  company_lng := TextNumber centerLng;
  company_additionalLocations :=
    ColJson (JsonArray [ ObjectEntry {| loc_city := Text "Indianapolis";
                                        loc_address := NoText;
                                        loc_lat := CoordNumber centerLat;
                                        loc_lng := CoordNumber centerLng |} ])
|}.

(** The same shape for a disposal site: primary about 1,105 miles north,
    one additional location, in Gary, with the coordinates of the center. *)
Definition northernDump : DisposalSite := {|
  site_id := 7;
  site_name := "Northern Disposal";
  site_lat := TextNumber (centerLat + 16);
  site_lng := TextNumber centerLng;
  site_additionalLocations :=
    ColJson (JsonArray [ ObjectEntry {| loc_city := Text "Gary";
                                        loc_address := NoText;
                                        loc_lat := CoordNumber centerLat;
                                        loc_lng := CoordNumber centerLng |} ])
|}.

(** A disposal site without any coordinates. *)
Definition unlocated : DisposalSite := {|
  site_id := 8;
  site_name := "Lakeshore Disposal";
  site_lat := TextNull;
  site_lng := TextNull;
  site_additionalLocations :=
    ColJson (JsonArray [ ObjectEntry {| loc_city := Text "Gary";
                                        loc_address := NoText;
                                        loc_lat := CoordMissing;
                                        loc_lng := CoordMissing |} ])
|}.

Definition indianaPage : StateLandingPage := {|
  page_id := 1;
  page_stateCode := "IN";
  page_companyId := Some 42%Z;
  page_active := "yes"
|}.

(** No landing pages. *)
Definition plainDb : Database := {|
  companies := [acme; inserv; badger];
  disposalSites := [];
  stateLandingPages := [];
  disposalSiteLandingPages := []
|}.

(** An active Indiana landing page bound to company 42. *)
Definition premiumDb : Database := {|
  companies := [acme; inserv; badger];
  disposalSites := [];
  stateLandingPages := [indianaPage];
  disposalSiteLandingPages := []
|}.

(** The landing page is left behind, the company it was bound to is gone. *)
Definition danglingDb : Database := {|
  companies := [acme; badger];
  disposalSites := [];
  stateLandingPages := [indianaPage];
  disposalSiteLandingPages := []
|}.

(** The company of the landing page is the only company. *)
Definition soloDb : Database := {|
  companies := [inserv];
  disposalSites := [];
  stateLandingPages := [indianaPage];
  disposalSiteLandingPages := []
|}.

Definition indianapolis : GeocodeResult := {|
  geo_lat := Num centerLat;
  geo_lng := Num centerLng;
  geo_formatted_address := "Indianapolis, IN, USA";
  geo_types := Some ["locality"; "political"];
  geo_address_components := Some [
    {| comp_types := ["locality"; "political"];
       comp_short_name := Some "Indianapolis";
       comp_long_name := Some "Indianapolis" |};
    {| comp_types := ["administrative_area_level_1"; "political"];
       comp_short_name := Some "IN";
       comp_long_name := Some "Indiana" |} ]
|}.

Definition google (address : string) : option GeocodeData :=
  Some {| geo_status := "OK"; geo_results := Some [indianapolis] |}.

Definition env (database : Database) : Env := {|
  GOOGLE_API_KEY := Some "key";
  geocoder := google;
  db := database
|}.

Definition request (radiusMiles : option number) : SearchBody := {|
  body_address := Some "Indianapolis, IN";
  body_radiusMiles := radiusMiles
|}.

End Sample.

(** What a response carries, for stating properties of it. *)
Definition statusOf (r : Response) : Z :=
  match r with
  | Respond status _ => status
  end.

Definition companiesOf (r : Response) : list Company :=
  match r with
  | Respond _ (SearchJson result) => res_companies result
  | Respond _ (ErrorJson _ _) => []
  end.

Definition premiumCompanyOf (result : SearchResult) : option Company :=
  match res_premiumLandingPage result with
  | Some (_, premiumCompany) => premiumCompany
  | None => None
  end.

Definition premiumDisposalSiteOf (result : SearchResult) : option DisposalSite :=
  match res_disposalSiteLandingPage result with
  | Some (_, premiumDisposalSite) => premiumDisposalSite
  | None => None
  end.

(** A company other than the premium company, which is told by its id. *)
Definition otherThanPremium (premiumCompany : option Company) (c : Company) : bool :=
  match premiumCompany with
  | Some premium => negb (company_id c =? company_id premium)%Z
  | None => true
  end.

Definition latOf (result : SearchResult) : number := fst (fst (res_location result)).
Definition lngOf (result : SearchResult) : number := snd (fst (res_location result)).

(** The ways a provider can be matched, for stating what the matchers
    decide: its primary location lies within the radius; an entry of its
    additional locations, with both coordinates truthy, lies within the
    radius; the search text contains the city or the address of an entry. *)
Definition primaryInRadius (lat lng radiusMiles : number) (tlat tlng : coordText) : Prop :=
  exists a b,
    tlat = TextNumber a /\ tlng = TextNumber b
    /\ lte (calculateDistance lat lng (Num a) (Num b)) radiusMiles = true.

Definition additionalInRadius (lat lng radiusMiles : number)
    (col : additionalLocationsCol) : Prop :=
  exists locs loc,
    parseLocations col = Some (JsonArray locs) /\ In (ObjectEntry loc) locs
    /\ truthy_coord (loc_lat loc) = true /\ truthy_coord (loc_lng loc) = true
    /\ lte (calculateDistance lat lng (toNumber (loc_lat loc)) (toNumber (loc_lng loc)))
           radiusMiles = true.

(** Case-insensitive substring comparison, said without the functions of
    the code: two letters are the same when they are equal or are the upper
    and the lower case of one letter of A-Z; [s] occurs in [text] when a
    stretch of [text] has, position by position, the same letters as [s]. *)
Definition upperLetter (c : ascii) : bool :=
  ((65 <=? nat_of_ascii c) && (nat_of_ascii c <=? 90))%nat.

Definition sameLetter (a b : ascii) : Prop :=
  a = b
  \/ (upperLetter a = true /\ nat_of_ascii b = (nat_of_ascii a + 32)%nat)
  \/ (upperLetter b = true /\ nat_of_ascii a = (nat_of_ascii b + 32)%nat).

Inductive sameText : string -> string -> Prop :=
| sameText_empty : sameText EmptyString EmptyString
| sameText_letter (a b : ascii) (s t : string) :
    sameLetter a b -> sameText s t -> sameText (String a s) (String b t).

Definition occursIn (s text : string) : Prop :=
  exists before found after,
    text = (before ++ found ++ after)%string /\ sameText found s.

Definition textContains (text : string) (field : textValue) : Prop :=
  exists s, field = Text s /\ s <> EmptyString /\ occursIn s text.

Definition additionalInText (searchAddress : option string)
    (col : additionalLocationsCol) : Prop :=
  exists text locs loc,
    searchAddress = Some text /\ text <> EmptyString
    /\ parseLocations col = Some (JsonArray locs) /\ In (ObjectEntry loc) locs
    /\ (textContains text (loc_city loc) \/ textContains text (loc_address loc)).

(** Additional locations as the admin form writes them: every entry an
    object, and for the text match its city and address strings or absent.
    These are the arrays on which the callbacks of [some] do not throw. *)
Definition objectEntries (col : additionalLocationsCol) : Prop :=
  forall locs, parseLocations col = Some (JsonArray locs) -> ~ In NullEntry locs.

Definition textEntries (col : additionalLocationsCol) : Prop :=
  forall locs entry,
    parseLocations col = Some (JsonArray locs) -> In entry locs ->
    exists loc, entry = ObjectEntry loc
                /\ loc_city loc <> NotText /\ loc_address loc <> NotText.

(** Malformed location data: a coordinate column that is missing or does
    not parse; an entry with a coordinate that is missing or is not a number
    and does not convert to one; an entry that is [null]. *)
Definition malformedText (t : coordText) : Prop := parseFloat t = NaN.

Definition malformedCoordinate (c : coordValue) : Prop :=
  c = CoordMissing \/ c = CoordOther NaN.

Definition malformedEntry (loc : AdditionalLocation) : Prop :=
  malformedCoordinate (loc_lat loc) \/ malformedCoordinate (loc_lng loc).

Definition malformedLocation (entry : locationEntry) : Prop :=
  match entry with
  | NullEntry => True
  | ObjectEntry loc => malformedEntry loc
  end.

Definition withLocations (company : Company) (col : additionalLocationsCol) : Company := {|
  company_id := company_id company;
  company_name := company_name company;
  company_tier := company_tier company;
  company_lat := company_lat company;
  company_lng := company_lng company;
  company_additionalLocations := col
|}.



(** Orderings, for stating what the sort of step 6a achieves: a list is in
    descending order of [key], and the elements of key [k]. *)
Definition descending {A} (key : A -> Z) (a b : A) : Prop := (key b <= key a)%Z.

Definition hasKey {A} (key : A -> Z) (k : Z) (x : A) : bool := (key x =? k)%Z.

(** The ranking in the words of the specification: premium 3, featured 2,
    verified 1, basic or unranked 0. *)
Definition rankingOfSpec (tier : string) : Z :=
  if (tier =? "premium")%string then 3
  else if (tier =? "featured")%string then 2
  else if (tier =? "verified")%string then 1
  else 0.

(** The rank of a company in a sorted answer: the landing-page company
    above every tier, every other company by the ranking of its tier. *)
Definition rankKey (companyId : Z) (c : Company) : Z :=
  if (company_id c =? companyId)%Z then 4 else rankingOfSpec (company_tier c).

(** A tier that is not the name of an inherited property: the ones the
    comparator ranks by number. *)
Definition rankedTier (c : Company) : Prop := inheritedKey (company_tier c) = false.

(** The companies the comparator orders by rank: the landing-page company,
    whose tier is not looked up, and those of a ranked tier. *)
Definition comparable (companyId : Z) (c : Company) : Prop :=
  company_id c = companyId \/ rankedTier c.

(** How often a company id occurs in a list. *)
Definition occurrences (id : Z) (l : list Company) : nat :=
  List.length (filter (fun c => (company_id c =? id)%Z) l).

(** * The rest of [server/routes.ts] and [server/storage.ts] *)

(** ** [POST /api/geocode] *)

Inductive GeocodeReply : Type :=
| GeocodeError (status : Z) (error : string) (details : bool)
| GeocodeJson (data : GeocodeData).

(** The handler: the address is required, then the API key; the geocoder's
    answer is passed on as it is. *)
Definition geocodeRoute (env : Env) (address : option string) : list Call * GeocodeReply :=
  match address with
  | None => ([], GeocodeError 400 "Address is required" false)
  | Some address =>
      if truthy_string address then
        if truthy_opt truthy_string (GOOGLE_API_KEY env) then
          match geocoder env address with
          | Some data => ([FetchGeocode address], GeocodeJson data)
          | None => ([FetchGeocode address],
                     GeocodeError 500 "Failed to geocode address" true)
          end
        else ([], GeocodeError 503 "Google API key not configured" false)
      else ([], GeocodeError 400 "Address is required" false)
  end.

(** ** Admin authentication *)

(** What the admin middleware reads of a request: the [x-admin-api-key]
    header and the [isAdmin] flag of the session. *)
Record AdminRequest : Type := {
  header_x_admin_api_key : option string;
  session_isAdmin : bool
}.

(** What a middleware does: call [next()] or send an error. *)
Inductive Verdict : Type :=
| Next
| Reject (status : Z) (error : string).

Definition isAdmin (ADMIN_API_KEY : option string) (req : AdminRequest) : Verdict :=
  match ADMIN_API_KEY with
  | None => Reject 500 "Admin functionality is not configured"
  | Some key =>
      if truthy_string key then
        match header_x_admin_api_key req with
        | None => Reject 401 "Admin API key required"
        | Some apiKey =>
            if truthy_string apiKey then
              if (apiKey =? key)%string then Next
              else Reject 403 "Unauthorized - Invalid admin API key"
            else Reject 401 "Admin API key required"
        end
      else Reject 500 "Admin functionality is not configured"
  end.

Definition isAdminAuthenticated (req : AdminRequest) : Verdict :=
  if session_isAdmin req then Next else Reject 401 "Not authenticated".

Definition requireAdmin (ADMIN_API_KEY : option string) (req : AdminRequest) : Verdict :=
  match ADMIN_API_KEY with
  | None => Reject 500 "Admin functionality is not configured"
  | Some key =>
      if truthy_string key then
        if session_isAdmin req then Next
        else
          match header_x_admin_api_key req with
          | Some apiKey =>
              if truthy_string apiKey && (apiKey =? key)%string then Next
              else Reject 401 "Admin authentication required"
          | None => Reject 401 "Admin authentication required"
          end
      else Reject 500 "Admin functionality is not configured"
  end.

(** [POST /api/admin/login]: the new [isAdmin] flag of the session and
    the status sent. *)
Definition adminLogin (ADMIN_API_KEY : option string) (password : option string)
    (session : bool) : bool * Z :=
  if truthy_opt truthy_string ADMIN_API_KEY then
    match password, ADMIN_API_KEY with
    | Some password, Some key =>
        if truthy_string password && (password =? key)%string
        then (true, 200%Z)
        else (session, 401%Z)
    | _, _ => (session, 401%Z)
    end
  else (session, 500%Z).



(** ** The public API: [GET /api/public/v1/companies] and
       [GET /api/public/v1/disposal-sites] *)

Module PublicApi.

(** White space, as far as ASCII has it: TAB, LF, VT, FF, CR and space. *)
Definition isWhite (c : ascii) : bool :=
  let n := nat_of_ascii c in
  ((9 <=? n) && (n <=? 13))%nat || (n =? 32)%nat.

Fixpoint trimStart (s : string) : string :=
  match s with
  | EmptyString => EmptyString
  | String c s' => if isWhite c then trimStart s' else s
  end.

Fixpoint trimEnd (s : string) : string :=
  match s with
  | EmptyString => EmptyString
  | String c s' =>
      match trimEnd s' with
      | EmptyString => if isWhite c then EmptyString else String c EmptyString
      | t => String c t
      end
  end.

(** [s.trim()] *)
Definition trim (s : string) : string := trimEnd (trimStart s).

Definition isComma (c : ascii) : bool := (nat_of_ascii c =? 44)%nat.

(** [s.split(',')]: never empty, [""] for the empty string. *)
Fixpoint split (s : string) : list string :=
  match s with
  | EmptyString => [EmptyString]
  | String c s' =>
      if isComma c then EmptyString :: split s'
      else match split s' with
           | piece :: pieces => String c piece :: pieces
           | [] => [String c EmptyString]
           end
  end.

Definition digitOf (c : ascii) : option Z :=
  let n := nat_of_ascii c in
  if ((48 <=? n) && (n <=? 57))%nat then Some (Z.of_nat (n - 48)) else None.

(** The digits at the start of [s], read in base 10 after [acc]. *)
Fixpoint digits (acc : option Z) (s : string) : option Z :=
  match s with
  | EmptyString => acc
  | String c s' =>
      match digitOf c with
      | Some d => digits (Some (10 * match acc with Some a => a | None => 0 end + d)%Z) s'
      | None => acc
      end
  end.

(** [parseInt(s, 10)]: leading white space, an optional sign, the digits
    that follow; [None] is [NaN]. *)
Definition parseInt (s : string) : option Z :=
  match trimStart s with
  | String c s' =>
      if (nat_of_ascii c =? 45)%nat then option_map Z.opp (digits None s')
      else if (nat_of_ascii c =? 43)%nat then digits None s'
      else digits None (String c s')
  | EmptyString => None
  end.

(** A company row with the columns the public API reads besides those of
    the search. *)
Record CompanyRow : Type := {
  row_company : Company;
  row_address : option string;
  row_services : option string
}.

Record SiteRow : Type := {
  row_site : DisposalSite;
  row_site_address : option string;
  row_materialsAccepted : option string
}.

(** What the API returns for a company. *)
Record PublicCompany : Type := {
  pub_id : Z;
  pub_name : string;
  pub_address : option string;
  pub_services : list string;
  pub_lat : option number;
  pub_lng : option number;
  pub_tier : string
}.

Record PublicSite : Type := {
  pubsite_id : Z;
  pubsite_name : string;
  pubsite_address : option string;
  pubsite_materialsAccepted : list string;
  pubsite_lat : option number;
  pubsite_lng : option number
}.

(** [x?.split(',').map(s => s.trim()) || []] *)
Definition commaList (x : option string) : list string :=
  match x with
  | Some s => map trim (split s)
  | None => []
  end.

(** [t ? parseFloat(t) : null] *)
Definition coordinate (t : coordText) : option number :=
  if truthy_text t then Some (parseFloat t) else None.

Definition normalizeCompany (row : CompanyRow) : PublicCompany := {|
  pub_id := company_id (row_company row);
  pub_name := company_name (row_company row);
  pub_address := row_address row;
  pub_services := commaList (row_services row);
  pub_lat := coordinate (company_lat (row_company row));
  pub_lng := coordinate (company_lng (row_company row));
  pub_tier := company_tier (row_company row)
|}.

Definition normalizeSite (row : SiteRow) : PublicSite := {|
  pubsite_id := site_id (row_site row);
  pubsite_name := site_name (row_site row);
  pubsite_address := row_site_address row;
  pubsite_materialsAccepted := commaList (row_materialsAccepted row);
  pubsite_lat := coordinate (site_lat (row_site row));
  pubsite_lng := coordinate (site_lng (row_site row))
|}.

(** The [tier] filter; a query parameter is a string or absent. *)
Definition byTier (tier : option string) (data : list CompanyRow) : list CompanyRow :=
  match tier with
  | Some tier =>
      if truthy_string tier
      then filter (fun c => (company_tier (row_company c) =? tier)%string) data
      else data
  | None => data
  end.

(** [address?.toLowerCase().includes(state.toLowerCase())] *)
Definition addressHas (state : string) (address : option string) : bool :=
  match address with
  | Some address => includes (toLowerCase address) (toLowerCase state)
  | None => false
  end.

Definition byState {A} (address : A -> option string) (state : option string)
    (data : list A) : list A :=
  match state with
  | Some state =>
      if truthy_string state then filter (fun c => addressHas state (address c)) data
      else data
  | None => data
  end.

(** The [limit] parameter: what [slice(0, limitNum)] is applied with, if it
    is. *)
Definition limitOf (limit : option string) : option nat :=
  match limit with
  | Some limit =>
      if truthy_string limit then
        match parseInt limit with
        | Some limitNum => if (0 <? limitNum)%Z then Some (Z.to_nat limitNum) else None
        | None => None
        end
      else None
  | None => None
  end.

Definition byLimit {A} (limit : option string) (data : list A) : list A :=
  match limitOf limit with
  | Some n => firstn n data
  | None => data
  end.

(** The body of a successful answer: [count] and [data]. *)
Definition publicCompanies (all : list CompanyRow) (tier state limit : option string)
  : nat * list PublicCompany :=
  let data := byTier tier all in
  let data := byState row_address state data in
  let data := byLimit limit data in
  let normalizedData := map normalizeCompany data in
  (List.length normalizedData, normalizedData).

Definition publicDisposalSites (all : list SiteRow) (state limit : option string)
  : nat * list PublicSite :=
  let data := byState row_site_address state all in
  let data := byLimit limit data in
  let normalizedData := map normalizeSite data in
  (List.length normalizedData, normalizedData).

End PublicApi.

(** Shapes of strings, for stating what [split] and [trim] return. *)
Fixpoint countCommas (s : string) : nat :=
  match s with
  | EmptyString => 0
  | String c s' => (if PublicApi.isComma c then 1 else 0) + countCommas s'
  end.

Definition firstChar (s : string) : option ascii :=
  match s with
  | EmptyString => None
  | String c _ => Some c
  end.

Fixpoint lastChar (s : string) : option ascii :=
  match s with
  | EmptyString => None
  | String c s' =>
      match lastChar s' with
      | Some c' => Some c'
      | None => Some c
      end
  end.

Definition whiteChar (c : option ascii) : bool :=
  match c with
  | Some c => PublicApi.isWhite c
  | None => false
  end.

(** ** Analytics: [getCompanyAnalytics] *)

Record AnalyticsEvent : Type := {
  event_companyId : Z;
  event_eventType : string;
  event_source : string
}.

(** A [Record<string, number>] that starts as [{}] and is only added to:
    its own keys in the order of their first use, each with its count. *)
Definition Counts : Type := list (string * Z).

(** [counts[key]] for a key that is not inherited. *)
Definition count_of (key : string) (counts : Counts) : option Z :=
  option_map snd (find (fun kv => (fst kv =? key)%string) counts).

Fixpoint increment (key : string) (counts : Counts) : Counts :=
  match counts with
  | [] => [(key, 1%Z)]
  | (k, n) :: rest =>
      if (k =? key)%string then (k, (n + 1)%Z) :: rest
      else (k, n) :: increment key rest
  end.

(** [counts[key] = (counts[key] || 0) + 1]; with an inherited key the
    entry written is not a number, which is [None] here. *)
Definition bump (key : string) (counts : Counts) : option Counts :=
  if inheritedKey key then None else Some (increment key counts).

(** The [forEach] loop over the events, for one of the two records. *)
Fixpoint countBy (f : AnalyticsEvent -> string) (events : list AnalyticsEvent)
    (counts : Counts) : option Counts :=
  match events with
  | [] => Some counts
  | event :: rest =>
      match bump (f event) counts with
      | Some counts' => countBy f rest counts'
      | None => None
      end
  end.

Record CompanyAnalyticsSummary : Type := {
  total : nat;
  byEventType : Counts;
  bySource : Counts
}.

Definition getCompanyAnalytics (companyAnalytics : list AnalyticsEvent) (companyId : Z)
  : option CompanyAnalyticsSummary :=
  let allEvents := filter (fun e => (event_companyId e =? companyId)%Z) companyAnalytics in
  match countBy event_eventType allEvents [], countBy event_source allEvents [] with
  | Some byEventType, Some bySource =>
      Some {| total := List.length allEvents;
              byEventType := byEventType;
              bySource := bySource |}
  | _, _ => None
  end.

(** The number of a company's events that satisfy [p], and the sum of a
    record's counts. *)
Definition eventsWith (p : AnalyticsEvent -> bool) (companyAnalytics : list AnalyticsEvent)
    (companyId : Z) : nat :=
  List.length (filter p (filter (fun e => (event_companyId e =? companyId)%Z)
                                companyAnalytics)).

Definition sumCounts (counts : Counts) : Z :=
  fold_right (fun kv acc => (snd kv + acc)%Z) 0%Z counts.

(** What [counts[key]] is when [key] has been counted [n] times. *)
Definition counted (key : string) (counts : Counts) (n : nat) : Prop :=
  count_of key counts = if (n =? 0)%nat then None else Some (Z.of_nat n).

(** ** Deleting providers: [deleteCompany], [deleteDisposalSite] *)

Record Subscription : Type := {
  sub_id : Z;
  sub_stripeCustomerId : option string;
  sub_stripeSubscriptionId : string;
  sub_stripeCheckoutSessionId : option string;
  sub_customerEmail : string;
  sub_tier : string;
  sub_coverage : string;
  sub_billingCycle : string;
  sub_status : string;
  sub_companyId : option Z;
  sub_disposalSiteId : option Z
}.

(** The tables of the search together with those a deletion also touches. *)
Record Store : Type := {
  store_db : Database;
  store_subscriptions : list Subscription;
  store_companyAnalytics : list AnalyticsEvent
}.

(** [column = id] in a [where] clause: a null column matches no id. *)
Definition refers (column : option Z) (id : Z) : bool :=
  match column with
  | Some n => (n =? id)%Z
  | None => false
  end.

Definition unlinkCompany (id : Z) (s : Subscription) : Subscription :=
  if refers (sub_companyId s) id then
    {| sub_id := sub_id s;
       sub_stripeCustomerId := sub_stripeCustomerId s;
       sub_stripeSubscriptionId := sub_stripeSubscriptionId s;
       sub_stripeCheckoutSessionId := sub_stripeCheckoutSessionId s;
       sub_customerEmail := sub_customerEmail s;
       sub_tier := sub_tier s;
       sub_coverage := sub_coverage s;
       sub_billingCycle := sub_billingCycle s;
       sub_status := sub_status s;
       sub_companyId := None;
       sub_disposalSiteId := sub_disposalSiteId s |}
  else s.

Definition unlinkDisposalSite (id : Z) (s : Subscription) : Subscription :=
  if refers (sub_disposalSiteId s) id then
    {| sub_id := sub_id s;
       sub_stripeCustomerId := sub_stripeCustomerId s;
       sub_stripeSubscriptionId := sub_stripeSubscriptionId s;
       sub_stripeCheckoutSessionId := sub_stripeCheckoutSessionId s;
       sub_customerEmail := sub_customerEmail s;
       sub_tier := sub_tier s;
       sub_coverage := sub_coverage s;
       sub_billingCycle := sub_billingCycle s;
       sub_status := sub_status s;
       sub_companyId := sub_companyId s;
       sub_disposalSiteId := None |}
  else s.

(** What a deletion may do to a subscription row: the billing columns and
    the link to the other kind of provider stay as they are; a link to the
    deleted provider becomes null and any other link stays. *)
Definition sameBilling (before after : Subscription) : Prop :=
  sub_id after = sub_id before
  /\ sub_stripeCustomerId after = sub_stripeCustomerId before
  /\ sub_stripeSubscriptionId after = sub_stripeSubscriptionId before
  /\ sub_stripeCheckoutSessionId after = sub_stripeCheckoutSessionId before
  /\ sub_customerEmail after = sub_customerEmail before
  /\ sub_tier after = sub_tier before
  /\ sub_coverage after = sub_coverage before
  /\ sub_billingCycle after = sub_billingCycle before
  /\ sub_status after = sub_status before.

Definition companyUnlinked (id : Z) (before after : Subscription) : Prop :=
  sameBilling before after
  /\ sub_disposalSiteId after = sub_disposalSiteId before
  /\ (sub_companyId before = Some id -> sub_companyId after = None)
  /\ (sub_companyId before <> Some id -> sub_companyId after = sub_companyId before).

Definition siteUnlinked (id : Z) (before after : Subscription) : Prop :=
  sameBilling before after
  /\ sub_companyId after = sub_companyId before
  /\ (sub_disposalSiteId before = Some id -> sub_disposalSiteId after = None)
  /\ (sub_disposalSiteId before <> Some id ->
      sub_disposalSiteId after = sub_disposalSiteId before).

(** The four statements of the transaction of [deleteCompany], in order. *)
Definition deleteCompany (id : Z) (s : Store) : Store :=
  (* 1. null out subscription links *)
  let subscriptions := map (unlinkCompany id) (store_subscriptions s) in
  (* 2. delete company analytics *)
  let analytics :=
    filter (fun e => negb (event_companyId e =? id)%Z) (store_companyAnalytics s) in
  (* 3. delete state landing pages linked to this company *)
  let pages :=
    filter (fun p => negb (refers (page_companyId p) id))
           (stateLandingPages (store_db s)) in
  (* 4. delete the company itself *)
  let remaining :=
    filter (fun c => negb (company_id c =? id)%Z) (companies (store_db s)) in
  {| store_db := {| companies := remaining;
                    disposalSites := disposalSites (store_db s);
                    stateLandingPages := pages;
                    disposalSiteLandingPages := disposalSiteLandingPages (store_db s) |};
     store_subscriptions := subscriptions;
     store_companyAnalytics := analytics |}.

(** The three statements of the transaction of [deleteDisposalSite]. *)
Definition deleteDisposalSite (id : Z) (s : Store) : Store :=
  let subscriptions := map (unlinkDisposalSite id) (store_subscriptions s) in
  let pages :=
    filter (fun p => negb (refers (dpage_disposalSiteId p) id))
           (disposalSiteLandingPages (store_db s)) in
  let remaining :=
    filter (fun d => negb (site_id d =? id)%Z) (disposalSites (store_db s)) in
  {| store_db := {| companies := companies (store_db s);
                    disposalSites := remaining;
                    stateLandingPages := stateLandingPages (store_db s);
                    disposalSiteLandingPages := pages |};
     store_subscriptions := subscriptions;
     store_companyAnalytics := store_companyAnalytics s |}.

(** Every landing page that is bound resolves to a provider. *)
Definition boundPagesResolve (db : Database) : Prop :=
  (forall page id,
     In page (stateLandingPages db) -> page_companyId page = Some id ->
     getCompany db id <> None)
  /\ (forall page id,
        In page (disposalSiteLandingPages db) -> dpage_disposalSiteId page = Some id ->
        getDisposalSite db id <> None).

(** ** The callers of the search in the client *)

Module Client.

(** The state landing page: the company list it shows.  [searchResults] is
    the body of the search response once it has arrived, [allCompanies] the
    list of all companies once it has, [landingCompanyId] the [companyId] of
    the landing page once that has. *)
Definition idIs (landingCompanyId : option Z) (c : Company) : bool :=
  match landingCompanyId with
  | Some id => (company_id c =? id)%Z
  | None => false
  end.

Definition premiumCompany (hasSearchContext : bool)
    (searchResults : option SearchResult) (allCompanies : option (list Company))
    (landingCompanyId : option Z) : option Company :=
  let companiesFromSearch :=
    match searchResults with
    | Some r => res_companies r
    | None => []
    end in
  if hasSearchContext then find (idIs landingCompanyId) companiesFromSearch
  else match allCompanies with
       | Some all => find (idIs landingCompanyId) all
       | None => None
       end.

Definition displayCompanies (hasSearchContext : bool)
    (searchResults : option SearchResult) (allCompanies : option (list Company))
    (landingCompanyId : option Z) : list Company :=
  let companiesFromSearch :=
    match searchResults with
    | Some r => res_companies r
    | None => []
    end in
  let filteredCompanies := if hasSearchContext then companiesFromSearch else [] in
  let premium :=
    premiumCompany hasSearchContext searchResults allCompanies landingCompanyId in
  let otherCompanies :=
    filter (fun c => match premium with
                     | Some p => negb (company_id c =? company_id p)%Z
                     | None => true
                     end) filteredCompanies in
  match premium with
  | Some p => p :: otherCompanies
  | None => otherCompanies
  end.

(** The home page: where [handleSearch] navigates after a successful
    search, if it does. *)
Inductive SelectedType : Type := TypeAll | TypeCompanies | TypeDisposal.

Inductive Route : Type :=
| StateRoute (stateCode : string)
| DisposalSitesRoute (stateCode : string).

Definition isSome {A} (x : option A) : bool :=
  match x with
  | Some _ => true
  | None => false
  end.

Definition redirectOf (selectedType : SelectedType) (data : SearchResult) : option Route :=
  match res_state data with
  | Some (code, _) =>
      match selectedType with
      | TypeCompanies =>
          if isSome (res_premiumLandingPage data) then Some (StateRoute code) else None
      | TypeDisposal =>
          if isSome (res_disposalSiteLandingPage data)
          then Some (DisposalSitesRoute code) else None
      | TypeAll =>
          if isSome (res_premiumLandingPage data) then Some (StateRoute code) else None
      end
  | None => None
  end.

End Client.

(** ** More sample data *)

Module Sample2.

Local Open Scope string_scope.

(** The Indiana landing page, switched off. *)
Definition inactivePage : StateLandingPage := {|
  page_id := 1;
  page_stateCode := "IN";
  page_companyId := Some 42%Z;
  page_active := "no"
|}.

Definition inactiveDb : Database := {|
  companies := [Sample.acme; Sample.inserv; Sample.badger];
  disposalSites := [];
  stateLandingPages := [inactivePage];
  disposalSiteLandingPages := []
|}.

Definition acmeRow : PublicApi.CompanyRow := {|
  PublicApi.row_company := Sample.acme;
  PublicApi.row_address := Some "12 Main St, Gary, IN 46402";
  PublicApi.row_services := Some "Hydro Excavation, Daylighting ,Potholing"
|}.

Definition inservRow : PublicApi.CompanyRow := {|
  PublicApi.row_company := Sample.inserv;
  PublicApi.row_address := Some "500 Meridian St, Indianapolis, IN 46204";
  PublicApi.row_services := None
|}.

Definition badgerRow : PublicApi.CompanyRow := {|
  PublicApi.row_company := Sample.badger;
  PublicApi.row_address := None;
  PublicApi.row_services := Some ""
|}.

(** The premium database with a subscription of company 42 and two tracked
    events. *)
Definition inservSubscription : Subscription := {|
  sub_id := 9;
  sub_stripeCustomerId := Some "cus_1";
  sub_stripeSubscriptionId := "sub_1";
  sub_stripeCheckoutSessionId := None;
  sub_customerEmail := "office@inserv.example";
  sub_tier := "premium";
  sub_coverage := "state";
  sub_billingCycle := "monthly";
  sub_status := "active";
  sub_companyId := Some 42%Z;
  sub_disposalSiteId := None
|}.

Definition click (companyId : Z) : AnalyticsEvent := {|
  event_companyId := companyId;
  event_eventType := "click";
  event_source := "search"
|}.

Definition store : Store := {|
  store_db := Sample.premiumDb;
  store_subscriptions := [inservSubscription];
  store_companyAnalytics := [click 42; click 1]
|}.

(** Two disposal sites, a landing page bound to site 7 and a subscription
    of that site. *)
Definition indianaSitePage : DisposalSiteLandingPage := {|
  dpage_id := 2;
  dpage_stateCode := "IN";
  dpage_disposalSiteId := Some 7%Z;
  dpage_active := "yes"
|}.

Definition siteSubscription : Subscription := {|
  sub_id := 10;
  sub_stripeCustomerId := None;
  sub_stripeSubscriptionId := "sub_2";
  sub_stripeCheckoutSessionId := None;
  sub_customerEmail := "office@northern.example";
  sub_tier := "premium";
  sub_coverage := "state";
  sub_billingCycle := "yearly";
  sub_status := "active";
  sub_companyId := None;
  sub_disposalSiteId := Some 7%Z
|}.

Definition siteStore : Store := {|
  store_db := {| companies := [Sample.acme];
                 disposalSites := [Sample.northernDump; Sample.unlocated];
                 stateLandingPages := [];
                 disposalSiteLandingPages := [indianaSitePage] |};
  store_subscriptions := [inservSubscription; siteSubscription];
  store_companyAnalytics := [click 1]
|}.

End Sample2.

(** * Auxiliary facts *)

(** ** Numbers, comparisons and distance *)

Lemma Rleb_true (a b : R) : Rleb a b = true <-> (a <= b)%R.
Proof. unfold Rleb. destruct (Rle_dec a b); split; intros; auto; discriminate. Qed.

Lemma Rleb_false (a b : R) : Rleb a b = false <-> (b < a)%R.
Proof.
  unfold Rleb. destruct (Rle_dec a b); split; intros; auto; try discriminate; lra.
Qed.

Lemma Rltb_true (a b : R) : Rltb a b = true <-> (a < b)%R.
Proof. unfold Rltb. destruct (Rlt_dec a b); split; intros; auto; discriminate. Qed.

Lemma Rltb_false (a b : R) : Rltb a b = false <-> (b <= a)%R.
Proof.
  unfold Rltb. destruct (Rlt_dec a b); split; intros; auto; try discriminate; lra.
Qed.

Lemma Reqb_true (a b : R) : Reqb a b = true <-> a = b.
Proof. unfold Reqb. destruct (Req_dec_T a b); split; intros; auto; discriminate. Qed.

Lemma lte_Num (a b : R) : lte (Num a) (Num b) = true <-> (a <= b)%R.
Proof. apply Rleb_true. Qed.

Lemma lt_Num (a b : R) : lt (Num a) (Num b) = true <-> (a < b)%R.
Proof. apply Rltb_true. Qed.

Lemma lte_NaN_l (r : number) : lte NaN r = false.
Proof. reflexivity. Qed.

Lemma truthy_Num (a : R) : a <> 0%R -> truthy (Num a) = true.
Proof.
  intros H. simpl. apply negb_true_iff. unfold Reqb.
  destruct (Req_dec_T a 0); [contradiction|reflexivity].
Qed.

Lemma truthy_string_iff (s : string) : truthy_string s = true <-> s <> EmptyString.
Proof. destruct s; simpl; split; intros; try congruence; auto. Qed.

(** A distance within [r1] is within every larger radius. *)
Lemma lte_widen (d r1 r2 : number) :
  lte d r1 = true -> lt r1 r2 = true -> lte d r2 = true.
Proof.
  destruct d as [|d], r1 as [|a], r2 as [|b]; simpl; try discriminate.
  rewrite !Rleb_true, Rltb_true. lra.
Qed.

(** The distance of a point from itself is [0]. *)
Lemma calculateDistance_same (a b : R) :
  calculateDistance (Num a) (Num b) (Num a) (Num b) = Num 0.
Proof.
  unfold calculateDistance, toRadians, Math.atan2, Math.sqrt, Math.sin, Math.cos,
    Math.PI, add, sub, mul, div, lift1, lift2.
  replace ((a - a) * (PI / 180) / 2)%R with 0%R by lra.
  replace ((b - b) * (PI / 180) / 2)%R with 0%R by lra.
  rewrite sin_0.
  replace (0 * 0 + cos (a * (PI / 180)) * cos (a * (PI / 180)) * 0 * 0)%R
    with 0%R by lra.
  assert (H00 : Rltb 0 0 = false) by (apply Rltb_false; lra).
  rewrite H00.
  replace (1 - 0)%R with 1%R by lra.
  assert (H10 : Rltb 1 0 = false) by (apply Rltb_false; lra).
  rewrite H10, sqrt_0, sqrt_1.
  unfold Math.atan2_R.
  assert (H01 : Rltb 0 1 = true) by (apply Rltb_true; lra).
  rewrite H01.
  replace (0 / 1)%R with 0%R by lra.
  rewrite atan_0. f_equal. lra.
Qed.

(** Along a meridian the distance is the arc: [d] degrees of latitude are
    [3959 * d * PI / 180] miles. *)
Lemma calculateDistance_meridian (a b d : R) :
  (0 <= d < 180)%R ->
  calculateDistance (Num a) (Num b) (Num (a + d)) (Num b)
  = Num (3959 * (d * (PI / 180))).
Proof.
  intros Hd.
  pose proof PI_RGT_0 as Hpi.
  unfold calculateDistance, toRadians, Math.atan2, Math.sqrt, Math.sin, Math.cos,
    Math.PI, add, sub, mul, div, lift1, lift2.
  replace ((a + d - a) * (PI / 180) / 2)%R with (d * (PI / 180) / 2)%R by lra.
  replace ((b - b) * (PI / 180) / 2)%R with 0%R by lra.
  rewrite sin_0.
  set (x := (d * (PI / 180) / 2)%R).
  assert (Hx : (0 <= x < PI / 2)%R).
  { unfold x. split.
    - apply Rmult_le_pos; [|lra]. apply Rmult_le_pos; lra.
    - assert (d * (PI / 180) < 180 * (PI / 180))%R.
      { apply Rmult_lt_compat_r; lra. }
      lra. }
  assert (Hs : (0 <= sin x)%R) by (apply sin_ge_0; lra).
  assert (Hc : (0 < cos x)%R) by (apply cos_gt_0; lra).
  replace (sin x * sin x + cos (a * (PI / 180)) * cos ((a + d) * (PI / 180)) * 0 * 0)%R
    with (sin x * sin x)%R by lra.
  assert (Hcc : (1 - sin x * sin x = cos x * cos x)%R).
  { pose proof (sin2_cos2 x) as H. unfold Rsqr in H. lra. }
  rewrite Hcc.
  assert (H1 : Rltb (sin x * sin x) 0 = false).
  { apply Rltb_false. apply Rmult_le_pos; lra. }
  assert (H2 : Rltb (cos x * cos x) 0 = false).
  { apply Rltb_false. apply Rmult_le_pos; lra. }
  rewrite H1, H2, !sqrt_square by lra.
  unfold Math.atan2_R.
  assert (H3 : Rltb 0 (cos x) = true) by (apply Rltb_true; lra).
  rewrite H3.
  change (sin x / cos x)%R with (tan x).
  rewrite atan_tan by lra.
  f_equal. unfold x. lra.
Qed.

Lemma calculateDistance_NaN_lat (lat lng lng2 : number) :
  calculateDistance lat lng NaN lng2 = NaN.
Proof. destruct lat, lng, lng2; reflexivity. Qed.

Lemma calculateDistance_NaN_lng (lat lng lat2 : number) :
  calculateDistance lat lng lat2 NaN = NaN.
Proof. destruct lat, lng, lat2; reflexivity. Qed.

(** ** Lists *)

Lemma filter_incl_impl {A} (p q : A -> bool) (l : list A) :
  (forall x, p x = true -> q x = true) -> incl (filter p l) (filter q l).
Proof.
  intros Hpq x Hin. apply filter_In in Hin as [Hin Hp].
  apply filter_In. split; auto.
Qed.

Lemma filter_skip {A} (p : A -> bool) (l1 l2 : list A) (x : A) :
  p x = false -> filter p (l1 ++ x :: l2) = filter p (l1 ++ l2).
Proof.
  intros H. rewrite !filter_app. simpl. now rewrite H.
Qed.

Lemma filter_none {A} (p : A -> bool) (l : list A) :
  (forall x, In x l -> p x = false) -> filter p l = [].
Proof.
  induction l as [|x l IH]; simpl; intros H; [reflexivity|].
  rewrite (H x (or_introl eq_refl)). apply IH. auto.
Qed.

Lemma filter_all {A} (p : A -> bool) (l : list A) :
  (forall x, In x l -> p x = true) -> filter p l = l.
Proof.
  induction l as [|x l IH]; simpl; intros H; [reflexivity|].
  rewrite (H x (or_introl eq_refl)), IH; auto.
Qed.

Lemma length_pos_iff {A} (l : list A) : (0 <? List.length l)%nat = true <-> l <> [].
Proof.
  destruct l; simpl; split; intros; try congruence; auto. discriminate.
Qed.

(** ** Sorting by a key *)

Section SortByKey.
Variable A : Type.
Variable cmp : A -> A -> Z.
Variable key : A -> Z.
Variable ranked : A -> Prop.
Hypothesis cmp_key :
  forall x y, ranked x -> ranked y -> ((0 < cmp x y)%Z <-> (key x < key y)%Z).

Lemma insert_Permutation (x : A) (l : list A) : Permutation (insert cmp x l) (x :: l).
Proof.
  induction l as [|y l IH]; simpl; [reflexivity|].
  destruct (0 <? cmp x y)%Z; [|reflexivity].
  rewrite IH. apply perm_swap.
Qed.

Lemma sort_Permutation (l : list A) : Permutation (sort cmp l) l.
Proof.
  induction l as [|x l IH]; simpl; [reflexivity|].
  rewrite insert_Permutation. now constructor.
Qed.

Lemma sort_ranked (l : list A) : Forall ranked l -> Forall ranked (sort cmp l).
Proof.
  intros H. rewrite Forall_forall in *. intros x Hx. apply H.
  eapply Permutation_in; [apply sort_Permutation|exact Hx].
Qed.

Lemma insert_sorted (x : A) (l : list A) :
  ranked x -> Forall ranked l ->
  StronglySorted (descending key) l -> StronglySorted (descending key) (insert cmp x l).
Proof.
  intros Hx Hl. induction 1 as [|y l Hs IH Hall]; simpl.
  - constructor; constructor.
  - inversion Hl as [|? ? Hy Hl']; subst.
    destruct (0 <? cmp x y)%Z eqn:E.
    + apply Z.ltb_lt in E. apply (cmp_key Hx Hy) in E.
      constructor; [now apply IH|].
      rewrite insert_Permutation. constructor; [unfold descending; lia|exact Hall].
    + apply Z.ltb_ge in E.
      assert (Hxy : (key y <= key x)%Z).
      { destruct (Z.le_gt_cases (key y) (key x)) as [|Hlt]; [assumption|].
        apply (cmp_key Hx Hy) in Hlt. lia. }
      constructor; [constructor; assumption|].
      constructor; [exact Hxy|].
      eapply Forall_impl; [|exact Hall]. unfold descending. intros; lia.
Qed.

Lemma sort_sorted (l : list A) :
  Forall ranked l -> StronglySorted (descending key) (sort cmp l).
Proof.
  induction l as [|x l IH]; simpl; [constructor|].
  intros H. inversion H; subst.
  apply insert_sorted; auto using sort_ranked.
Qed.

Lemma insert_stable (k : Z) (x : A) (l : list A) :
  ranked x -> Forall ranked l ->
  filter (hasKey key k) (insert cmp x l) = filter (hasKey key k) (x :: l).
Proof.
  intros Hx. induction l as [|y l IH]; [reflexivity|].
  intros Hl. inversion Hl as [|? ? Hy Hl']; subst.
  simpl insert. destruct (0 <? cmp x y)%Z eqn:E; [|reflexivity].
  apply Z.ltb_lt in E. apply (cmp_key Hx Hy) in E.
  simpl in *. rewrite (IH Hl'). unfold hasKey.
  destruct (key y =? k)%Z eqn:Ey; [|reflexivity].
  apply Z.eqb_eq in Ey.
  assert (Ex : (key x =? k)%Z = false) by (apply Z.eqb_neq; lia).
  rewrite Ex. reflexivity.
Qed.

(** Elements of equal key keep their relative order. *)
Lemma sort_stable (k : Z) (l : list A) :
  Forall ranked l -> filter (hasKey key k) (sort cmp l) = filter (hasKey key k) l.
Proof.
  induction l as [|x l IH]; [reflexivity|].
  intros H. inversion H; subst.
  simpl sort. rewrite insert_stable; auto using sort_ranked. simpl. now rewrite IH.
Qed.

End SortByKey.

(** ** The comparator of step 6a *)

Lemma rankingOfSpec_range (tier : string) : (0 <= rankingOfSpec tier <= 3)%Z.
Proof.
  unfold rankingOfSpec.
  repeat match goal with |- context [if ?b then _ else _] => destruct b end; lia.
Qed.

(** For a tier that is not the name of an inherited property the lookup
    gives the rank of the specification. *)
Lemma tierRank_ranked (c : Company) :
  rankedTier c -> tierRank c = Some (rankingOfSpec (company_tier c)).
Proof.
  unfold rankedTier, tierRank, tierOrder, rankingOfSpec. intros H.
  destruct (company_tier c =? "premium")%string; [reflexivity|].
  destruct (company_tier c =? "featured")%string; [reflexivity|].
  destruct (company_tier c =? "verified")%string; [reflexivity|].
  destruct (company_tier c =? "basic")%string; [reflexivity|].
  now rewrite H.
Qed.

Lemma compareFn_rankKey (companyId : Z) (a b : Company) :
  comparable companyId a -> comparable companyId b ->
  (0 < sortCompare (compareFn companyId a b))%Z
  <-> (rankKey companyId a < rankKey companyId b)%Z.
Proof.
  unfold comparable, compareFn, rankKey. intros Ha Hb.
  pose proof (rankingOfSpec_range (company_tier a)).
  pose proof (rankingOfSpec_range (company_tier b)).
  destruct (company_id a =? companyId)%Z eqn:Ea; simpl.
  { destruct (company_id b =? companyId)%Z; lia. }
  destruct (company_id b =? companyId)%Z eqn:Eb; simpl; [lia|].
  apply Z.eqb_neq in Ea, Eb.
  destruct Ha as [Ha|Ha]; [contradiction|]. destruct Hb as [Hb|Hb]; [contradiction|].
  rewrite (tierRank_ranked Ha), (tierRank_ranked Hb). simpl. lia.
Qed.

(** The three facts about the sort of step 6a: a rearrangement, in
    descending rank, equal ranks in input order. *)
Lemma sort_compareFn id (l : list Company) :
  Forall (comparable id) l ->
  let sorted := sort (fun a b => sortCompare (compareFn id a b)) l in
  Permutation sorted l
  /\ StronglySorted (descending (rankKey id)) sorted
  /\ forall k, filter (hasKey (rankKey id) k) sorted = filter (hasKey (rankKey id) k) l.
Proof.
  intros Hl sorted. split; [apply sort_Permutation|]. split.
  - apply sort_sorted with (ranked := comparable id); [|exact Hl].
    intros x y Hx Hy. now apply compareFn_rankKey.
  - intros k. apply sort_stable with (ranked := comparable id); [|exact Hl].
    intros x y Hx Hy. now apply compareFn_rankKey.
Qed.

(** Where the comparator's first two lines take effect: if the company of
    the landing page is in the list that is sorted, the sorted list starts
    with it, whatever the tiers are. *)
Lemma insert_bound_first id (x : Company) (l : list Company) :
  company_id x = id
  \/ (exists c rest, l = c :: rest /\ company_id c = id) ->
  exists c' rest,
    insert (fun a b => sortCompare (compareFn id a b)) x l = c' :: rest
    /\ company_id c' = id.
Proof.
  intros H. destruct l as [|y l]; simpl.
  - destruct H as [H|(c & rest & Hl & _)]; [eauto|discriminate].
  - unfold compareFn.
    destruct (company_id x =? id)%Z eqn:Ex; simpl.
    + apply Z.eqb_eq in Ex. eauto.
    + apply Z.eqb_neq in Ex.
      destruct H as [H|(c & rest & Hl & Hc)]; [contradiction|].
      inversion Hl; subst c rest.
      assert (Ey : (company_id y =? id)%Z = true) by now apply Z.eqb_eq.
      rewrite Ey. simpl. eauto.
Qed.

Lemma bound_company_first id (l : list Company) (c : Company) :
  In c l -> company_id c = id ->
  exists c' rest,
    sort (fun a b => sortCompare (compareFn id a b)) l = c' :: rest
    /\ company_id c' = id.
Proof.
  intros Hin Hid. induction l as [|x l IH]; [contradiction|].
  simpl sort. apply insert_bound_first.
  destruct Hin as [->|Hin]; [left; exact Hid|right; now apply IH].
Qed.

Lemma prioritize_Permutation page (l : list Company) :
  Permutation (prioritize page l) l.
Proof.
  unfold prioritize. destruct page as [p|]; [|reflexivity].
  destruct (truthy_id (page_companyId p)); [|reflexivity].
  destruct (page_companyId p); [|reflexivity].
  apply sort_Permutation.
Qed.

Lemma separatePremium_filter (pc : option Company) (l : list Company) :
  separatePremium pc l = filter (otherThanPremium pc) l.
Proof.
  unfold separatePremium, otherThanPremium.
  destruct pc; [reflexivity|]. symmetry. apply filter_all. reflexivity.
Qed.

Lemma occurrences_Permutation id (l l' : list Company) :
  Permutation l l' -> occurrences id l = occurrences id l'.
Proof.
  unfold occurrences. induction 1; simpl; auto.
  - destruct (company_id x =? id)%Z; simpl; auto.
  - destruct (company_id x =? id)%Z, (company_id y =? id)%Z; simpl; auto.
  - congruence.
Qed.

Lemma occurrences_separated id (l : list Company) :
  occurrences id (filter (fun c => negb (company_id c =? id)%Z) l) = 0%nat.
Proof.
  unfold occurrences. induction l as [|c l IH]; simpl; auto.
  destruct (company_id c =? id)%Z eqn:E; simpl; auto. now rewrite E.
Qed.

(** ** [some] with a callback that may throw *)

Lemma some_true_In {A} (f : A -> option bool) (l : list A) :
  some f l = Some true -> exists x, In x l /\ f x = Some true.
Proof.
  induction l as [|x l IH]; simpl; [discriminate|].
  destruct (f x) as [[|]|] eqn:E; [eauto| |discriminate].
  intros H. destruct (IH H) as (y & Hin & Hy). eauto.
Qed.

Lemma some_In_true {A} (f : A -> option bool) (l : list A) :
  (forall x, In x l -> f x <> None) ->
  (exists x, In x l /\ f x = Some true) -> some f l = Some true.
Proof.
  induction l as [|x l IH]; simpl; intros Hok (y & Hin & Hy); [contradiction|].
  destruct (f x) as [[|]|] eqn:E; [reflexivity| |].
  - apply IH; [auto|]. destruct Hin as [->|Hin]; [congruence|eauto].
  - exfalso. apply (Hok x); auto.
Qed.

Lemma some_skip {A} (f : A -> option bool) (l1 l2 : list A) (x : A) :
  f x = Some false -> some f (l1 ++ x :: l2) = some f (l1 ++ l2).
Proof.
  intros H. induction l1 as [|y l1 IH]; simpl; [now rewrite H|].
  destruct (f y) as [[|]|]; auto.
Qed.

Lemma some_widen {A} (f g : A -> option bool) (l : list A) :
  (forall x, f x = Some true -> g x = Some true) ->
  (forall x, f x = Some false -> g x <> None) ->
  some f l = Some true -> some g l = Some true.
Proof.
  intros Ht Hf. induction l as [|x l IH]; simpl; [discriminate|].
  destruct (f x) as [[|]|] eqn:E; [| |discriminate].
  - intros _. now rewrite (Ht x E).
  - intros H. specialize (Hf x E).
    destruct (g x) as [[|]|]; [reflexivity|now apply IH|contradiction].
Qed.

(** A throw anywhere in the array loses every match behind it. *)
Lemma some_throws {A} (f : A -> option bool) (l1 l2 : list A) (x : A) :
  f x = None -> (forall y, In y l1 -> f y <> Some true) ->
  some f (l1 ++ x :: l2) <> Some true.
Proof.
  intros H Hl1. induction l1 as [|y l1 IH]; simpl; [now rewrite H|].
  destruct (f y) as [[|]|] eqn:E; [| |discriminate].
  - exfalso. apply (Hl1 y); [left; reflexivity|exact E].
  - apply IH. intros z Hz. apply Hl1. now right.
Qed.

(** ** Text comparison *)

Lemma prefix_iff (sub s : string) :
  String.prefix sub s = true <-> exists rest, s = (sub ++ rest)%string.
Proof.
  revert s. induction sub as [|c sub IH]; intros s.
  - split; [intros _; exists s; reflexivity|intros _; destruct s; reflexivity].
  - destruct s as [|d s]; simpl.
    { split; [discriminate|intros [rest H]; discriminate]. }
    destruct (ascii_dec c d) as [->|Hne].
    + rewrite IH. split; intros [rest H]; exists rest; [now rewrite H|].
      now inversion H.
    + split; [discriminate|]. intros [rest H]. inversion H. congruence.
Qed.

Lemma includes_step (s sub : string) :
  includes s sub
  = String.prefix sub s
    || match s with
       | EmptyString => false
       | String _ s' => includes s' sub
       end.
Proof. destruct s; reflexivity. Qed.

Lemma includes_iff (s sub : string) :
  includes s sub = true
  <-> exists before after, s = (before ++ sub ++ after)%string.
Proof.
  induction s as [|c s IH]; rewrite includes_step, orb_true_iff, prefix_iff.
  - split.
    + intros [[rest H]|H]; [|discriminate]. exists EmptyString, rest. exact H.
    + intros (before & after & H). left.
      destruct before; [exists after; exact H|discriminate].
  - rewrite IH. split.
    + intros [[rest H]|(before & after & H)].
      * exists EmptyString, rest. exact H.
      * exists (String c before), after. simpl. now rewrite H.
    + intros (before & after & H). destruct before as [|d before]; simpl in H.
      * left. exists after. exact H.
      * right. inversion H. eauto.
Qed.

Lemma map_string_app (f : ascii -> ascii) (a b : string) :
  map_string f (a ++ b) = (map_string f a ++ map_string f b)%string.
Proof. induction a as [|c a IH]; simpl; [reflexivity|now rewrite IH]. Qed.

Lemma map_string_split (f : ascii -> ascii) (t a b : string) :
  map_string f t = (a ++ b)%string ->
  exists ta tb, t = (ta ++ tb)%string /\ map_string f ta = a /\ map_string f tb = b.
Proof.
  revert t. induction a as [|c a IH]; intros t H; simpl in H.
  - exists EmptyString, t. auto.
  - destruct t as [|d t]; [discriminate|]. simpl in H. inversion H as [[Hc Ht]].
    destruct (IH t Ht) as (ta & tb & -> & Ha & Hb).
    exists (String d ta), tb. simpl. rewrite Ha. auto.
Qed.

Lemma nat_of_lower_ascii (c : ascii) :
  nat_of_ascii (lower_ascii c)
  = if upperLetter c then (nat_of_ascii c + 32)%nat else nat_of_ascii c.
Proof.
  unfold lower_ascii, upperLetter.
  destruct ((65 <=? nat_of_ascii c) && (nat_of_ascii c <=? 90))%nat eqn:E; [|reflexivity].
  apply nat_ascii_embedding.
  apply andb_true_iff in E as [_ E]. apply Nat.leb_le in E. lia.
Qed.

Lemma nat_of_ascii_inj (a b : ascii) : nat_of_ascii a = nat_of_ascii b -> a = b.
Proof.
  intros H. rewrite <- (ascii_nat_embedding a), <- (ascii_nat_embedding b). now rewrite H.
Qed.

Lemma upperLetter_range (c : ascii) :
  upperLetter c = true <-> (65 <= nat_of_ascii c <= 90)%nat.
Proof.
  unfold upperLetter. rewrite andb_true_iff, !Nat.leb_le. reflexivity.
Qed.

Lemma upperLetter_not (c : ascii) :
  upperLetter c = false <-> (nat_of_ascii c < 65 \/ 90 < nat_of_ascii c)%nat.
Proof.
  unfold upperLetter. rewrite andb_false_iff, !Nat.leb_gt. reflexivity.
Qed.

(** Two letters have the same lower case exactly when they are the same
    letter. *)
Lemma lower_ascii_same (a b : ascii) :
  lower_ascii a = lower_ascii b <-> sameLetter a b.
Proof.
  unfold sameLetter. split.
  - intros H. apply (f_equal nat_of_ascii) in H. rewrite !nat_of_lower_ascii in H.
    destruct (upperLetter a) eqn:Ea, (upperLetter b) eqn:Eb.
    + left. apply nat_of_ascii_inj. lia.
    + right. left. split; [reflexivity|lia].
    + right. right. split; [reflexivity|lia].
    + left. now apply nat_of_ascii_inj.
  - intros H. apply nat_of_ascii_inj. rewrite !nat_of_lower_ascii.
    destruct H as [->|[[Ha Hb]|[Hb Ha]]]; [reflexivity| |].
    + rewrite Ha. apply upperLetter_range in Ha.
      assert (Eb : upperLetter b = false) by (apply upperLetter_not; lia).
      rewrite Eb. lia.
    + rewrite Hb. apply upperLetter_range in Hb.
      assert (Ea : upperLetter a = false) by (apply upperLetter_not; lia).
      rewrite Ea. lia.
Qed.

Lemma toLowerCase_same (s t : string) :
  toLowerCase s = toLowerCase t <-> sameText s t.
Proof.
  unfold toLowerCase. split.
  - revert t. induction s as [|a s IH]; intros [|b t] H; simpl in H;
      try discriminate; [constructor|].
    inversion H as [[Hab Hst]]. constructor; [now apply lower_ascii_same|now apply IH].
  - induction 1 as [|a b s t Hab Hst IH]; simpl; [reflexivity|].
    apply lower_ascii_same in Hab. now rewrite Hab, IH.
Qed.

(** The comparison of the code is the case-insensitive substring
    comparison. *)
Lemma includes_toLowerCase (text s : string) :
  includes (toLowerCase text) (toLowerCase s) = true <-> occursIn s text.
Proof.
  rewrite includes_iff. unfold occursIn, toLowerCase. split.
  - intros (before & after & H).
    apply map_string_split in H as (tb & trest & -> & _ & Hrest).
    apply map_string_split in Hrest as (found & ta & -> & Hfound & _).
    exists tb, found, ta. split; [reflexivity|]. now apply toLowerCase_same.
  - intros (before & found & after & -> & Hsame).
    apply toLowerCase_same in Hsame. unfold toLowerCase in Hsame.
    exists (map_string lower_ascii before), (map_string lower_ascii after).
    now rewrite !map_string_app, Hsame.
Qed.

(** ** What the matchers decide *)

(** The guard and the comparison on a primary location. *)
Lemma primary_check (lat lng r : number) (tlat tlng : coordText) :
  truthy_text tlat && truthy_text tlng
    && lte (calculateDistance lat lng (parseFloat tlat) (parseFloat tlng)) r = true
  <-> primaryInRadius lat lng r tlat tlng.
Proof.
  unfold primaryInRadius. split.
  - intros H. apply andb_true_iff in H as [H Hd]. apply andb_true_iff in H as [H1 H2].
    destruct tlat as [| | |a]; simpl in H1; try discriminate H1.
    { unfold parseFloat in Hd. rewrite calculateDistance_NaN_lat in Hd. discriminate. }
    destruct tlng as [| | |b]; simpl in H2; try discriminate H2.
    { unfold parseFloat in Hd. rewrite calculateDistance_NaN_lng in Hd. discriminate. }
    exists a, b. auto.
  - intros (a & b & -> & -> & Hd). simpl. exact Hd.
Qed.

(** The callback of [some] on an entry of a company. *)
Lemma companyLocationInRadius_true (lat lng r : number) (entry : locationEntry) :
  companyLocationInRadius lat lng r entry = Some true
  <-> exists loc,
        entry = ObjectEntry loc
        /\ truthy_coord (loc_lat loc) = true /\ truthy_coord (loc_lng loc) = true
        /\ lte (calculateDistance lat lng (toNumber (loc_lat loc)) (toNumber (loc_lng loc)))
               r = true.
Proof.
  unfold companyLocationInRadius. split.
  - destruct entry as [|loc]; [discriminate|].
    destruct (truthy_coord (loc_lat loc)) eqn:E1, (truthy_coord (loc_lng loc)) eqn:E2;
      simpl; try discriminate.
    intros H. inversion H as [Hd]. exists loc. rewrite Hd. auto.
  - intros (loc & -> & E1 & E2 & H). rewrite E1, E2, H. reflexivity.
Qed.

Lemma companyLocationInRadius_throws (lat lng r : number) (entry : locationEntry) :
  companyLocationInRadius lat lng r entry = None <-> entry = NullEntry.
Proof.
  unfold companyLocationInRadius. destruct entry as [|loc]; [tauto|].
  destruct (_ && _); split; discriminate.
Qed.

Lemma objectEntries_no_throw (lat lng r : number) col locs :
  objectEntries col -> parseLocations col = Some (JsonArray locs) ->
  forall entry, In entry locs -> companyLocationInRadius lat lng r entry <> None.
Proof.
  intros Hok Hp entry Hin H. apply companyLocationInRadius_throws in H. subst entry.
  exact (Hok locs Hp Hin).
Qed.

Lemma truthy_col_parsed col v : parseLocations col = Some v -> truthy_col col = true.
Proof. destruct col; simpl; [discriminate|reflexivity|reflexivity]. Qed.

(** A company that is matched has a location within the radius. *)
Lemma companyMatches_sound (lat lng r : number) (c : Company) :
  companyMatches lat lng r c = true ->
  primaryInRadius lat lng r (company_lat c) (company_lng c)
  \/ additionalInRadius lat lng r (company_additionalLocations c).
Proof.
  rewrite <- primary_check. unfold companyMatches.
  destruct (truthy_text (company_lat c) && truthy_text (company_lng c)
            && lte _ r); [auto|].
  destruct (truthy_col _); [|discriminate].
  destruct (parseLocations _) as [[|locs]|] eqn:Hp; try discriminate.
  destruct (0 <? List.length locs)%nat; [|discriminate].
  destruct (some _ locs) as [[|]|] eqn:Hs; try discriminate.
  intros _. right. apply some_true_In in Hs as (entry & Hin & He).
  apply companyLocationInRadius_true in He as (loc & -> & E1 & E2 & Hd).
  exists locs, loc. auto.
Qed.

Lemma companyMatches_primary (lat lng r : number) (c : Company) :
  primaryInRadius lat lng r (company_lat c) (company_lng c) ->
  companyMatches lat lng r c = true.
Proof.
  intros H. apply primary_check in H. unfold companyMatches. now rewrite H.
Qed.

(** With entries that are objects, a location within the radius matches. *)
Lemma companyMatches_additional (lat lng r : number) (c : Company) :
  objectEntries (company_additionalLocations c) ->
  additionalInRadius lat lng r (company_additionalLocations c) ->
  companyMatches lat lng r c = true.
Proof.
  intros Hok (locs & loc & Hp & Hin & E1 & E2 & Hd). unfold companyMatches.
  destruct (truthy_text (company_lat c) && truthy_text (company_lng c)
            && lte _ r); [reflexivity|].
  rewrite (truthy_col_parsed _ Hp), Hp.
  assert (Hlen : (0 <? List.length locs)%nat = true).
  { destruct locs; [contradiction|reflexivity]. }
  rewrite Hlen.
  rewrite (@some_In_true _ (companyLocationInRadius lat lng r) locs); [reflexivity| |].
  - now apply objectEntries_no_throw with (col := company_additionalLocations c).
  - exists (ObjectEntry loc). split; [exact Hin|].
    apply companyLocationInRadius_true. exists loc. auto.
Qed.

Lemma companyMatches_iff (lat lng r : number) (c : Company) :
  objectEntries (company_additionalLocations c) ->
  (companyMatches lat lng r c = true
   <-> primaryInRadius lat lng r (company_lat c) (company_lng c)
       \/ additionalInRadius lat lng r (company_additionalLocations c)).
Proof.
  intros Hok. split; [apply companyMatches_sound|].
  intros [H|H]; [now apply companyMatches_primary|now apply companyMatches_additional].
Qed.

(** The text comparison on a city or an address. *)
Lemma textMatch_true (text : string) (value : textValue) :
  textMatch (toLowerCase text) value = Some true <-> textContains text value.
Proof.
  unfold textMatch, textContains. destruct value as [|s|].
  - split; [discriminate|intros (s & H & _); discriminate].
  - split.
    + intros H. inversion H as [Hb]. apply andb_true_iff in Hb as [H1 H2].
      exists s. apply truthy_string_iff in H1. apply includes_toLowerCase in H2. auto.
    + intros (s' & Hs & Hne & Hin). inversion Hs; subst s'.
      apply truthy_string_iff in Hne. apply includes_toLowerCase in Hin.
      now rewrite Hne, Hin.
  - split; [discriminate|intros (s & H & _); discriminate].
Qed.

Lemma textMatch_throws (searchLower : string) (value : textValue) :
  textMatch searchLower value = None <-> value = NotText.
Proof. destruct value; simpl; split; congruence. Qed.

(** The callback of [some] on an entry of a disposal site. *)
Lemma siteLocationMatches_sound (text : string) (entry : locationEntry) :
  siteLocationMatches (toLowerCase text) entry = Some true ->
  exists loc,
    entry = ObjectEntry loc
    /\ (textContains text (loc_city loc) \/ textContains text (loc_address loc)).
Proof.
  unfold siteLocationMatches. destruct entry as [|loc]; [discriminate|].
  destruct (textMatch _ (loc_city loc)) as [cityMatch|] eqn:Ec; [|discriminate].
  destruct (textMatch _ (loc_address loc)) as [addressMatch|] eqn:Ea; [|discriminate].
  intros H. inversion H as [Hb]. exists loc. split; [reflexivity|].
  apply orb_true_iff in Hb as [-> | ->]; [left|right]; now apply textMatch_true.
Qed.

Lemma siteLocationMatches_text (text : string) (loc : AdditionalLocation) :
  loc_city loc <> NotText -> loc_address loc <> NotText ->
  textContains text (loc_city loc) \/ textContains text (loc_address loc) ->
  siteLocationMatches (toLowerCase text) (ObjectEntry loc) = Some true.
Proof.
  intros Hc Ha H. unfold siteLocationMatches.
  destruct (textMatch _ (loc_city loc)) as [cityMatch|] eqn:Ec;
    [|apply textMatch_throws in Ec; contradiction].
  destruct (textMatch _ (loc_address loc)) as [addressMatch|] eqn:Ea;
    [|apply textMatch_throws in Ea; contradiction].
  destruct H as [H|H]; apply textMatch_true in H.
  - rewrite Ec in H. inversion H. reflexivity.
  - rewrite Ea in H. inversion H. now rewrite orb_true_r.
Qed.

Lemma siteLocationMatches_throws (searchLower : string) (entry : locationEntry) :
  siteLocationMatches searchLower entry = None
  <-> entry = NullEntry
      \/ exists loc, entry = ObjectEntry loc
                     /\ (loc_city loc = NotText \/ loc_address loc = NotText).
Proof.
  unfold siteLocationMatches. destruct entry as [|loc].
  - split; auto.
  - destruct (textMatch _ (loc_city loc)) as [cityMatch|] eqn:Ec.
    + destruct (textMatch _ (loc_address loc)) as [addressMatch|] eqn:Ea.
      * split; [discriminate|].
        intros [H|(loc' & H & [Hc|Ha])]; [discriminate| |]; inversion H; subst loc'.
        -- rewrite Hc in Ec. discriminate.
        -- rewrite Ha in Ea. discriminate.
      * apply textMatch_throws in Ea. split; [|reflexivity]. intros _. right. eauto.
    + apply textMatch_throws in Ec. split; [|reflexivity]. intros _. right. eauto.
Qed.

Lemma textEntries_no_throw (searchLower : string) col locs :
  textEntries col -> parseLocations col = Some (JsonArray locs) ->
  forall entry, In entry locs -> siteLocationMatches searchLower entry <> None.
Proof.
  intros Hok Hp entry Hin H.
  destruct (Hok locs entry Hp Hin) as (loc & -> & Hc & Ha).
  apply siteLocationMatches_throws in H.
  destruct H as [H|(loc' & H & [H'|H'])]; [discriminate| |];
    inversion H; subst loc'; contradiction.
Qed.

(** A disposal site that is matched has its primary location within the
    radius or an entry whose city or address the search text contains. *)
Lemma siteMatches_sound (lat lng r : number) (searchAddress : option string)
      (site : DisposalSite) :
  siteMatches lat lng r searchAddress site = true ->
  primaryInRadius lat lng r (site_lat site) (site_lng site)
  \/ additionalInText searchAddress (site_additionalLocations site).
Proof.
  rewrite <- primary_check. unfold siteMatches.
  destruct (truthy_text (site_lat site) && truthy_text (site_lng site) && lte _ r);
    [auto|].
  destruct searchAddress as [text|]; [|discriminate].
  destruct (truthy_string text) eqn:Ht; [|discriminate]. simpl.
  destruct (truthy_col _); [|discriminate].
  destruct (parseLocations _) as [[|locs]|] eqn:Hp; try discriminate.
  destruct (some _ locs) as [[|]|] eqn:Hs; try discriminate.
  intros _. right. apply some_true_In in Hs as (entry & Hin & He).
  apply siteLocationMatches_sound in He as (loc & -> & Hloc).
  apply truthy_string_iff in Ht. exists text, locs, loc. auto.
Qed.

Lemma siteMatches_primary (lat lng r : number) (searchAddress : option string)
      (site : DisposalSite) :
  primaryInRadius lat lng r (site_lat site) (site_lng site) ->
  siteMatches lat lng r searchAddress site = true.
Proof.
  intros H. apply primary_check in H. unfold siteMatches. now rewrite H.
Qed.

(** With entries whose city and address are strings or absent, a city or
    address that the search text contains matches. *)
Lemma siteMatches_text (lat lng r : number) (searchAddress : option string)
      (site : DisposalSite) :
  textEntries (site_additionalLocations site) ->
  additionalInText searchAddress (site_additionalLocations site) ->
  siteMatches lat lng r searchAddress site = true.
Proof.
  intros Hok (text & locs & loc & -> & Hne & Hp & Hin & Hloc). unfold siteMatches.
  destruct (truthy_text (site_lat site) && truthy_text (site_lng site) && lte _ r);
    [reflexivity|].
  apply truthy_string_iff in Hne. rewrite Hne, (truthy_col_parsed _ Hp), Hp. simpl.
  rewrite (@some_In_true _ (siteLocationMatches (toLowerCase text)) locs);
    [reflexivity| |].
  - now apply textEntries_no_throw with (col := site_additionalLocations site).
  - exists (ObjectEntry loc). split; [exact Hin|].
    destruct (Hok locs (ObjectEntry loc) Hp Hin) as (loc' & Heq & Hc & Ha).
    inversion Heq; subst loc'. now apply siteLocationMatches_text.
Qed.

Lemma siteMatches_iff (lat lng r : number) (searchAddress : option string)
      (site : DisposalSite) :
  textEntries (site_additionalLocations site) ->
  (siteMatches lat lng r searchAddress site = true
   <-> primaryInRadius lat lng r (site_lat site) (site_lng site)
       \/ additionalInText searchAddress (site_additionalLocations site)).
Proof.
  intros Hok. split; [apply siteMatches_sound|].
  intros [H|H]; [now apply siteMatches_primary|now apply siteMatches_text].
Qed.

Lemma malformedText_not_inRadius lat lng r tlat tlng :
  malformedText tlat \/ malformedText tlng -> ~ primaryInRadius lat lng r tlat tlng.
Proof.
  unfold malformedText. intros H (a & b & -> & -> & _).
  destruct H; discriminate.
Qed.

(** An entry with a malformed coordinate is passed over. *)
Lemma malformedEntry_skipped lat lng r loc :
  malformedEntry loc -> companyLocationInRadius lat lng r (ObjectEntry loc) = Some false.
Proof.
  unfold malformedEntry, malformedCoordinate, companyLocationInRadius.
  intros [[H|H]|[H|H]]; rewrite H; cbn [truthy_coord toNumber andb].
  - reflexivity.
  - destruct (truthy_coord (loc_lng loc)); [|reflexivity].
    now rewrite calculateDistance_NaN_lat.
  - now rewrite andb_false_r.
  - rewrite andb_true_r. destruct (truthy_coord (loc_lat loc)); [|reflexivity].
    now rewrite calculateDistance_NaN_lng.
Qed.

Lemma malformedLocation_not_matched lat lng r entry :
  malformedLocation entry -> companyLocationInRadius lat lng r entry <> Some true.
Proof.
  destruct entry as [|loc]; [intros _; discriminate|].
  intros H. cbn [malformedLocation] in H.
  rewrite (malformedEntry_skipped lat lng r H). discriminate.
Qed.

Lemma companyLocationInRadius_widen lat lng r1 r2 :
  lt r1 r2 = true ->
  (forall entry, companyLocationInRadius lat lng r1 entry = Some true ->
                 companyLocationInRadius lat lng r2 entry = Some true)
  /\ (forall entry, companyLocationInRadius lat lng r1 entry = Some false ->
                    companyLocationInRadius lat lng r2 entry <> None).
Proof.
  intros Hlt. split; intros entry H.
  - apply companyLocationInRadius_true in H as (loc & -> & E1 & E2 & Hd).
    apply companyLocationInRadius_true. exists loc. repeat split; auto.
    eapply lte_widen; eauto.
  - intros Hn. apply companyLocationInRadius_throws in Hn. subst entry. discriminate.
Qed.

Lemma companyMatches_widen lat lng r1 r2 company :
  lt r1 r2 = true ->
  companyMatches lat lng r1 company = true ->
  companyMatches lat lng r2 company = true.
Proof.
  intros Hlt. destruct (@companyLocationInRadius_widen lat lng r1 r2 Hlt) as [Ht Hf].
  assert (Hadd : forall locs,
             match some (companyLocationInRadius lat lng r1) locs with
             | Some b => b | None => false end = true ->
             match some (companyLocationInRadius lat lng r2) locs with
             | Some b => b | None => false end = true).
  { intros locs H.
    destruct (some (companyLocationInRadius lat lng r1) locs) as [[|]|] eqn:E;
      try discriminate.
    now rewrite (some_widen _ _ _ Ht Hf E). }
  unfold companyMatches.
  destruct (truthy_text (company_lat company) && truthy_text (company_lng company));
    simpl.
  - destruct (lte _ r1) eqn:H1.
    + erewrite lte_widen by eauto. reflexivity.
    + intros H. destruct (lte _ r2); [reflexivity|].
      destruct (truthy_col _); [|discriminate].
      destruct (parseLocations _) as [[|locs]|]; try discriminate.
      destruct (0 <? List.length locs)%nat; [|discriminate]. now apply Hadd.
  - destruct (truthy_col _); [|discriminate].
    destruct (parseLocations _) as [[|locs]|]; try discriminate.
    destruct (0 <? List.length locs)%nat; [|discriminate]. now apply Hadd.
Qed.

Lemma siteMatches_widen lat lng r1 r2 searchAddress site :
  lt r1 r2 = true ->
  siteMatches lat lng r1 searchAddress site = true ->
  siteMatches lat lng r2 searchAddress site = true.
Proof.
  intros Hlt. unfold siteMatches.
  destruct (truthy_text (site_lat site) && truthy_text (site_lng site)); simpl.
  - destruct (lte _ r1) eqn:H1.
    + erewrite lte_widen by eauto. reflexivity.
    + intros H. destruct (lte _ r2); [reflexivity|exact H].
  - auto.
Qed.

Lemma companyMatches_at_center (a b r : R) (c : Company) :
  company_lat c = TextNumber a -> company_lng c = TextNumber b -> (0 <= r)%R ->
  companyMatches (Num a) (Num b) (Num r) c = true.
Proof.
  intros Hla Hln Hr. unfold companyMatches. rewrite Hla, Hln. simpl.
  rewrite calculateDistance_same.
  assert (H : lte (Num 0) (Num r) = true) by (apply lte_Num; exact Hr).
  rewrite H. reflexivity.
Qed.


(** ** Running the handler *)

(** A step that has not sent a response yields a value. *)
Ltac yields := repeat eexists; reflexivity.

(** Read the trace and the value off a step that is a [ret] or a [call]. *)
Ltac returned H := unfold ret, call; intros H; inversion H; subst; clear H.

Lemma resolvePremiumCompany_total db page :
  exists t pc, resolvePremiumCompany db page = (t, inr pc).
Proof.
  unfold resolvePremiumCompany.
  destruct page as [p|]; [|yields].
  destruct (_ && _); [|yields].
  destruct (page_companyId p); yields.
Qed.

Lemma resolvePremiumDisposalSite_total db page :
  exists t ps, resolvePremiumDisposalSite db page = (t, inr ps).
Proof.
  unfold resolvePremiumDisposalSite.
  destruct page as [p|]; [|yields].
  destruct (_ && _); [|yields].
  destruct (dpage_disposalSiteId p); yields.
Qed.

(** Step 3 never sends a response: it always yields its four values. *)
Lemma resolvePremium_total db stateCode :
  exists t page pc dpage ps,
    resolvePremium db stateCode = (t, inr (page, pc, dpage, ps)).
Proof.
  unfold resolvePremium.
  destruct (truthy_opt truthy_string stateCode); [|yields].
  destruct stateCode as [code|]; [|yields].
  destruct (resolvePremiumCompany_total db (getStateLandingPageByStateCode db code))
    as (t1 & pc & H1).
  destruct (resolvePremiumDisposalSite_total db
              (getDisposalSiteLandingPageByStateCode db code)) as (t2 & ps & H2).
  unfold bind, call, ret. rewrite H1, H2. yields.
Qed.

(** What step 3 yields: nothing, without a call, when there is no state
    code; otherwise the two pages of the state and what they are bound to. *)
Lemma resolvePremium_inv db stateCode t page pc dpage ps :
  resolvePremium db stateCode = (t, inr (page, pc, dpage, ps)) ->
  (truthy_opt truthy_string stateCode = false
   /\ t = [] /\ page = None /\ pc = None /\ dpage = None /\ ps = None)
  \/ (exists code t1 t2,
        stateCode = Some code /\ truthy_string code = true
        /\ page = getStateLandingPageByStateCode db code
        /\ dpage = getDisposalSiteLandingPageByStateCode db code
        /\ resolvePremiumCompany db page = (t1, inr pc)
        /\ resolvePremiumDisposalSite db dpage = (t2, inr ps)
        /\ t = CallGetStateLandingPage code :: t1
               ++ CallGetDisposalSiteLandingPage code :: t2).
Proof.
  unfold resolvePremium.
  destruct (truthy_opt truthy_string stateCode) eqn:Hs;
    [|returned H; left; repeat split; auto].
  destruct stateCode as [code|]; [|discriminate]. simpl in Hs.
  destruct (resolvePremiumCompany_total db (getStateLandingPageByStateCode db code))
    as (t1 & pc' & H1).
  destruct (resolvePremiumDisposalSite_total db
              (getDisposalSiteLandingPageByStateCode db code)) as (t2 & ps' & H2).
  unfold bind, call, ret. rewrite H1, H2. intros H. inversion H; subst; clear H.
  right. exists code, t1, t2. repeat split; auto.
  simpl. rewrite app_nil_r. reflexivity.
Qed.

(** What the company half of step 3 yields: the company of the id an active
    page is bound to, looked up by one call, or nothing. *)
Lemma resolvePremiumCompany_inv db page t pc :
  resolvePremiumCompany db page = (t, inr pc) ->
  (exists p id, page = Some p /\ page_active p = "yes"%string
                /\ page_companyId p = Some id /\ id <> 0%Z
                /\ pc = getCompany db id /\ t = [CallGetCompany id])
  \/ (pc = None /\ t = []
      /\ (page = None
          \/ exists p, page = Some p
                       /\ (page_active p <> "yes"%string
                           \/ truthy_id (page_companyId p) = false))).
Proof.
  unfold resolvePremiumCompany.
  destruct page as [p|]; [|returned H; right; auto].
  destruct (page_active p =? "yes")%string eqn:Ha; simpl;
    [|returned H; right; repeat split; auto; right; exists p; split; auto;
      left; now apply String.eqb_neq].
  destruct (truthy_id (page_companyId p)) eqn:Hid;
    [|returned H; right; repeat split; auto; right; exists p; auto].
  destruct (page_companyId p) as [id|] eqn:Hc; [|discriminate].
  returned H. left. exists p, id.
  apply String.eqb_eq in Ha. simpl in Hid.
  apply negb_true_iff, Z.eqb_neq in Hid. repeat split; auto.
Qed.

Lemma resolvePremiumDisposalSite_inv db page t ps :
  resolvePremiumDisposalSite db page = (t, inr ps) ->
  (exists p id, page = Some p /\ dpage_active p = "yes"%string
                /\ dpage_disposalSiteId p = Some id /\ id <> 0%Z
                /\ ps = getDisposalSite db id /\ t = [CallGetDisposalSite id])
  \/ (ps = None /\ t = []
      /\ (page = None
          \/ exists p, page = Some p
                       /\ (dpage_active p <> "yes"%string
                           \/ truthy_id (dpage_disposalSiteId p) = false))).
Proof.
  unfold resolvePremiumDisposalSite.
  destruct page as [p|]; [|returned H; right; auto].
  destruct (dpage_active p =? "yes")%string eqn:Ha; simpl;
    [|returned H; right; repeat split; auto; right; exists p; split; auto;
      left; now apply String.eqb_neq].
  destruct (truthy_id (dpage_disposalSiteId p)) eqn:Hid;
    [|returned H; right; repeat split; auto; right; exists p; auto].
  destruct (dpage_disposalSiteId p) as [id|] eqn:Hc; [|discriminate].
  returned H. left. exists p, id.
  apply String.eqb_eq in Ha. simpl in Hid.
  apply negb_true_iff, Z.eqb_neq in Hid. repeat split; auto.
Qed.

(** Without a landing page there is no premium company. *)
Lemma resolvePremium_no_page db stateCode t pc dpage ps :
  resolvePremium db stateCode = (t, inr (None, pc, dpage, ps)) -> pc = None.
Proof.
  intros H. apply resolvePremium_inv in H.
  destruct H as [(_ & _ & _ & H & _)|(code & t1 & t2 & _ & _ & Hp & _ & H1 & _)];
    [exact H|].
  unfold resolvePremiumCompany, ret in H1. now inversion H1.
Qed.

(** A request that passes validation and geocodes is answered with 200 and
    the assembled result. *)
Lemma search_ok env body address data result rest :
  body_address body = Some address ->
  truthy_string address = true ->
  truthy_opt truthy_string (GOOGLE_API_KEY env) = true ->
  geocoder env address = Some data ->
  geo_status data = "OK"%string ->
  geo_results data = Some (result :: rest) ->
  exists t3 page pc dpage ps,
    resolvePremium (db env) (stateCodeOf result) = (t3, inr (page, pc, dpage, ps))
    /\ search env body
       = (FetchGeocode address :: t3
            ++ [CallGetCompaniesByRadius (geo_lat result) (geo_lng result)
                                         (radiusOf body) address;
                CallGetDisposalSitesByRadius (geo_lat result) (geo_lng result)
                                             (radiusOf body) address],
          Respond 200 (SearchJson
            (assemble result (radiusOf body) (stateCodeOf result) (stateNameOf result)
               page pc dpage ps
               (getCompaniesByRadius (companies (db env)) (geo_lat result)
                  (geo_lng result) (radiusOf body) (Some address))
               (getDisposalSitesByRadius (disposalSites (db env)) (geo_lat result)
                  (geo_lng result) (radiusOf body) (Some address))))).
Proof.
  intros Ha Hta Hkey Hg Hst Hres.
  destruct (resolvePremium_total (db env) (stateCodeOf result))
    as (t3 & page & pc & dpage & ps & H3).
  exists t3, page, pc, dpage, ps. split; [exact H3|].
  unfold search, searchHandler. rewrite Ha, Hta, Hkey.
  unfold bind at 1. unfold call at 1. rewrite Hg, Hst, Hres.
  rewrite String.eqb_refl.
  unfold bind at 1. rewrite H3.
  unfold bind, call, respond, run. simpl. reflexivity.
Qed.

(** Only such requests are answered with 200. *)
Lemma search_200_inv env body t r :
  search env body = (t, Respond 200 (SearchJson r)) ->
  exists address data result rest,
    body_address body = Some address
    /\ truthy_string address = true
    /\ truthy_opt truthy_string (GOOGLE_API_KEY env) = true
    /\ geocoder env address = Some data
    /\ geo_status data = "OK"%string
    /\ geo_results data = Some (result :: rest).
Proof.
  unfold search, searchHandler.
  destruct (body_address body) as [address|]; [|discriminate].
  destruct (truthy_string address) eqn:Hta; [|discriminate].
  destruct (truthy_opt truthy_string (GOOGLE_API_KEY env)) eqn:Hkey; [|discriminate].
  unfold bind at 1. unfold call at 1.
  destruct (geocoder env address) as [data|] eqn:Hg; [|discriminate].
  destruct (geo_status data =? "OK")%string eqn:Hst; [|discriminate].
  destruct (geo_results data) as [[|result rest]|] eqn:Hres; try discriminate.
  intros _. exists address, data, result, rest.
  apply String.eqb_eq in Hst. repeat split; auto.
Qed.

(** Every 200 response is the assembled result of its inputs. *)
Lemma search_200_assemble env body t r :
  search env body = (t, Respond 200 (SearchJson r)) ->
  exists address result t3 page pc dpage ps,
    body_address body = Some address
    /\ truthy_string address = true
    /\ resolvePremium (db env) (stateCodeOf result) = (t3, inr (page, pc, dpage, ps))
    /\ t = FetchGeocode address :: t3
             ++ [CallGetCompaniesByRadius (geo_lat result) (geo_lng result)
                                          (radiusOf body) address;
                 CallGetDisposalSitesByRadius (geo_lat result) (geo_lng result)
                                              (radiusOf body) address]
    /\ r = assemble result (radiusOf body) (stateCodeOf result) (stateNameOf result)
             page pc dpage ps
             (getCompaniesByRadius (companies (db env)) (geo_lat result)
                (geo_lng result) (radiusOf body) (Some address))
             (getDisposalSitesByRadius (disposalSites (db env)) (geo_lat result)
                (geo_lng result) (radiusOf body) (Some address)).
Proof.
  intros H.
  destruct (search_200_inv _ _ H)
    as (address & data & result & rest & Ha & Hta & Hkey & Hg & Hst & Hres).
  destruct (search_ok env body Ha Hta Hkey Hg Hst Hres)
    as (t3 & page & pc & dpage & ps & H3 & Hs).
  rewrite Hs in H. inversion H; subst.
  exists address, result, t3, page, pc, dpage, ps. repeat split; auto.
Qed.

Lemma premiumCompanyOf_assemble db stateCode t page pc dpage ps
      result radius code name inRadius sites :
  resolvePremium db stateCode = (t, inr (page, pc, dpage, ps)) ->
  premiumCompanyOf (assemble result radius code name page pc dpage ps inRadius sites) = pc.
Proof.
  intros H. unfold premiumCompanyOf, assemble. simpl.
  destruct page; [reflexivity|].
  symmetry. eapply resolvePremium_no_page; eauto.
Qed.

Lemma premiumDisposalSiteOf_assemble db stateCode t page pc dpage ps
      result radius code name inRadius sites :
  resolvePremium db stateCode = (t, inr (page, pc, dpage, ps)) ->
  premiumDisposalSiteOf
    (assemble result radius code name page pc dpage ps inRadius sites) = ps.
Proof.
  intros H. unfold premiumDisposalSiteOf, assemble. simpl.
  destruct dpage; [reflexivity|].
  apply resolvePremium_inv in H.
  destruct H as [(_ & _ & _ & _ & _ & H)|(code' & t1 & t2 & _ & _ & _ & _ & _ & H2 & _)];
    [now rewrite H|].
  unfold resolvePremiumDisposalSite, ret in H2. now inversion H2.
Qed.

Lemma res_state_assemble result radius stateCode stateName page pc dpage ps
      inRadius sites code name :
  res_state (assemble result radius stateCode stateName page pc dpage ps inRadius sites)
  = Some (code, name) ->
  stateCode = Some code /\ truthy_string code = true.
Proof.
  unfold assemble. simpl.
  destruct (truthy_opt truthy_string stateCode) eqn:Ht; [|discriminate].
  destruct stateCode as [c|]; [|discriminate].
  intros H. inversion H; subst. auto.
Qed.

Lemma getCompany_id db id c : getCompany db id = Some c -> company_id c = id.
Proof.
  unfold getCompany. intros H. apply find_some in H as [_ H]. now apply Z.eqb_eq.
Qed.

Lemma In_trace_radius (address : string) (t3 : list Call) (lat lng radius : number) :
  let t := FetchGeocode address :: t3
             ++ [CallGetCompaniesByRadius lat lng radius address;
                 CallGetDisposalSitesByRadius lat lng radius address] in
  In (CallGetCompaniesByRadius lat lng radius address) t
  /\ In (CallGetDisposalSitesByRadius lat lng radius address) t.
Proof.
  simpl. split; right; apply in_or_app; right; simpl; auto.
Qed.

(** ** The sample data, evaluated *)

Lemma centerLat_nonzero : Sample.centerLat <> 0%R.
Proof. unfold Sample.centerLat. lra. Qed.

Lemma centerLng_nonzero : Sample.centerLng <> 0%R.
Proof. unfold Sample.centerLng. lra. Qed.

(** The sample point 16 degrees north of the center is more than 1,000
    miles away. *)
Lemma far_north :
  calculateDistance (Num Sample.centerLat) (Num Sample.centerLng)
                    (Num (Sample.centerLat + 16)) (Num Sample.centerLng)
  = Num (3959 * (16 * (PI / 180)))
  /\ (1000 < 3959 * (16 * (PI / 180)))%R.
Proof.
  split; [apply calculateDistance_meridian; lra|].
  pose proof PI2_3_2. lra.
Qed.

Lemma northernDump_primary_far (r : R) :
  (r <= 1000)%R ->
  ~ primaryInRadius (Num Sample.centerLat) (Num Sample.centerLng) (Num r)
      (site_lat Sample.northernDump) (site_lng Sample.northernDump).
Proof.
  intros Hr (a & b & Ha & Hb & Hd).
  simpl in Ha, Hb. inversion Ha; subst a. inversion Hb; subst b.
  destruct far_north as [Heq Hfar]. rewrite Heq in Hd.
  apply lte_Num in Hd. lra.
Qed.

Lemma sample_companies_in_radius (r : R) (searchAddress : option string) :
  (0 <= r)%R ->
  getCompaniesByRadius [Sample.acme; Sample.inserv; Sample.badger]
    (Num Sample.centerLat) (Num Sample.centerLng) (Num r) searchAddress
  = [Sample.acme; Sample.inserv; Sample.badger].
Proof.
  intros Hr. unfold getCompaniesByRadius. simpl filter.
  rewrite !companyMatches_at_center; auto.
Qed.

(** The sample request against a database whose companies all sit at the
    search center: every one of them is within any non-negative radius. *)
Lemma centered_search (database : Database) (radius : option number) (r : R)
      t3 page pc dpage ps :
  Forall (fun c => company_lat c = TextNumber Sample.centerLat
                   /\ company_lng c = TextNumber Sample.centerLng)
         (companies database) ->
  disposalSites database = [] ->
  radiusOf (Sample.request radius) = Num r ->
  (0 <= r)%R ->
  resolvePremium database (Some "IN"%string) = (t3, inr (page, pc, dpage, ps)) ->
  search (Sample.env database) (Sample.request radius)
  = (FetchGeocode "Indianapolis, IN" :: t3
       ++ [CallGetCompaniesByRadius (Num Sample.centerLat) (Num Sample.centerLng)
                                    (Num r) "Indianapolis, IN";
           CallGetDisposalSitesByRadius (Num Sample.centerLat) (Num Sample.centerLng)
                                        (Num r) "Indianapolis, IN"],
     Respond 200 (SearchJson
       (assemble Sample.indianapolis (Num r) (Some "IN"%string) (Some "Indiana"%string)
                 page pc dpage ps (companies database) []))).
Proof.
  intros Hc Hd Hrad Hr H3.
  destruct (@search_ok (Sample.env database) (Sample.request radius)
              "Indianapolis, IN"
              {| geo_status := "OK"; geo_results := Some [Sample.indianapolis] |}
              Sample.indianapolis [] eq_refl eq_refl eq_refl eq_refl eq_refl eq_refl)
    as (t3' & page' & pc' & dpage' & ps' & H3' & Hs).
  change (stateCodeOf Sample.indianapolis) with (Some "IN"%string) in *.
  change (stateNameOf Sample.indianapolis) with (Some "Indiana"%string) in Hs.
  change (db (Sample.env database)) with database in *.
  rewrite H3 in H3'. inversion H3'; subst t3' page' pc' dpage' ps'.
  rewrite Hs, Hrad, Hd.
  change (geo_lat Sample.indianapolis) with (Num Sample.centerLat).
  change (geo_lng Sample.indianapolis) with (Num Sample.centerLng).
  replace (getCompaniesByRadius (companies database) (Num Sample.centerLat)
             (Num Sample.centerLng) (Num r) (Some "Indianapolis, IN"%string))
    with (companies database); [reflexivity|].
  unfold getCompaniesByRadius. symmetry. apply filter_all.
  intros c Hin. rewrite Forall_forall in Hc. destruct (Hc c Hin) as [Hla Hln].
  now apply companyMatches_at_center.
Qed.

Lemma sample_search (database : Database) (radius : option number) (r : R)
      t3 page pc dpage ps :
  companies database = [Sample.acme; Sample.inserv; Sample.badger] ->
  disposalSites database = [] ->
  radiusOf (Sample.request radius) = Num r ->
  (0 <= r)%R ->
  resolvePremium database (Some "IN"%string) = (t3, inr (page, pc, dpage, ps)) ->
  search (Sample.env database) (Sample.request radius)
  = (FetchGeocode "Indianapolis, IN" :: t3
       ++ [CallGetCompaniesByRadius (Num Sample.centerLat) (Num Sample.centerLng)
                                    (Num r) "Indianapolis, IN";
           CallGetDisposalSitesByRadius (Num Sample.centerLat) (Num Sample.centerLng)
                                        (Num r) "Indianapolis, IN"],
     Respond 200 (SearchJson
       (assemble Sample.indianapolis (Num r) (Some "IN"%string) (Some "Indiana"%string)
                 page pc dpage ps
                 [Sample.acme; Sample.inserv; Sample.badger] []))).
Proof.
  intros Hc Hd Hrad Hr H3.
  rewrite (@centered_search database radius r t3 page pc dpage ps); auto.
  - now rewrite Hc.
  - rewrite Hc. repeat constructor.
Qed.

Lemma sample_premium_run :
  search (Sample.env Sample.premiumDb) (Sample.request (Some (Num 50)))
  = ([FetchGeocode "Indianapolis, IN"; CallGetStateLandingPage "IN";
      CallGetCompany 42; CallGetDisposalSiteLandingPage "IN";
      CallGetCompaniesByRadius (Num Sample.centerLat) (Num Sample.centerLng)
                               (Num 50) "Indianapolis, IN";
      CallGetDisposalSitesByRadius (Num Sample.centerLat) (Num Sample.centerLng)
                                   (Num 50) "Indianapolis, IN"],
     Respond 200 (SearchJson
       (assemble Sample.indianapolis (Num 50) (Some "IN"%string) (Some "Indiana"%string)
                 (Some Sample.indianaPage) (Some Sample.inserv) None None
                 [Sample.acme; Sample.inserv; Sample.badger] []))).
Proof.
  assert (H50 : (0 <= 50)%R) by lra.
  exact (@sample_search Sample.premiumDb (Some (Num 50)) 50 _ _ _ _ _
           eq_refl eq_refl eq_refl H50 eq_refl).
Qed.

Lemma sample_plain_run :
  search (Sample.env Sample.plainDb) (Sample.request (Some (Num 50)))
  = ([FetchGeocode "Indianapolis, IN"; CallGetStateLandingPage "IN";
      CallGetDisposalSiteLandingPage "IN";
      CallGetCompaniesByRadius (Num Sample.centerLat) (Num Sample.centerLng)
                               (Num 50) "Indianapolis, IN";
      CallGetDisposalSitesByRadius (Num Sample.centerLat) (Num Sample.centerLng)
                                   (Num 50) "Indianapolis, IN"],
     Respond 200 (SearchJson
       (assemble Sample.indianapolis (Num 50) (Some "IN"%string) (Some "Indiana"%string)
                 None None None None
                 [Sample.acme; Sample.inserv; Sample.badger] []))).
Proof.
  assert (H50 : (0 <= 50)%R) by lra.
  exact (@sample_search Sample.plainDb (Some (Num 50)) 50 _ _ _ _ _
           eq_refl eq_refl eq_refl H50 eq_refl).
Qed.

Lemma sample_solo_run :
  search (Sample.env Sample.soloDb) (Sample.request (Some (Num 50)))
  = ([FetchGeocode "Indianapolis, IN"; CallGetStateLandingPage "IN";
      CallGetCompany 42; CallGetDisposalSiteLandingPage "IN";
      CallGetCompaniesByRadius (Num Sample.centerLat) (Num Sample.centerLng)
                               (Num 50) "Indianapolis, IN";
      CallGetDisposalSitesByRadius (Num Sample.centerLat) (Num Sample.centerLng)
                                   (Num 50) "Indianapolis, IN"],
     Respond 200 (SearchJson
       (assemble Sample.indianapolis (Num 50) (Some "IN"%string) (Some "Indiana"%string)
                 (Some Sample.indianaPage) (Some Sample.inserv) None None
                 [Sample.inserv] []))).
Proof.
  assert (H50 : (0 <= 50)%R) by lra.
  assert (Hall : Forall (fun c => company_lat c = TextNumber Sample.centerLat
                                  /\ company_lng c = TextNumber Sample.centerLng)
                        (companies Sample.soloDb)).
  { repeat constructor. }
  exact (@centered_search Sample.soloDb (Some (Num 50)) 50 _ _ _ _ _
           Hall eq_refl eq_refl H50 eq_refl).
Qed.

(** The sample company with its primary office far north is matched by a
    1-mile search around the center, through its additional office. *)
Lemma satellite_matched :
  companyMatches (Num Sample.centerLat) (Num Sample.centerLng) (Num 1) Sample.satellite
  = true.
Proof.
  apply companyMatches_additional.
  - intros locs Hp. inversion Hp; subst locs. intros [H|[]]. discriminate.
  - eexists. eexists. split; [reflexivity|]. split; [left; reflexivity|].
    cbn [loc_lat loc_lng truthy_coord toNumber].
    rewrite !truthy_Num by (apply centerLat_nonzero || apply centerLng_nonzero).
    rewrite calculateDistance_same. repeat split. apply lte_Num. lra.
Qed.

(** * The search specification *)

(** ** Premium pinning *)

(** C1 does not hold of the code.  Indiana has an active landing page bound
    to company 42 and company 42 is among the radius matches, yet the
    returned [companies] sequence does not contain it, at index 0 or
    elsewhere: step 6 filters the premium company out of the matches and
    nothing puts it back, so the comparator of step 6a, written to put the
    landing-page company at the top, never meets it. *)
Theorem premium_company_not_pinned :
  getStateLandingPageByStateCode Sample.premiumDb "IN" = Some Sample.indianaPage
  /\ page_active Sample.indianaPage = "yes"%string
  /\ page_companyId Sample.indianaPage = Some 42%Z
  /\ getCompany Sample.premiumDb 42 = Some Sample.inserv
  /\ In Sample.inserv
        (getCompaniesByRadius (companies Sample.premiumDb)
           (Num Sample.centerLat) (Num Sample.centerLng) (Num 50)
           (Some "Indianapolis, IN"%string))
  /\ statusOf (snd (search (Sample.env Sample.premiumDb)
                           (Sample.request (Some (Num 50))))) = 200%Z
  /\ companiesOf (snd (search (Sample.env Sample.premiumDb)
                              (Sample.request (Some (Num 50)))))
     = [Sample.badger; Sample.acme]
  /\ occurrences 42 (companiesOf (snd (search (Sample.env Sample.premiumDb)
                                              (Sample.request (Some (Num 50))))))
     = 0%nat.
Proof.
  rewrite sample_premium_run.
  change (companies Sample.premiumDb) with [Sample.acme; Sample.inserv; Sample.badger].
  rewrite sample_companies_in_radius by lra.
  repeat split; simpl; auto.
Qed.

(** ** Ordering of the companies *)

(** C2, as the handler has it: the sort runs only when the state of the
    search has a landing page with a company id (active or not).  Then, the
    tiers of the companies other than the landing-page company not being
    names of inherited object properties, [companies] is the radius matches
    other than the premium company, rearranged in descending rank, the
    company of the landing page ranking above every tier and every other
    company by its tier (premium 3, featured 2, verified 1, anything else
    0), companies of equal rank in their input order; when the premium
    company was resolved the rank of every returned company is that of its
    tier.  Without such a page [companies] is the radius matches in the
    order of the store, not sorted. *)
Theorem companies_order :
  forall env body t r,
    search env body = (t, Respond 200 (SearchJson r)) ->
    let others :=
      filter (otherThanPremium (premiumCompanyOf r))
        (getCompaniesByRadius (companies (db env)) (latOf r) (lngOf r)
                              (res_radius r) (body_address body)) in
    (forall page pc id,
       res_premiumLandingPage r = Some (page, pc) ->
       page_companyId page = Some id ->
       id <> 0%Z ->
       (forall c, In c others -> company_id c <> id -> rankedTier c) ->
       Permutation (res_companies r) others
       /\ StronglySorted (descending (rankKey id)) (res_companies r)
       /\ (forall k, filter (hasKey (rankKey id) k) (res_companies r)
                     = filter (hasKey (rankKey id) k) others)
       /\ (pc <> None ->
           forall c, In c (res_companies r) ->
                     rankKey id c = rankingOfSpec (company_tier c)))
    /\ (forall page pc,
          res_premiumLandingPage r = Some (page, pc) ->
          truthy_id (page_companyId page) = false ->
          res_companies r = others)
    /\ (res_premiumLandingPage r = None ->
        res_companies r
        = getCompaniesByRadius (companies (db env)) (latOf r) (lngOf r)
                               (res_radius r) (body_address body)).
Proof.
  intros env body t r H others.
  destruct (search_200_assemble _ _ H)
    as (address & result & t3 & page & pc & dpage & ps & Ha & _ & H3 & _ & Hr).
  assert (Hpc : premiumCompanyOf r = pc).
  { rewrite Hr. eapply premiumCompanyOf_assemble; eauto. }
  assert (Hothers : others
                    = separatePremium pc
                        (getCompaniesByRadius (companies (db env)) (latOf r) (lngOf r)
                           (res_radius r) (body_address body))).
  { unfold others. rewrite Hpc. unfold separatePremium, otherThanPremium.
    destruct pc; [reflexivity|]. apply filter_all. reflexivity. }
  clearbody others. subst others.
  assert (Hc : res_companies r
               = prioritize page
                   (separatePremium pc
                      (getCompaniesByRadius (companies (db env)) (latOf r) (lngOf r)
                         (res_radius r) (body_address body)))).
  { rewrite Hr, Ha. reflexivity. }
  assert (Hp : res_premiumLandingPage r
               = match page with Some p => Some (p, pc) | None => None end).
  { rewrite Hr. reflexivity. }
  rewrite Hc, Hp. clear Hc Hp Hr.
  split; [|split].
  - intros p pc' id Hpage Hid Hnz Hranked.
    destruct page as [p'|]; [|discriminate]. inversion Hpage; subst p' pc'.
    unfold prioritize. rewrite Hid. simpl.
    assert (Hz : (id =? 0)%Z = false) by now apply Z.eqb_neq.
    rewrite Hz. simpl.
    assert (Hcomparable :
              Forall (comparable id)
                (separatePremium pc
                   (getCompaniesByRadius (companies (db env)) (latOf r) (lngOf r)
                      (res_radius r) (body_address body)))).
    { apply Forall_forall. intros c Hin. unfold comparable.
      destruct (Z.eq_dec (company_id c) id) as [E|E]; [now left|right; auto]. }
    destruct (sort_compareFn Hcomparable) as (Hperm & Hsorted & Hstable).
    repeat split; auto.
    intros Hsome c Hin. unfold rankKey.
    destruct (company_id c =? id)%Z eqn:Ec; [|reflexivity].
    exfalso. apply Z.eqb_eq in Ec.
    eapply Permutation_in in Hin; [|exact Hperm].
    apply resolvePremium_inv in H3.
    destruct H3 as [(_ & _ & Hn & _)|(code & t1 & t2 & _ & _ & _ & _ & H1 & _)];
      [discriminate|].
    apply resolvePremiumCompany_inv in H1.
    destruct H1 as [(p0 & id0 & Hp0 & _ & Hid0 & _ & Hget & _)|(Hn & _)];
      [|contradiction].
    inversion Hp0; subst p0. rewrite Hid in Hid0. inversion Hid0; subst id0.
    destruct pc as [P|]; [|contradiction].
    symmetry in Hget. apply getCompany_id in Hget.
    unfold separatePremium in Hin. apply filter_In in Hin as [_ Hne].
    apply negb_true_iff, Z.eqb_neq in Hne. congruence.
  - intros p pc' Hpage Hfalse.
    destruct page as [p'|]; [|discriminate]. inversion Hpage; subst p' pc'.
    unfold prioritize. rewrite Hfalse. reflexivity.
  - intros Hnone. destruct page as [p'|]; [discriminate|].
    rewrite (resolvePremium_no_page _ _ H3). reflexivity.
Qed.

Lemma companies_order_witness :
  exists t r,
    search (Sample.env Sample.premiumDb) (Sample.request (Some (Num 50)))
    = (t, Respond 200 (SearchJson r))
    /\ StronglySorted (descending (rankKey 42)) (res_companies r)
    /\ map company_tier (res_companies r) = ["verified"; "basic"]%string.
Proof.
  eexists. eexists. split; [exact sample_premium_run|].
  assert (Hnz : 42%Z <> 0%Z) by discriminate.
  destruct (@companies_order _ _ _ _ sample_premium_run) as (Hsorted & _ & _).
  destruct (Hsorted Sample.indianaPage (Some Sample.inserv) 42%Z eq_refl eq_refl Hnz)
    as (_ & Hs & _).
  - intros c Hin _. apply filter_In in Hin as [Hin _].
    change (In c (getCompaniesByRadius [Sample.acme; Sample.inserv; Sample.badger]
                    (Num Sample.centerLat) (Num Sample.centerLng) (Num 50)
                    (Some "Indianapolis, IN"%string))) in Hin.
    rewrite sample_companies_in_radius in Hin by lra.
    destruct Hin as [<-|[<-|[<-|[]]]]; reflexivity.
  - split; [exact Hs|reflexivity].
Defined.

(** C2 as stated fails: three matched companies with tiers basic, premium,
    verified in that order and no landing page for the state are returned
    in that order, not as premium, verified, basic. *)
Lemma no_landing_page_no_sort :
  getStateLandingPageByStateCode Sample.plainDb "IN" = None
  /\ map company_tier
         (getCompaniesByRadius (companies Sample.plainDb)
            (Num Sample.centerLat) (Num Sample.centerLng) (Num 50)
            (Some "Indianapolis, IN"%string))
     = ["basic"; "premium"; "verified"]%string
  /\ map company_tier
         (companiesOf (snd (search (Sample.env Sample.plainDb)
                                   (Sample.request (Some (Num 50))))))
     = ["basic"; "premium"; "verified"]%string
  /\ map company_tier
         (companiesOf (snd (search (Sample.env Sample.plainDb)
                                   (Sample.request (Some (Num 50))))))
     <> ["premium"; "verified"; "basic"]%string.
Proof.
  rewrite sample_plain_run.
  change (companies Sample.plainDb) with [Sample.acme; Sample.inserv; Sample.badger].
  rewrite sample_companies_in_radius by lra.
  repeat split; simpl; auto. discriminate.
Qed.

(** ** Input validation *)

(** C3, as the handler has it: a missing or empty address is answered with
    400 before any call is made, so neither geocoding nor matching nor
    result assembly happens; [radiusMiles] is not validated, and a request
    whose address validates and geocodes is answered with 200 and its own
    radius, whatever that radius is. *)
Theorem address_required_radius_unchecked :
  forall env body,
    (truthy_opt truthy_string (body_address body) = false ->
     search env body = ([], Respond 400 (ErrorJson "Address is required" false)))
    /\ (forall address data result rest,
          body_address body = Some address ->
          truthy_string address = true ->
          truthy_opt truthy_string (GOOGLE_API_KEY env) = true ->
          geocoder env address = Some data ->
          geo_status data = "OK"%string ->
          geo_results data = Some (result :: rest) ->
          exists t r,
            search env body = (FetchGeocode address :: t, Respond 200 (SearchJson r))
            /\ res_radius r = radiusOf body).
Proof.
  intros env body. split.
  - unfold search, searchHandler.
    destruct (body_address body) as [address|]; simpl; [|reflexivity].
    intros H. rewrite H. reflexivity.
  - intros address data result rest Ha Hta Hkey Hg Hst Hres.
    destruct (search_ok env body Ha Hta Hkey Hg Hst Hres)
      as (t3 & page & pc & dpage & ps & _ & Hs).
    eexists. eexists. split; [exact Hs|]. reflexivity.
Qed.

Lemma address_required_radius_unchecked_witness :
  search (Sample.env Sample.plainDb)
         {| body_address := Some ""%string; body_radiusMiles := Some (Num 50) |}
  = ([], Respond 400 (ErrorJson "Address is required" false))
  /\ exists t r,
       search (Sample.env Sample.plainDb) (Sample.request (Some (Num 0)))
       = (FetchGeocode "Indianapolis, IN" :: t, Respond 200 (SearchJson r))
       /\ res_radius r = Num 0.
Proof.
  split.
  - apply (address_required_radius_unchecked (Sample.env Sample.plainDb)
             {| body_address := Some ""%string; body_radiusMiles := Some (Num 50) |}).
    reflexivity.
  - exact (proj2 (address_required_radius_unchecked (Sample.env Sample.plainDb)
                    (Sample.request (Some (Num 0))))
                 "Indianapolis, IN"%string
                 {| geo_status := "OK"; geo_results := Some [Sample.indianapolis] |}
                 Sample.indianapolis [] eq_refl eq_refl eq_refl eq_refl eq_refl eq_refl).
Defined.

(** C3 as stated fails: a request with radius -5, which is not strictly
    greater than 0, is geocoded and answered with 200, not rejected. *)
Lemma negative_radius_accepted :
  lt (Num 0) (Num (-5)) = false
  /\ statusOf (snd (search (Sample.env Sample.plainDb)
                           (Sample.request (Some (Num (-5)))))) = 200%Z
  /\ In (FetchGeocode "Indianapolis, IN")
        (fst (search (Sample.env Sample.plainDb) (Sample.request (Some (Num (-5)))))).
Proof.
  split.
  - apply Rltb_false. lra.
  - destruct (@search_ok (Sample.env Sample.plainDb) (Sample.request (Some (Num (-5))))
                "Indianapolis, IN"
                {| geo_status := "OK"; geo_results := Some [Sample.indianapolis] |}
                Sample.indianapolis [] eq_refl eq_refl eq_refl eq_refl eq_refl eq_refl)
      as (t3 & page & pc & dpage & ps & _ & Hs).
    rewrite Hs. simpl. auto.
Qed.

(** ** Radius matching *)

(** C4, as the matchers have it.  A company in the match set has its
    primary location, or an entry of its additional locations whose
    coordinates are both truthy, within the radius; and a company with its
    primary location within the radius, or with additional locations that
    are all objects and one of them, with both coordinates truthy, within
    the radius, is in the match set; so a company with an additional
    location exactly at the search center matches a 1-mile search wherever
    its primary location is.  A disposal site in the match set has its
    primary location within the radius or an additional location whose city
    or address the search text contains; and a disposal site with its
    primary location within the radius, or with additional locations whose
    cities and addresses are strings or absent and one of which the search
    text contains, is in the match set: the coordinates of a disposal
    site's additional locations are not looked at. *)
Theorem radius_match_sets :
  (forall lat lng r all searchAddress c,
     In c (getCompaniesByRadius all lat lng r searchAddress) ->
     In c all
     /\ (primaryInRadius lat lng r (company_lat c) (company_lng c)
         \/ additionalInRadius lat lng r (company_additionalLocations c)))
  /\ (forall lat lng r all searchAddress c,
        In c all ->
        primaryInRadius lat lng r (company_lat c) (company_lng c)
        \/ (objectEntries (company_additionalLocations c)
            /\ additionalInRadius lat lng r (company_additionalLocations c)) ->
        In c (getCompaniesByRadius all lat lng r searchAddress))
  /\ (forall a b all searchAddress c locs loc,
        a <> 0%R -> b <> 0%R ->
        In c all ->
        objectEntries (company_additionalLocations c) ->
        parseLocations (company_additionalLocations c) = Some (JsonArray locs) ->
        In (ObjectEntry loc) locs ->
        loc_lat loc = CoordNumber a ->
        loc_lng loc = CoordNumber b ->
        In c (getCompaniesByRadius all (Num a) (Num b) (Num 1) searchAddress))
  /\ (forall lat lng r all searchAddress site,
        In site (getDisposalSitesByRadius all lat lng r searchAddress) ->
        In site all
        /\ (primaryInRadius lat lng r (site_lat site) (site_lng site)
            \/ additionalInText searchAddress (site_additionalLocations site)))
  /\ (forall lat lng r all searchAddress site,
        In site all ->
        primaryInRadius lat lng r (site_lat site) (site_lng site)
        \/ (textEntries (site_additionalLocations site)
            /\ additionalInText searchAddress (site_additionalLocations site)) ->
        In site (getDisposalSitesByRadius all lat lng r searchAddress)).
Proof.
  repeat match goal with |- _ /\ _ => split end.
  - intros lat lng r all searchAddress c Hin.
    apply filter_In in Hin as [Hin Hm]. split; [exact Hin|].
    now apply companyMatches_sound.
  - intros lat lng r all searchAddress c Hin H.
    apply filter_In. split; [exact Hin|].
    destruct H as [H|[Hok H]];
      [now apply companyMatches_primary|now apply companyMatches_additional].
  - intros a b all searchAddress c locs loc Ha Hb Hin Hok Hp Hloc Hlat Hlng.
    apply filter_In. split; [exact Hin|].
    apply companyMatches_additional; [exact Hok|].
    exists locs, loc. rewrite Hlat, Hlng. cbn [truthy_coord toNumber].
    rewrite !truthy_Num by assumption.
    repeat split; auto.
    rewrite calculateDistance_same. apply lte_Num. lra.
  - intros lat lng r all searchAddress site Hin.
    apply filter_In in Hin as [Hin Hm]. split; [exact Hin|].
    now apply siteMatches_sound.
  - intros lat lng r all searchAddress site Hin H.
    apply filter_In. split; [exact Hin|].
    destruct H as [H|[Hok H]];
      [now apply siteMatches_primary|now apply siteMatches_text].
Qed.

Lemma radius_match_sets_witness :
  (1000 < 3959 * (16 * (PI / 180)))%R
  /\ calculateDistance (Num Sample.centerLat) (Num Sample.centerLng)
       (parseFloat (company_lat Sample.satellite))
       (parseFloat (company_lng Sample.satellite))
     = Num (3959 * (16 * (PI / 180)))
  /\ In Sample.satellite
        (getCompaniesByRadius [Sample.acme; Sample.satellite]
           (Num Sample.centerLat) (Num Sample.centerLng) (Num 1) None).
Proof.
  destruct far_north as [Heq Hfar].
  split; [exact Hfar|]. split; [exact Heq|].
  destruct radius_match_sets as (_ & _ & Hex & _).
  eapply (Hex Sample.centerLat Sample.centerLng [Sample.acme; Sample.satellite] None
              Sample.satellite);
    [exact centerLat_nonzero | exact centerLng_nonzero | simpl; auto
    | | reflexivity | left; reflexivity | reflexivity | reflexivity].
  intros locs Hp. inversion Hp; subst locs. intros [H|[]]. discriminate.
Defined.

(** C4 as stated fails for disposal sites: the sample site has an additional
    location whose coordinates are those of the search center, at distance
    0 <= 1, and is not in the match set of the 1-mile search. *)
Lemma disposal_site_coordinates_ignored :
  site_additionalLocations Sample.northernDump
  = ColJson (JsonArray [ ObjectEntry {| loc_city := Text "Gary"%string;
                                        loc_address := NoText;
                                        loc_lat := CoordNumber Sample.centerLat;
                                        loc_lng := CoordNumber Sample.centerLng |} ])
  /\ lte (calculateDistance (Num Sample.centerLat) (Num Sample.centerLng)
                            (Num Sample.centerLat) (Num Sample.centerLng))
         (Num 1) = true
  /\ getDisposalSitesByRadius [Sample.northernDump]
       (Num Sample.centerLat) (Num Sample.centerLng) (Num 1)
       (Some "Indianapolis, IN"%string)
     = [].
Proof.
  split; [reflexivity|]. split.
  - rewrite calculateDistance_same. apply lte_Num. lra.
  - unfold getDisposalSitesByRadius. simpl filter.
    destruct (siteMatches _ _ _ _ Sample.northernDump) eqn:E; [|reflexivity].
    exfalso. apply siteMatches_sound in E. destruct E as [E|E].
    + revert E. apply northernDump_primary_far. lra.
    + destruct E as (text & locs & loc & Ht & _ & Hp & Hin & Hloc).
      inversion Ht; subst text. simpl in Hp. inversion Hp; subst locs.
      destruct Hin as [Heq|[]]. inversion Heq; subst loc. clear Heq.
      destruct Hloc as [(s & Hs & _ & Hi)|(s & Hs & _)]; simpl in Hs;
        [|discriminate].
      inversion Hs; subst s. apply includes_toLowerCase in Hi.
      vm_compute in Hi. discriminate.
Qed.

(** ** Radius monotonicity *)

(** C5: for a fixed center, provider collection and search address, the
    match set of a radius [r1] is a subset of the match set of every radius
    [r2] with [r1 < r2], for the company matcher and for the disposal-site
    matcher. *)
Theorem radius_match_monotone :
  forall (allCompanies : list Company) (allSites : list DisposalSite)
         (lat lng r1 r2 : number) (searchAddress : option string),
    lt r1 r2 = true ->
    incl (getCompaniesByRadius allCompanies lat lng r1 searchAddress)
         (getCompaniesByRadius allCompanies lat lng r2 searchAddress)
    /\ incl (getDisposalSitesByRadius allSites lat lng r1 searchAddress)
            (getDisposalSitesByRadius allSites lat lng r2 searchAddress).
Proof.
  intros. split; apply filter_incl_impl; intros x Hx.
  - eapply companyMatches_widen; eauto.
  - eapply siteMatches_widen; eauto.
Qed.

Lemma radius_match_monotone_witness :
  lt (Num 25) (Num 50) = true
  /\ incl (getCompaniesByRadius [Sample.acme; Sample.satellite]
             (Num Sample.centerLat) (Num Sample.centerLng) (Num 25) (Some "Gary, IN"%string))
          (getCompaniesByRadius [Sample.acme; Sample.satellite]
             (Num Sample.centerLat) (Num Sample.centerLng) (Num 50) (Some "Gary, IN"%string))
  /\ incl (getDisposalSitesByRadius [Sample.northernDump; Sample.unlocated]
             (Num Sample.centerLat) (Num Sample.centerLng) (Num 25) (Some "Gary, IN"%string))
          (getDisposalSitesByRadius [Sample.northernDump; Sample.unlocated]
             (Num Sample.centerLat) (Num Sample.centerLng) (Num 50) (Some "Gary, IN"%string)).
Proof.
  split; [apply lt_Num; lra|].
  apply radius_match_monotone. apply lt_Num; lra.
Defined.

(** ** Malformed location data *)

(** C6, as the matchers have it.  A company all of whose location data is
    malformed (primary coordinates that do not parse, every entry [null] or
    with a coordinate that is missing or not a number) is in no match set.
    An entry of a company that is an object with a malformed coordinate is
    only passed over: the company matches as it does without that entry.
    Malformed primary coordinates leave the additional locations to decide,
    and an [additionalLocations] string that does not parse leaves the
    primary location to decide.  A provider that does not match, malformed
    or not, leaves the match set of the others as it is.  For a disposal
    site with malformed primary coordinates the text match of its
    additional locations decides. *)
Theorem malformed_locations_skipped :
  (forall lat lng r c,
     malformedText (company_lat c) \/ malformedText (company_lng c) ->
     (forall locs entry,
        parseLocations (company_additionalLocations c) = Some (JsonArray locs) ->
        In entry locs -> malformedLocation entry) ->
     companyMatches lat lng r c = false)
  /\ (forall lat lng r c l1 bad l2,
        malformedEntry bad ->
        companyMatches lat lng r
          (withLocations c (ColJson (JsonArray (l1 ++ ObjectEntry bad :: l2))))
        = companyMatches lat lng r (withLocations c (ColJson (JsonArray (l1 ++ l2)))))
  /\ (forall lat lng r c,
        malformedText (company_lat c) \/ malformedText (company_lng c) ->
        (companyMatches lat lng r c = true ->
         additionalInRadius lat lng r (company_additionalLocations c))
        /\ (objectEntries (company_additionalLocations c) ->
            additionalInRadius lat lng r (company_additionalLocations c) ->
            companyMatches lat lng r c = true))
  /\ (forall lat lng r c,
        company_additionalLocations c = ColString None ->
        (companyMatches lat lng r c = true
         <-> primaryInRadius lat lng r (company_lat c) (company_lng c)))
  /\ (forall lat lng r searchAddress cs1 c cs2,
        companyMatches lat lng r c = false ->
        getCompaniesByRadius (cs1 ++ c :: cs2) lat lng r searchAddress
        = getCompaniesByRadius (cs1 ++ cs2) lat lng r searchAddress)
  /\ (forall lat lng r searchAddress ss1 s ss2,
        siteMatches lat lng r searchAddress s = false ->
        getDisposalSitesByRadius (ss1 ++ s :: ss2) lat lng r searchAddress
        = getDisposalSitesByRadius (ss1 ++ ss2) lat lng r searchAddress)
  /\ (forall lat lng r searchAddress s,
        malformedText (site_lat s) \/ malformedText (site_lng s) ->
        (siteMatches lat lng r searchAddress s = true ->
         additionalInText searchAddress (site_additionalLocations s))
        /\ (textEntries (site_additionalLocations s) ->
            additionalInText searchAddress (site_additionalLocations s) ->
            siteMatches lat lng r searchAddress s = true)).
Proof.
  repeat match goal with |- _ /\ _ => split end.
  - intros lat lng r c Hprimary Hentries.
    destruct (companyMatches lat lng r c) eqn:E; [|reflexivity].
    exfalso. apply companyMatches_sound in E. destruct E as [E|E].
    + eapply malformedText_not_inRadius; eauto.
    + destruct E as (locs & loc & Hp & Hin & Htl & Htg & Hd).
      apply (@malformedLocation_not_matched lat lng r (ObjectEntry loc)).
      * exact (Hentries locs _ Hp Hin).
      * apply companyLocationInRadius_true. exists loc. auto.
  - intros lat lng r c l1 bad l2 Hbad.
    unfold companyMatches, withLocations.
    cbn [company_lat company_lng company_additionalLocations truthy_col parseLocations].
    rewrite (some_skip _ _ _ _ (malformedEntry_skipped lat lng r Hbad)).
    destruct (truthy_text (company_lat c) && truthy_text (company_lng c) && lte _ r);
      [reflexivity|].
    destruct l1 as [|x l1]; [|reflexivity].
    destruct l2 as [|y l2]; reflexivity.
  - intros lat lng r c Hprimary. split; [|apply companyMatches_additional].
    intros H. apply companyMatches_sound in H.
    destruct H as [H|H]; [|exact H].
    exfalso. eapply malformedText_not_inRadius; eauto.
  - intros lat lng r c Hcol. split; [|apply companyMatches_primary].
    intros H. apply companyMatches_sound in H.
    destruct H as [H|(locs & loc & Hp & _)]; [exact H|].
    rewrite Hcol in Hp. discriminate.
  - intros. unfold getCompaniesByRadius. now apply filter_skip.
  - intros. unfold getDisposalSitesByRadius. now apply filter_skip.
  - intros lat lng r searchAddress s Hprimary. split; [|apply siteMatches_text].
    intros H. apply siteMatches_sound in H.
    destruct H as [H|H]; [|exact H].
    exfalso. eapply malformedText_not_inRadius; eauto.
Qed.

Lemma malformed_locations_skipped_witness :
  let bad := {| loc_city := Text "Gary"%string; loc_address := NoText;
                loc_lat := CoordMissing; loc_lng := CoordOther NaN |} in
  let office := {| loc_city := Text "Indianapolis"%string; loc_address := NoText;
                   loc_lat := CoordNumber Sample.centerLat;
                   loc_lng := CoordNumber Sample.centerLng |} in
  companyMatches (Num Sample.centerLat) (Num Sample.centerLng) (Num 1)
    (withLocations Sample.satellite
       (ColJson (JsonArray [ObjectEntry bad; ObjectEntry office])))
  = companyMatches (Num Sample.centerLat) (Num Sample.centerLng) (Num 1)
      (withLocations Sample.satellite (ColJson (JsonArray [ObjectEntry office])))
  /\ companyMatches (Num Sample.centerLat) (Num Sample.centerLng) (Num 1)
       (withLocations Sample.satellite (ColJson (JsonArray [ObjectEntry office])))
     = true.
Proof.
  intros bad office. split; [|exact satellite_matched].
  destruct malformed_locations_skipped as (_ & Hskip & _).
  apply (Hskip (Num Sample.centerLat) (Num Sample.centerLng) (Num 1)
               Sample.satellite [] bad [ObjectEntry office]).
  left. left. reflexivity.
Defined.

(** C6 as stated fails for disposal sites: the sample site has no
    coordinates at all, neither primary nor on its one additional location,
    and is in the match set of a 1-mile search for "Gary, IN". *)
Lemma unlocated_site_matched :
  malformedText (site_lat Sample.unlocated)
  /\ malformedText (site_lng Sample.unlocated)
  /\ site_additionalLocations Sample.unlocated
     = ColJson (JsonArray [ ObjectEntry {| loc_city := Text "Gary"%string;
                                           loc_address := NoText;
                                           loc_lat := CoordMissing;
                                           loc_lng := CoordMissing |} ])
  /\ malformedEntry {| loc_city := Text "Gary"%string; loc_address := NoText;
                       loc_lat := CoordMissing; loc_lng := CoordMissing |}
  /\ getDisposalSitesByRadius [Sample.unlocated]
       (Num Sample.centerLat) (Num Sample.centerLng) (Num 1) (Some "Gary, IN"%string)
     = [Sample.unlocated].
Proof.
  repeat split; try reflexivity. left. left. reflexivity.
Qed.

(** ** hasRadiusResults *)

(** C7: for every search that reaches result assembly, [hasRadiusResults]
    is true if and only if some company among the radius matches is not the
    premium company or some disposal site is among the radius matches, and
    false exactly when every matched company is the premium company and no
    disposal site is matched; these are the cases in which the returned
    [companies] or [disposalSites] is non-empty, and in which both are
    empty. *)
Theorem hasRadiusResults_iff :
  forall env body t r,
    search env body = (t, Respond 200 (SearchJson r)) ->
    let matched :=
      getCompaniesByRadius (companies (db env)) (latOf r) (lngOf r)
                           (res_radius r) (body_address body) in
    let sites :=
      getDisposalSitesByRadius (disposalSites (db env)) (latOf r) (lngOf r)
                               (res_radius r) (body_address body) in
    (res_hasRadiusResults r = true
       <-> (exists c, In c matched /\ otherThanPremium (premiumCompanyOf r) c = true)
           \/ sites <> [])
    /\ (res_hasRadiusResults r = false
          <-> (forall c, In c matched -> otherThanPremium (premiumCompanyOf r) c = false)
              /\ sites = [])
    /\ (res_hasRadiusResults r = true
          <-> res_companies r <> [] \/ res_disposalSites r <> [])
    /\ (res_hasRadiusResults r = false
          <-> res_companies r = [] /\ res_disposalSites r = [])
    /\ Permutation (res_companies r)
                   (filter (otherThanPremium (premiumCompanyOf r)) matched)
    /\ res_disposalSites r = sites.
Proof.
  intros env body t r H matched sites.
  destruct (search_200_assemble _ _ H)
    as (address & result & t3 & page & pc & dpage & ps & Ha & _ & H3 & _ & Hr).
  assert (Hpc : premiumCompanyOf r = pc).
  { rewrite Hr. eapply premiumCompanyOf_assemble; eauto. }
  assert (Hsites : res_disposalSites r = sites).
  { unfold sites. rewrite Hr, Ha. reflexivity. }
  assert (Hperm : Permutation (res_companies r) (filter (otherThanPremium pc) matched)).
  { rewrite <- separatePremium_filter. unfold matched. rewrite Hr, Ha.
    apply prioritize_Permutation. }
  assert (Hhas : res_hasRadiusResults r
                 = (0 <? List.length (res_companies r))%nat
                   || (0 <? List.length (res_disposalSites r))%nat).
  { rewrite Hr. reflexivity. }
  assert (Hnonempty : res_companies r <> []
                      <-> exists c, In c matched /\ otherThanPremium pc c = true).
  { split.
    - intros Hne. destruct (res_companies r) as [|c rest] eqn:E; [contradiction|].
      exists c. apply filter_In. eapply Permutation_in; [exact Hperm|]. now left.
    - intros (c & Hin & Hc) E. rewrite E in Hperm.
      apply Permutation_nil in Hperm.
      assert (Hf : In c (filter (otherThanPremium pc) matched)) by now apply filter_In.
      rewrite Hperm in Hf. contradiction. }
  assert (Htrue : res_hasRadiusResults r = true
                  <-> res_companies r <> [] \/ res_disposalSites r <> []).
  { rewrite Hhas, orb_true_iff, !length_pos_iff. reflexivity. }
  assert (Hfalse : res_hasRadiusResults r = false
                   <-> res_companies r = [] /\ res_disposalSites r = []).
  { rewrite Hhas, orb_false_iff.
    destruct (res_companies r), (res_disposalSites r); simpl;
      split; intros [H1 H2]; try discriminate; auto. }
  rewrite Hpc.
  split; [|split; [|split; [exact Htrue|split; [exact Hfalse|split;
    [exact Hperm|exact Hsites]]]]].
  - rewrite Htrue, Hsites, Hnonempty. reflexivity.
  - rewrite Hfalse, Hsites. split.
    + intros [Hc Hs]. split; [|exact Hs]. intros c Hin.
      destruct (otherThanPremium pc c) eqn:E; [|reflexivity].
      exfalso. apply (proj2 Hnonempty); eauto.
    + intros [Hall Hs]. split; [|exact Hs].
      destruct (res_companies r) as [|c rest] eqn:E; [reflexivity|].
      assert (Hne : c :: rest <> []) by discriminate.
      apply Hnonempty in Hne as (c' & Hin & Hc').
      rewrite (Hall c' Hin) in Hc'. discriminate.
Qed.

(** The company of the landing page is the only radius match: the flag is
    false and [companies] is empty. *)
Lemma hasRadiusResults_iff_witness :
  exists t r,
    search (Sample.env Sample.soloDb) (Sample.request (Some (Num 50)))
    = (t, Respond 200 (SearchJson r))
    /\ getCompaniesByRadius (companies Sample.soloDb) (latOf r) (lngOf r)
                            (res_radius r) (Some "Indianapolis, IN"%string)
       = [Sample.inserv]
    /\ premiumCompanyOf r = Some Sample.inserv
    /\ res_hasRadiusResults r = false.
Proof.
  eexists. eexists. split; [exact sample_solo_run|].
  assert (Hm : getCompaniesByRadius [Sample.inserv] (Num Sample.centerLat)
                 (Num Sample.centerLng) (Num 50) (Some "Indianapolis, IN"%string)
               = [Sample.inserv]).
  { unfold getCompaniesByRadius. apply filter_all. intros c [<-|[]].
    apply companyMatches_at_center; [reflexivity|reflexivity|lra]. }
  split; [exact Hm|]. split; [reflexivity|].
  destruct (@hasRadiusResults_iff _ _ _ _ sample_solo_run) as (_ & Hfalse & _).
  apply Hfalse. split; [|reflexivity].
  intros c Hin.
  change (In c (getCompaniesByRadius [Sample.inserv] (Num Sample.centerLat)
                  (Num Sample.centerLng) (Num 50) (Some "Indianapolis, IN"%string)))
    in Hin.
  rewrite Hm in Hin. destruct Hin as [<-|[]]. reflexivity.
Defined.

(** ** Premium resolution *)

(** C8: a search whose address validates and geocodes is answered with 200
    whatever the landing pages are, and the premium provider of a category
    is null when the state code is null (or empty), when the state has no
    landing page of that category, when the page is not active, and when
    the id the page is bound to is not the id of an existing provider. *)
Theorem premium_null_cases :
  forall env body address data result rest,
    body_address body = Some address ->
    truthy_string address = true ->
    truthy_opt truthy_string (GOOGLE_API_KEY env) = true ->
    geocoder env address = Some data ->
    geo_status data = "OK"%string ->
    geo_results data = Some (result :: rest) ->
    exists t r,
      search env body = (t, Respond 200 (SearchJson r))
      /\ (truthy_opt truthy_string (stateCodeOf result) = false ->
          premiumCompanyOf r = None /\ premiumDisposalSiteOf r = None
          /\ forall c, In c t ->
               match c with
               | FetchGeocode _
               | CallGetCompaniesByRadius _ _ _ _
               | CallGetDisposalSitesByRadius _ _ _ _ => True
               | _ => False
               end)
      /\ (forall code,
            stateCodeOf result = Some code ->
            truthy_string code = true ->
            (getStateLandingPageByStateCode (db env) code = None ->
             premiumCompanyOf r = None)
            /\ (forall page,
                  getStateLandingPageByStateCode (db env) code = Some page ->
                  page_active page <> "yes"%string ->
                  premiumCompanyOf r = None)
            /\ (forall page id,
                  getStateLandingPageByStateCode (db env) code = Some page ->
                  page_companyId page = Some id ->
                  getCompany (db env) id = None ->
                  premiumCompanyOf r = None)
            /\ (getDisposalSiteLandingPageByStateCode (db env) code = None ->
                premiumDisposalSiteOf r = None)
            /\ (forall page,
                  getDisposalSiteLandingPageByStateCode (db env) code = Some page ->
                  dpage_active page <> "yes"%string ->
                  premiumDisposalSiteOf r = None)
            /\ (forall page id,
                  getDisposalSiteLandingPageByStateCode (db env) code = Some page ->
                  dpage_disposalSiteId page = Some id ->
                  getDisposalSite (db env) id = None ->
                  premiumDisposalSiteOf r = None)).
Proof.
  intros env body address data result rest Ha Hta Hkey Hg Hst Hres.
  destruct (search_ok env body Ha Hta Hkey Hg Hst Hres)
    as (t3 & page & pc & dpage & ps & H3 & Hs).
  eexists. eexists. split; [exact Hs|].
  erewrite premiumCompanyOf_assemble, premiumDisposalSiteOf_assemble by exact H3.
  apply resolvePremium_inv in H3.
  destruct H3 as [(Hfalse & Ht3 & _ & Hpc & _ & Hps)
                 |(code & t1 & t2 & Hcode & Htc & Hpage & Hdpage & H1 & H2 & _)].
  - split.
    + intros _. repeat split; auto. subst t3. simpl.
      intros c [Hc|[Hc|[Hc|[]]]]; subst c; exact I.
    + intros code Hcode Htc. rewrite Hcode in Hfalse. simpl in Hfalse. congruence.
  - split.
    + rewrite Hcode. simpl. congruence.
    + intros code' Hcode' _. rewrite Hcode in Hcode'. inversion Hcode'; subst code'.
      rewrite <- Hpage, <- Hdpage.
      apply resolvePremiumCompany_inv in H1.
      apply resolvePremiumDisposalSite_inv in H2.
      repeat split.
      * intros Hnone.
        destruct H1 as [(p & id & Hp & _)|(Hn & _)]; [congruence|exact Hn].
      * intros p0 Hp0 Hact.
        destruct H1 as [(p & id & Hp & Hy & _)|(Hn & _)]; [congruence|exact Hn].
      * intros p0 id0 Hp0 Hid0 Hget.
        destruct H1 as [(p & id & Hp & _ & Hid & _ & Hpc & _)|(Hn & _)];
          [congruence|exact Hn].
      * intros Hnone.
        destruct H2 as [(p & id & Hp & _)|(Hn & _)]; [congruence|exact Hn].
      * intros p0 Hp0 Hact.
        destruct H2 as [(p & id & Hp & Hy & _)|(Hn & _)]; [congruence|exact Hn].
      * intros p0 id0 Hp0 Hid0 Hget.
        destruct H2 as [(p & id & Hp & _ & Hid & _ & Hps & _)|(Hn & _)];
          [congruence|exact Hn].
Qed.

Lemma premium_null_cases_witness :
  exists t r,
    search (Sample.env Sample.danglingDb) (Sample.request None)
    = (t, Respond 200 (SearchJson r))
    /\ premiumCompanyOf r = None.
Proof.
  destruct (@premium_null_cases (Sample.env Sample.danglingDb) (Sample.request None)
              "Indianapolis, IN"
              {| geo_status := "OK"; geo_results := Some [Sample.indianapolis] |}
              Sample.indianapolis [] eq_refl eq_refl eq_refl eq_refl eq_refl eq_refl)
    as (t & r & Hs & _ & Hcode).
  exists t, r. split; [exact Hs|].
  destruct (Hcode "IN"%string eq_refl eq_refl) as (_ & _ & H & _).
  exact (H Sample.indianaPage 42%Z eq_refl eq_refl eq_refl).
Defined.

(** ** The default radius *)

(** C9: a request whose body omits [radiusMiles] is searched with a radius
    of 50 miles: it is answered exactly as the same request with
    [radiusMiles = 50], it succeeds whenever its address validates and
    geocodes, both matchers are called with radius 50, and the response's
    [radius] field is 50. *)
Theorem default_radius_50 :
  forall env body,
    body_radiusMiles body = None ->
    search env body
    = search env {| body_address := body_address body;
                    body_radiusMiles := Some (Num 50) |}
    /\ (forall t r,
          search env body = (t, Respond 200 (SearchJson r)) ->
          res_radius r = Num 50
          /\ exists address,
               body_address body = Some address
               /\ In (CallGetCompaniesByRadius (latOf r) (lngOf r) (Num 50) address) t
               /\ In (CallGetDisposalSitesByRadius (latOf r) (lngOf r) (Num 50) address) t)
    /\ (forall address data result rest,
          body_address body = Some address ->
          truthy_string address = true ->
          truthy_opt truthy_string (GOOGLE_API_KEY env) = true ->
          geocoder env address = Some data ->
          geo_status data = "OK"%string ->
          geo_results data = Some (result :: rest) ->
          exists t r,
            search env body = (t, Respond 200 (SearchJson r))
            /\ res_radius r = Num 50).
Proof.
  intros env body Hnone.
  assert (Hrad : radiusOf body = Num 50) by (unfold radiusOf; now rewrite Hnone).
  split; [|split].
  - unfold search, searchHandler. rewrite Hrad. reflexivity.
  - intros t r H.
    destruct (search_200_assemble _ _ H)
      as (address & result & t3 & page & pc & dpage & ps & Ha & _ & _ & Ht & Hr).
    rewrite Hrad in Ht, Hr. split; [now rewrite Hr|].
    exists address. split; [exact Ha|].
    rewrite Hr, Ht. unfold latOf, lngOf, assemble; cbn [res_location fst snd].
    apply In_trace_radius.
  - intros address data result rest Ha Hta Hkey Hg Hst Hres.
    destruct (search_ok env body Ha Hta Hkey Hg Hst Hres)
      as (t3 & page & pc & dpage & ps & _ & Hs).
    eexists. eexists. split; [exact Hs|]. exact Hrad.
Qed.

Lemma default_radius_50_witness :
  body_radiusMiles (Sample.request None) = None
  /\ exists t r,
       search (Sample.env Sample.plainDb) (Sample.request None)
       = (t, Respond 200 (SearchJson r))
       /\ res_radius r = Num 50.
Proof.
  split; [reflexivity|].
  destruct (default_radius_50 (Sample.env Sample.plainDb) (Sample.request None) eq_refl)
    as (_ & _ & Hok).
  exact (Hok "Indianapolis, IN"%string
             {| geo_status := "OK"; geo_results := Some [Sample.indianapolis] |}
             Sample.indianapolis [] eq_refl eq_refl eq_refl eq_refl eq_refl eq_refl).
Defined.

(** ** Additional locations of disposal sites *)




(** * Further properties of the code *)

(** ** The Haversine distance *)

Lemma haversine_unit_mid (m d l : R) :
  (0 <= sin d * sin d + cos (m - d) * cos (m + d) * sin l * sin l <= 1)%R.
Proof.
  rewrite cos_minus, cos_plus.
  pose proof (sin2_cos2 m) as Hm. pose proof (sin2_cos2 d) as Hd.
  pose proof (sin2_cos2 l) as Hl. unfold Rsqr in *.
  set (sm := sin m) in *. set (cm := cos m) in *.
  set (sd := sin d) in *. set (cd := cos d) in *.
  set (sl := sin l) in *. set (cl := cos l) in *.
  assert (Hprod : ((cm * cd + sm * sd) * (cm * cd - sm * sd)
                   = 1 - sm * sm - sd * sd)%R) by nra.
  assert (H0 : (0 <= sl * sl <= 1)%R) by nra.
  assert (H1 : (0 <= sm * sm <= 1)%R) by nra.
  assert (H2 : (0 <= sd * sd <= 1)%R) by nra.
  replace (sd * sd + (cm * cd + sm * sd) * (cm * cd - sm * sd) * sl * sl)%R
    with (sd * sd * (1 - sl * sl) + (sl * sl) * (1 - sm * sm))%R
    by (rewrite Hprod; ring).
  split; nra.
Qed.

(** The quantity under the square roots lies between 0 and 1. *)
Lemma haversine_unit (p1 p2 l : R) :
  (0 <= sin ((p2 - p1) / 2) * sin ((p2 - p1) / 2)
        + cos p1 * cos p2 * sin l * sin l <= 1)%R.
Proof.
  pose proof (haversine_unit_mid ((p1 + p2) / 2) ((p2 - p1) / 2) l) as H.
  replace ((p1 + p2) / 2 - (p2 - p1) / 2)%R with p1 in H by lra.
  replace ((p1 + p2) / 2 + (p2 - p1) / 2)%R with p2 in H by lra.
  exact H.
Qed.


Lemma atan2_first_quadrant (y x : R) :
  (0 <= y)%R -> (0 <= x)%R -> (0 <= Math.atan2_R y x <= PI / 2)%R.
Proof.
  intros Hy Hx. unfold Math.atan2_R. pose proof PI_RGT_0 as Hpi.
  destruct (Rltb 0 x) eqn:E0.
  - apply Rltb_true in E0.
    assert (Hq : (0 <= y / x)%R).
    { apply Rmult_le_pos; [exact Hy|]. left. now apply Rinv_0_lt_compat. }
    pose proof (atan_bound (y / x)) as Hb.
    split; [|lra].
    destruct Hq as [Hq|Hq].
    + left. rewrite <- atan_0. now apply atan_increasing.
    + rewrite <- Hq, atan_0. lra.
  - apply Rltb_false in E0.
    assert (E1 : Rltb x 0 = false) by (apply Rltb_false; lra).
    rewrite E1. destruct (Rltb 0 y) eqn:E2; [lra|].
    assert (E3 : Rltb y 0 = false) by (apply Rltb_false; lra).
    rewrite E3. lra.
Qed.

(** The distance of two numeric points, spelled out. *)
Lemma calculateDistance_Num (a b c d : R) :
  exists A,
    (0 <= A <= 1)%R
    /\ A = (sin ((c - a) * (PI / 180) / 2) * sin ((c - a) * (PI / 180) / 2)
            + cos (a * (PI / 180)) * cos (c * (PI / 180))
              * sin ((d - b) * (PI / 180) / 2) * sin ((d - b) * (PI / 180) / 2))%R
    /\ calculateDistance (Num a) (Num b) (Num c) (Num d)
       = Num (3959 * (2 * Math.atan2_R (sqrt A) (sqrt (1 - A)))).
Proof.
  eexists. split; [|split; [reflexivity|]].
  - pose proof (haversine_unit (a * (PI / 180)) (c * (PI / 180))
                               ((d - b) * (PI / 180) / 2)) as H.
    replace ((c * (PI / 180) - a * (PI / 180)) / 2)%R
      with ((c - a) * (PI / 180) / 2)%R in H by lra.
    exact H.
  - pose proof (haversine_unit (a * (PI / 180)) (c * (PI / 180))
                               ((d - b) * (PI / 180) / 2)) as H.
    replace ((c * (PI / 180) - a * (PI / 180)) / 2)%R
      with ((c - a) * (PI / 180) / 2)%R in H by lra.
    unfold calculateDistance, toRadians, Math.atan2, Math.sqrt, Math.sin, Math.cos,
      Math.PI, add, sub, mul, div, lift1, lift2.
    match goal with
    | |- context [Rltb ?A 0] =>
        assert (E1 : Rltb A 0 = false) by (apply Rltb_false; lra);
        assert (E2 : Rltb (1 - A) 0 = false) by (apply Rltb_false; lra)
    end.
    rewrite E1, E2. reflexivity.
Qed.

Lemma calculateDistance_bounds (a b c d : R) :
  exists v,
    calculateDistance (Num a) (Num b) (Num c) (Num d) = Num v
    /\ (0 <= v <= 3959 * PI)%R.
Proof.
  destruct (calculateDistance_Num a b c d) as (A & HA & _ & ->).
  eexists. split; [reflexivity|].
  pose proof (atan2_first_quadrant (sqrt_pos A) (sqrt_pos (1 - A))). lra.
Qed.

(** X1: the distance does not depend on the order of the two points. *)
Theorem distance_symmetric :
  forall lat1 lng1 lat2 lng2 : number,
    calculateDistance lat1 lng1 lat2 lng2 = calculateDistance lat2 lng2 lat1 lng1.
Proof.
  intros [|a] [|b] [|c] [|d]; try reflexivity.
  destruct (calculateDistance_Num a b c d) as (A & _ & HA & ->).
  destruct (calculateDistance_Num c d a b) as (B & _ & HB & ->).
  assert (HAB : A = B).
  { rewrite HA, HB.
    replace ((a - c) * (PI / 180) / 2)%R with (- ((c - a) * (PI / 180) / 2))%R by lra.
    replace ((b - d) * (PI / 180) / 2)%R with (- ((d - b) * (PI / 180) / 2))%R by lra.
    rewrite !sin_neg. ring. }
  now rewrite HAB.
Qed.

(** X2: the distance is never negative and never more than half the
    circumference of the sphere: a result that is a number lies between 0
    and [3959 * PI] miles. *)
Theorem distance_range :
  forall (lat1 lng1 lat2 lng2 : number) (v : R),
    calculateDistance lat1 lng1 lat2 lng2 = Num v ->
    (0 <= v <= 3959 * PI)%R.
Proof.
  intros [|a] [|b] [|c] [|d] v H; try discriminate H.
  destruct (calculateDistance_bounds a b c d) as (w & Hw & Hb).
  rewrite Hw in H. inversion H; subst v. exact Hb.
Qed.

Lemma distance_range_witness :
  (0 <= 3959 * (16 * (PI / 180)) <= 3959 * PI)%R.
Proof.
  exact (@distance_range (Num Sample.centerLat) (Num Sample.centerLng)
           (Num (Sample.centerLat + 16)) (Num Sample.centerLng) _ (proj1 far_north)).
Defined.

(** X3: a coordinate that is [NaN] makes the distance [NaN], which is
    within no radius. *)
Theorem distance_NaN_absorbing :
  forall lat1 lng1 lat2 lng2 : number,
    lat1 = NaN \/ lng1 = NaN \/ lat2 = NaN \/ lng2 = NaN ->
    calculateDistance lat1 lng1 lat2 lng2 = NaN
    /\ forall r, lte (calculateDistance lat1 lng1 lat2 lng2) r = false.
Proof.
  intros lat1 lng1 lat2 lng2 H.
  assert (E : calculateDistance lat1 lng1 lat2 lng2 = NaN).
  { destruct H as [H|[H|[H|H]]]; subst;
      repeat match goal with n : number |- _ => destruct n end; reflexivity. }
  rewrite E. split; reflexivity.
Qed.

Lemma distance_NaN_absorbing_witness :
  calculateDistance (Num Sample.centerLat) NaN (Num Sample.centerLat) (Num Sample.centerLng)
  = NaN.
Proof.
  apply (@distance_NaN_absorbing (Num Sample.centerLat) NaN
           (Num Sample.centerLat) (Num Sample.centerLng)).
  right. left. reflexivity.
Defined.

(** X4: a numeric point is at distance 0 from itself. *)
Theorem distance_self_zero :
  forall lat lng : number,
    lat <> NaN -> lng <> NaN -> calculateDistance lat lng lat lng = Num 0.
Proof.
  intros lat lng Ha Hb.
  destruct lat as [|a]; [contradiction|].
  destruct lng as [|b]; [contradiction|].
  apply calculateDistance_same.
Qed.

Lemma distance_self_zero_witness :
  calculateDistance (Num Sample.centerLat) (Num Sample.centerLng)
                    (Num Sample.centerLat) (Num Sample.centerLng) = Num 0.
Proof. apply distance_self_zero; discriminate. Defined.

(** X5: two points on one meridian, [d] degrees of latitude apart with
    [0 <= d < 180], are [3959 * d * PI / 180] miles apart, wherever on the
    sphere the meridian segment starts. *)
Theorem distance_on_meridian :
  forall a b d : R,
    (0 <= d < 180)%R ->
    calculateDistance (Num a) (Num b) (Num (a + d)) (Num b)
    = Num (3959 * (d * (PI / 180)))
    /\ forall a' b',
         calculateDistance (Num a') (Num b') (Num (a' + d)) (Num b')
         = calculateDistance (Num a) (Num b) (Num (a + d)) (Num b).
Proof.
  intros a b d Hd. split.
  - now apply calculateDistance_meridian.
  - intros a' b'. now rewrite !calculateDistance_meridian.
Qed.

Lemma distance_on_meridian_witness :
  calculateDistance (Num Sample.centerLat) (Num Sample.centerLng)
                    (Num (Sample.centerLat + 16)) (Num Sample.centerLng)
  = Num (3959 * (16 * (PI / 180))).
Proof.
  assert (H : (0 <= 16 < 180)%R) by lra.
  exact (proj1 (distance_on_meridian Sample.centerLat Sample.centerLng H)).
Defined.


(** ** Edge cases of the matchers *)

(** A distance is within a radius only if the radius is a number that is
    not negative. *)
Lemma lte_distance_radius (lat1 lng1 lat2 lng2 r : number) :
  lte (calculateDistance lat1 lng1 lat2 lng2) r = true ->
  exists v, r = Num v /\ (0 <= v)%R.
Proof.
  destruct lat1 as [|a], lng1 as [|b], lat2 as [|c], lng2 as [|d];
    try (intros H; discriminate H).
  destruct (calculateDistance_bounds a b c d) as (v & -> & Hv).
  destruct r as [|w]; [discriminate|].
  intros H. apply lte_Num in H. exists w. split; [reflexivity|lra].
Qed.

Lemma lower_upper_ascii (c : ascii) : lower_ascii (upper_ascii c) = lower_ascii c.
Proof. destruct c as [[] [] [] [] [] [] [] []]; reflexivity. Qed.

Lemma upper_lower_ascii (c : ascii) : upper_ascii (lower_ascii c) = upper_ascii c.
Proof. destruct c as [[] [] [] [] [] [] [] []]; reflexivity. Qed.

Lemma upper_upper_ascii (c : ascii) : upper_ascii (upper_ascii c) = upper_ascii c.
Proof. destruct c as [[] [] [] [] [] [] [] []]; reflexivity. Qed.

Lemma toLowerCase_toUpperCase (s : string) : toLowerCase (toUpperCase s) = toLowerCase s.
Proof.
  induction s as [|c s IH]; simpl; [reflexivity|].
  unfold toLowerCase, toUpperCase in *. simpl. now rewrite lower_upper_ascii, IH.
Qed.

Lemma toUpperCase_toLowerCase (s : string) : toUpperCase (toLowerCase s) = toUpperCase s.
Proof.
  induction s as [|c s IH]; simpl; [reflexivity|].
  unfold toLowerCase, toUpperCase in *. simpl. now rewrite upper_lower_ascii, IH.
Qed.

Lemma toUpperCase_idempotent (s : string) : toUpperCase (toUpperCase s) = toUpperCase s.
Proof.
  induction s as [|c s IH]; simpl; [reflexivity|].
  unfold toUpperCase in *. simpl. now rewrite upper_upper_ascii, IH.
Qed.

Lemma truthy_string_map (f : ascii -> ascii) (s : string) :
  truthy_string (map_string f s) = truthy_string s.
Proof. destruct s; reflexivity. Qed.

(** X6: with a radius that is [NaN] or negative no company is matched,
    whatever the center, and a disposal site is matched only when the
    search text contains the city or address of one of its additional
    locations; a site whose entries are objects with string or absent city
    and address is then matched exactly in that case. *)
Theorem no_distance_match_without_radius :
  forall (r : number),
    (forall v, r = Num v -> (v < 0)%R) ->
    forall lat lng searchAddress,
      (forall allCompanies,
         getCompaniesByRadius allCompanies lat lng r searchAddress = [])
      /\ (forall allSites site,
            In site (getDisposalSitesByRadius allSites lat lng r searchAddress) ->
            In site allSites
            /\ additionalInText searchAddress (site_additionalLocations site))
      /\ (forall allSites site,
            textEntries (site_additionalLocations site) ->
            (In site (getDisposalSitesByRadius allSites lat lng r searchAddress)
             <-> In site allSites
                 /\ additionalInText searchAddress (site_additionalLocations site))).
Proof.
  intros r Hr lat lng searchAddress.
  assert (Hno : forall x1 x2, lte (calculateDistance lat lng x1 x2) r = true -> False).
  { intros x1 x2 H. apply lte_distance_radius in H as (v & Hv & Hpos).
    specialize (Hr v Hv). lra. }
  assert (Hsound : forall allSites site,
            In site (getDisposalSitesByRadius allSites lat lng r searchAddress) ->
            In site allSites
            /\ additionalInText searchAddress (site_additionalLocations site)).
  { intros all site. unfold getDisposalSitesByRadius. rewrite filter_In.
    intros [Hin H]. split; [exact Hin|].
    apply siteMatches_sound in H as [(a & b & _ & _ & H)|H]; [|exact H].
    exfalso. eapply Hno; eauto. }
  split; [|split].
  - intros all. unfold getCompaniesByRadius. apply filter_none. intros c _.
    destruct (companyMatches lat lng r c) eqn:E; [|reflexivity].
    exfalso. apply companyMatches_sound in E.
    destruct E as [(a & b & _ & _ & H)|(locs & loc & _ & _ & _ & _ & H)];
      eapply Hno; eauto.
  - exact Hsound.
  - intros all site Hok. split; [apply Hsound|].
    intros [Hin H]. unfold getDisposalSitesByRadius. apply filter_In.
    split; [exact Hin|]. now apply siteMatches_text.
Qed.

Lemma no_distance_match_without_radius_witness :
  getCompaniesByRadius [Sample.acme; Sample.inserv; Sample.badger]
    (Num Sample.centerLat) (Num Sample.centerLng) (Num (-5)) None = [].
Proof.
  assert (H : forall v, Num (-5) = Num v -> (v < 0)%R).
  { intros v Hv. inversion Hv. lra. }
  apply (no_distance_match_without_radius H).
Defined.

(** X7: with a numeric center and a radius of at least [3959 * PI] miles,
    every company and every disposal site whose primary coordinates parse
    to numbers, and whose distance from the center is a number, is
    matched. *)
Theorem all_located_providers_within_half_circumference :
  forall (lat lng v : R) searchAddress,
    (3959 * PI <= v)%R ->
    (forall allCompanies c a b d,
       In c allCompanies ->
       company_lat c = TextNumber a -> company_lng c = TextNumber b ->
       calculateDistance (Num lat) (Num lng) (Num a) (Num b) = Num d ->
       In c (getCompaniesByRadius allCompanies (Num lat) (Num lng) (Num v) searchAddress))
    /\ (forall allSites s a b d,
          In s allSites ->
          site_lat s = TextNumber a -> site_lng s = TextNumber b ->
          calculateDistance (Num lat) (Num lng) (Num a) (Num b) = Num d ->
          In s (getDisposalSitesByRadius allSites (Num lat) (Num lng) (Num v)
                                         searchAddress)).
Proof.
  intros lat lng v searchAddress Hv.
  assert (Hin : forall a b d,
            calculateDistance (Num lat) (Num lng) (Num a) (Num b) = Num d ->
            lte (calculateDistance (Num lat) (Num lng) (Num a) (Num b)) (Num v) = true).
  { intros a b d Hd. destruct (calculateDistance_bounds lat lng a b) as (w & Hw & Hb).
    rewrite Hw. apply lte_Num. lra. }
  split.
  - intros all c a b d Hc Ha Hb Hd. unfold getCompaniesByRadius. apply filter_In.
    split; [exact Hc|]. apply companyMatches_primary. exists a, b. eauto.
  - intros all s a b d Hs Ha Hb Hd. unfold getDisposalSitesByRadius. apply filter_In.
    split; [exact Hs|]. apply siteMatches_primary. exists a, b. eauto.
Qed.

Lemma all_located_providers_within_half_circumference_witness :
  In Sample.satellite
     (getCompaniesByRadius [Sample.acme; Sample.satellite]
        (Num Sample.centerLat) (Num Sample.centerLng) (Num (3959 * 4)) None).
Proof.
  assert (H : (3959 * PI <= 3959 * 4)%R) by (pose proof PI_4; lra).
  destruct (@all_located_providers_within_half_circumference
              Sample.centerLat Sample.centerLng (3959 * 4) None H) as [Hc _].
  apply (Hc _ Sample.satellite (Sample.centerLat + 16)%R Sample.centerLng
            (3959 * (16 * (PI / 180)))%R);
    [simpl; auto|reflexivity|reflexivity|exact (proj1 far_north)].
Defined.

(** X8: the text match of disposal sites does not depend on the case of
    the search text. *)
Theorem site_text_match_ignores_case :
  forall lat lng r text site,
    siteMatches lat lng r (Some (toUpperCase text)) site
    = siteMatches lat lng r (Some text) site
    /\ siteMatches lat lng r (Some (toLowerCase text)) site
       = siteMatches lat lng r (Some text) site.
Proof.
  intros. unfold siteMatches.
  rewrite toLowerCase_toUpperCase.
  assert (Hll : toLowerCase (toLowerCase text) = toLowerCase text).
  { rewrite <- (toLowerCase_toUpperCase (toLowerCase text)).
    now rewrite toUpperCase_toLowerCase, toLowerCase_toUpperCase. }
  rewrite Hll. unfold toUpperCase, toLowerCase. rewrite !truthy_string_map.
  split; reflexivity.
Qed.


(** ** The search handler: failures, state extraction, ordering *)

(** X9: a search with a valid address fails with 503 before any call when
    no API key is configured, with 500 when the geocoding request throws and
    with 400 when the geocoder answers anything but "OK" with at least one
    candidate; in the last two cases the geocoding request is the only call
    made. *)
Theorem search_error_responses :
  forall env body address,
    body_address body = Some address ->
    truthy_string address = true ->
    (truthy_opt truthy_string (GOOGLE_API_KEY env) = false ->
     search env body
     = ([], Respond 503 (ErrorJson "Google API key not configured" false)))
    /\ (truthy_opt truthy_string (GOOGLE_API_KEY env) = true ->
        geocoder env address = None ->
        search env body
        = ([FetchGeocode address],
           Respond 500 (ErrorJson "Failed to perform search" true)))
    /\ (forall data,
          truthy_opt truthy_string (GOOGLE_API_KEY env) = true ->
          geocoder env address = Some data ->
          geo_status data <> "OK"%string
          \/ geo_results data = None \/ geo_results data = Some [] ->
          search env body
          = ([FetchGeocode address],
             Respond 400 (ErrorJson "Unable to geocode address" false))).
Proof.
  intros env body address Ha Hta.
  unfold search, searchHandler. rewrite Ha, Hta.
  split; [|split].
  - intros Hk. rewrite Hk. reflexivity.
  - intros Hk Hg. rewrite Hk. unfold bind, call. rewrite Hg. reflexivity.
  - intros data Hk Hg Hbad. rewrite Hk. unfold bind, call. rewrite Hg.
    destruct (geo_status data =? "OK")%string eqn:Hs; [|reflexivity].
    apply String.eqb_eq in Hs.
    destruct Hbad as [Hbad|[Hbad|Hbad]]; [contradiction| |]; rewrite Hbad;
      reflexivity.
Qed.

Lemma search_error_responses_witness :
  search {| GOOGLE_API_KEY := None; geocoder := Sample.google; db := Sample.plainDb |}
         (Sample.request None)
  = ([], Respond 503 (ErrorJson "Google API key not configured" false)).
Proof.
  apply (search_error_responses
           {| GOOGLE_API_KEY := None; geocoder := Sample.google; db := Sample.plainDb |}
           (Sample.request None) eq_refl eq_refl).
  reflexivity.
Defined.

(** A branch of the handler that has sent its error response. *)
Ltac now_failed :=
  let H := fresh "H" in
  intros H _; inversion H; subst;
  repeat split; try (intros; discriminate); solve [eauto 10].

(** X10: a search that is not answered with 200 is answered with 400, 500
    or 503 and an error body; one answered with 503 has made no call at
    all, and one answered with 400 has made no call to the storage layer:
    its trace is empty or the one geocoding request. *)
Theorem search_rejection_touches_no_storage :
  forall env body t status b,
    search env body = (t, Respond status b) ->
    status <> 200%Z ->
    (status = 400%Z \/ status = 500%Z \/ status = 503%Z)
    /\ (exists error details, b = ErrorJson error details)
    /\ (status = 503%Z -> t = [])
    /\ (status = 400%Z ->
        t = [] \/ exists address, body_address body = Some address
                                  /\ t = [FetchGeocode address]).
Proof.
  intros env body t status b. unfold search, searchHandler.
  destruct (body_address body) as [address|]; [|now_failed].
  destruct (truthy_string address); [|now_failed].
  destruct (truthy_opt truthy_string (GOOGLE_API_KEY env)); [|now_failed].
  unfold bind at 1. unfold call at 1.
  destruct (geocoder env address) as [data|]; [|now_failed].
  destruct (geo_status data =? "OK")%string; [|now_failed].
  destruct (geo_results data) as [[|result rest]|]; [now_failed| |now_failed].
  destruct (resolvePremium_total (db env) (stateCodeOf result))
    as (t3 & page & pc & dpage & ps & H3).
  unfold bind at 1. rewrite H3. unfold bind, call, respond, run. simpl.
  intros H Hne. inversion H; subst. contradiction.
Qed.

Lemma search_rejection_touches_no_storage_witness :
  (400%Z = 400%Z \/ 400%Z = 500%Z \/ 400%Z = 503%Z)
  /\ (exists error details,
        ErrorJson "Unable to geocode address" false = ErrorJson error details)
  /\ (400%Z = 503%Z -> [FetchGeocode "Indianapolis, IN"] = [])
  /\ (400%Z = 400%Z ->
      [FetchGeocode "Indianapolis, IN"] = []
      \/ exists address,
           body_address (Sample.request None) = Some address
           /\ [FetchGeocode "Indianapolis, IN"] = [FetchGeocode address]).
Proof.
  assert (Hne : 400%Z <> 200%Z) by discriminate.
  exact (@search_rejection_touches_no_storage
           {| GOOGLE_API_KEY := Some "key"%string;
              geocoder := fun _ =>
                Some {| geo_status := "ZERO_RESULTS"; geo_results := Some [] |};
              db := Sample.premiumDb |}
           (Sample.request None) [FetchGeocode "Indianapolis, IN"] 400%Z
           (ErrorJson "Unable to geocode address" false) eq_refl Hne).
Defined.

(** X11: the state of a search is read off the first address component
    tagged [administrative_area_level_1]; components after it are not
    looked at, and without such a component there is no state. *)
Theorem findState_first_tagged :
  (forall before component after,
     (forall c, In c before -> isState (comp_types c) = false) ->
     isState (comp_types component) = true ->
     findState (before ++ component :: after)
     = (comp_short_name component, comp_long_name component))
  /\ (forall components,
        (forall c, In c components -> isState (comp_types c) = false) ->
        findState components = (None, None)).
Proof.
  split.
  - intros before component after Hb Hc.
    induction before as [|c before IH]; simpl.
    + now rewrite Hc.
    + rewrite (Hb c) by (left; reflexivity). apply IH.
      intros c' Hin. apply Hb. now right.
  - intros components H.
    induction components as [|c components IH]; simpl; [reflexivity|].
    rewrite (H c) by (left; reflexivity). apply IH.
    intros c' Hin. apply H. now right.
Qed.

Lemma findState_first_tagged_witness :
  findState (orEmpty (geo_address_components Sample.indianapolis))
  = (Some "IN"%string, Some "Indiana"%string).
Proof.
  apply (proj1 findState_first_tagged
           [ {| comp_types := ["locality"; "political"]%string;
                comp_short_name := Some "Indianapolis"%string;
                comp_long_name := Some "Indianapolis"%string |} ]
           {| comp_types := ["administrative_area_level_1"; "political"]%string;
              comp_short_name := Some "IN"%string;
              comp_long_name := Some "Indiana"%string |} []).
  - intros c [<-|[]]. reflexivity.
  - reflexivity.
Defined.

(** X12: only the first geocoding candidate is used: two geocoders whose
    answers for the address agree on the status and the first candidate
    give the same response and the same calls. *)
Theorem later_candidates_ignored :
  forall env env' body address status result rest rest',
    body_address body = Some address ->
    GOOGLE_API_KEY env' = GOOGLE_API_KEY env ->
    db env' = db env ->
    geocoder env address
    = Some {| geo_status := status; geo_results := Some (result :: rest) |} ->
    geocoder env' address
    = Some {| geo_status := status; geo_results := Some (result :: rest') |} ->
    search env' body = search env body.
Proof.
  intros env env' body address status result rest rest' Ha Hk Hd Hg Hg'.
  unfold search, searchHandler. rewrite Ha, Hk, Hd.
  destruct (truthy_string address); [|reflexivity].
  destruct (truthy_opt truthy_string (GOOGLE_API_KEY env)); [|reflexivity].
  unfold bind at 1 3. unfold call at 1 4. rewrite Hg, Hg'. reflexivity.
Qed.

Lemma later_candidates_ignored_witness :
  search {| GOOGLE_API_KEY := Some "key"%string;
            geocoder := fun _ =>
              Some {| geo_status := "OK";
                      geo_results := Some [Sample.indianapolis; Sample.indianapolis] |};
            db := Sample.premiumDb |}
         (Sample.request None)
  = search (Sample.env Sample.premiumDb) (Sample.request None).
Proof.
  apply (@later_candidates_ignored (Sample.env Sample.premiumDb) _ (Sample.request None)
           "Indianapolis, IN"%string "OK"%string Sample.indianapolis []
           [Sample.indianapolis]); reflexivity.
Defined.


(** ** Landing pages that resolve no premium company *)

Lemma occurrences_unique (l : list Company) (c : Company) :
  NoDup (map company_id l) -> In c l -> occurrences (company_id c) l = 1%nat.
Proof.
  unfold occurrences. induction l as [|x l IH]; simpl; [contradiction|].
  intros Hnd Hin. inversion Hnd as [|? ? Hnotin Hnd']; subst.
  destruct Hin as [->|Hin].
  - rewrite Z.eqb_refl. simpl. f_equal.
    assert (Hnone : filter (fun c0 => (company_id c0 =? company_id c)%Z) l = []).
    { apply filter_none. intros y Hy. apply Z.eqb_neq. intros E.
      apply Hnotin. rewrite <- E. now apply in_map. }
    now rewrite Hnone.
  - destruct (company_id x =? company_id c)%Z eqn:E.
    + apply Z.eqb_eq in E. exfalso. apply Hnotin. rewrite E. now apply in_map.
    + now apply IH.
Qed.

(** Filtering keeps company ids unique. *)
Lemma unique_ids_filter (keep : Company -> bool) (all : list Company) :
  NoDup (map company_id all) -> NoDup (map company_id (filter keep all)).
Proof.
  intros Hnd. induction all as [|c all IH]; simpl in *; [exact Hnd|].
  inversion Hnd as [|? ? Hnotin Hnd']; subst.
  destruct (keep c); simpl; [|now apply IH].
  constructor; [|now apply IH].
  intros Hin. apply Hnotin. apply in_map_iff in Hin as (c' & Hid & Hin).
  apply filter_In in Hin as [Hin _]. rewrite <- Hid. now apply in_map.
Qed.

(** X13: when the landing page of the state is bound to a company but the
    premium company was not resolved (the page is not active), the sort
    puts the bound company, if it is among the radius matches, at index 0
    of [companies]; with unique company ids it occurs there exactly once. *)
Theorem bound_company_listed_first :
  forall env body t r page id c,
    search env body = (t, Respond 200 (SearchJson r)) ->
    res_premiumLandingPage r = Some (page, None) ->
    page_companyId page = Some id ->
    id <> 0%Z ->
    In c (getCompaniesByRadius (companies (db env)) (latOf r) (lngOf r)
                               (res_radius r) (body_address body)) ->
    company_id c = id ->
    (exists c' rest, res_companies r = c' :: rest /\ company_id c' = id)
    /\ (NoDup (map company_id (companies (db env))) ->
        occurrences id (res_companies r) = 1%nat).
Proof.
  intros env body t r page id c H Hpage Hid Hnz Hin Hc.
  destruct (search_200_assemble _ _ H)
    as (address & result & t3 & page' & pc & dpage & ps & Ha & _ & H3 & _ & Hr).
  assert (Hcs : res_companies r
                = sort (fun a b => sortCompare (compareFn id a b))
                    (getCompaniesByRadius (companies (db env)) (latOf r) (lngOf r)
                       (res_radius r) (body_address body))).
  { rewrite Hr in Hpage |- *. unfold assemble in Hpage |- *. simpl in Hpage |- *.
    destruct page' as [p|]; [|discriminate]. inversion Hpage; subst p pc.
    rewrite Ha. unfold latOf, lngOf, prioritize, separatePremium. simpl.
    rewrite Hid. simpl.
    assert (Hz : (id =? 0)%Z = false) by now apply Z.eqb_neq.
    now rewrite Hz. }
  rewrite Hcs. split.
  - eapply bound_company_first; eauto.
  - intros Hnd.
    rewrite (occurrences_Permutation _ (sort_Permutation _ _)).
    rewrite <- Hc. apply occurrences_unique; [|exact Hin].
    unfold getCompaniesByRadius. now apply unique_ids_filter.
Qed.

Lemma sample_inactive_run :
  search (Sample.env Sample2.inactiveDb) (Sample.request (Some (Num 50)))
  = ([FetchGeocode "Indianapolis, IN"; CallGetStateLandingPage "IN";
      CallGetDisposalSiteLandingPage "IN";
      CallGetCompaniesByRadius (Num Sample.centerLat) (Num Sample.centerLng)
                               (Num 50) "Indianapolis, IN";
      CallGetDisposalSitesByRadius (Num Sample.centerLat) (Num Sample.centerLng)
                                   (Num 50) "Indianapolis, IN"],
     Respond 200 (SearchJson
       (assemble Sample.indianapolis (Num 50) (Some "IN"%string) (Some "Indiana"%string)
                 (Some Sample2.inactivePage) None None None
                 [Sample.acme; Sample.inserv; Sample.badger] []))).
Proof.
  assert (H50 : (0 <= 50)%R) by lra.
  exact (@sample_search Sample2.inactiveDb (Some (Num 50)) 50 _ _ _ _ _
           eq_refl eq_refl eq_refl H50 eq_refl).
Qed.

Lemma bound_company_listed_first_witness :
  exists t r,
    search (Sample.env Sample2.inactiveDb) (Sample.request (Some (Num 50)))
    = (t, Respond 200 (SearchJson r))
    /\ (exists c' rest, res_companies r = c' :: rest /\ company_id c' = 42%Z)
    /\ occurrences 42 (res_companies r) = 1%nat.
Proof.
  eexists. eexists. split; [exact sample_inactive_run|].
  assert (Hnz : 42%Z <> 0%Z) by discriminate.
  assert (Hin : In Sample.inserv
                   (getCompaniesByRadius [Sample.acme; Sample.inserv; Sample.badger]
                      (Num Sample.centerLat) (Num Sample.centerLng) (Num 50)
                      (Some "Indianapolis, IN"%string))).
  { rewrite sample_companies_in_radius by lra. simpl. auto. }
  destruct (@bound_company_listed_first _ _ _ _ Sample2.inactivePage 42%Z Sample.inserv
              sample_inactive_run eq_refl eq_refl Hnz Hin eq_refl) as [Hfirst Honce].
  split; [exact Hfirst|]. apply Honce.
  repeat constructor; simpl; intuition discriminate.
Defined.

(** X14: the landing page of a state is looked up by the upper-cased code,
    so the case of the code asked for does not matter, and a page whose
    stored code is not in upper case is never found. *)
Theorem landing_page_lookup_case :
  forall db code,
    getStateLandingPageByStateCode db (toLowerCase code)
    = getStateLandingPageByStateCode db code
    /\ getStateLandingPageByStateCode db (toUpperCase code)
       = getStateLandingPageByStateCode db code
    /\ getDisposalSiteLandingPageByStateCode db (toLowerCase code)
       = getDisposalSiteLandingPageByStateCode db code
    /\ (forall page,
          getStateLandingPageByStateCode db code = Some page ->
          In page (stateLandingPages db)
          /\ page_stateCode page = toUpperCase code
          /\ toUpperCase (page_stateCode page) = page_stateCode page)
    /\ (forall page,
          getDisposalSiteLandingPageByStateCode db code = Some page ->
          In page (disposalSiteLandingPages db)
          /\ dpage_stateCode page = toUpperCase code
          /\ toUpperCase (dpage_stateCode page) = dpage_stateCode page).
Proof.
  intros db code.
  unfold getStateLandingPageByStateCode, getDisposalSiteLandingPageByStateCode.
  rewrite toUpperCase_toLowerCase, toUpperCase_idempotent.
  repeat split; try reflexivity.
  - apply find_some in H as [H _]. exact H.
  - apply find_some in H as [_ H]. now apply String.eqb_eq.
  - apply find_some in H as [_ H]. apply String.eqb_eq in H.
    rewrite H. apply toUpperCase_idempotent.
  - apply find_some in H as [H _]. exact H.
  - apply find_some in H as [_ H]. now apply String.eqb_eq.
  - apply find_some in H as [_ H]. apply String.eqb_eq in H.
    rewrite H. apply toUpperCase_idempotent.
Qed.

Lemma landing_page_lookup_case_witness :
  getStateLandingPageByStateCode Sample.premiumDb "in" = Some Sample.indianaPage
  /\ page_stateCode Sample.indianaPage = toUpperCase "in".
Proof.
  destruct (landing_page_lookup_case Sample.premiumDb "in") as (_ & _ & _ & H & _).
  split; [reflexivity|].
  exact (proj1 (proj2 (H Sample.indianaPage eq_refl))).
Defined.

(** ** [POST /api/geocode] *)

(** X15: the geocode route rejects a request before geocoding exactly when
    the search does, with the same status and message; it passes the
    geocoder's answer on whatever its status, after exactly one request;
    and when that request throws it answers 500 "Failed to geocode
    address" with the details of the error. *)
Theorem geocodeRoute_agrees_with_search :
  forall env address radius,
    (forall status error details,
       geocodeRoute env address = ([], GeocodeError status error details)
       <-> search env {| body_address := address; body_radiusMiles := radius |}
           = ([], Respond status (ErrorJson error details)))
    /\ (forall t data,
          geocodeRoute env address = (t, GeocodeJson data)
          <-> exists a, address = Some a /\ truthy_string a = true
                        /\ truthy_opt truthy_string (GOOGLE_API_KEY env) = true
                        /\ geocoder env a = Some data
                        /\ t = [FetchGeocode a])
    /\ (forall a,
          address = Some a -> truthy_string a = true ->
          truthy_opt truthy_string (GOOGLE_API_KEY env) = true ->
          geocoder env a = None ->
          geocodeRoute env address
          = ([FetchGeocode a], GeocodeError 500 "Failed to geocode address" true)).
Proof.
  intros env address radius. split; [|split].
  - intros status error details.
    unfold geocodeRoute, search, searchHandler. cbn [body_address].
    destruct address as [a|];
      [|split; intros H; inversion H; subst; reflexivity].
    destruct (truthy_string a);
      [|split; intros H; inversion H; subst; reflexivity].
    destruct (truthy_opt truthy_string (GOOGLE_API_KEY env));
      [|split; intros H; inversion H; subst; reflexivity].
    unfold bind at 1. unfold call at 1.
    destruct (geocoder env a) as [data|]; [|split; intros H; inversion H].
    split; [intros H; inversion H|].
    destruct (geo_status data =? "OK")%string; [|intros H; inversion H].
    destruct (geo_results data) as [[|result rest]|];
      [intros H; inversion H| |intros H; inversion H].
    destruct (resolvePremium_total (db env) (stateCodeOf result))
      as (t3 & page & pc & dpage & ps & H3).
    unfold bind at 1. rewrite H3. unfold bind, call, respond, run. simpl.
    intros H. inversion H.
  - intros t data. unfold geocodeRoute. split.
    + destruct address as [a|]; [|intros H; inversion H].
      destruct (truthy_string a) eqn:Ha; [|intros H; inversion H].
      destruct (truthy_opt truthy_string (GOOGLE_API_KEY env)) eqn:Hk;
        [|intros H; inversion H].
      destruct (geocoder env a) as [d|] eqn:Hg; intros H; inversion H; subst.
      exists a. auto.
    + intros (a & -> & Ha & Hk & Hg & ->). now rewrite Ha, Hk, Hg.
  - intros a -> Ha Hk Hg. unfold geocodeRoute. now rewrite Ha, Hk, Hg.
Qed.

Lemma geocodeRoute_agrees_with_search_witness :
  geocodeRoute (Sample.env Sample.plainDb) None
  = ([], GeocodeError 400 "Address is required" false)
  /\ geocodeRoute {| GOOGLE_API_KEY := Some "key"%string;
                     geocoder := fun _ => None;
                     db := Sample.plainDb |}
                  (Some "Indianapolis, IN"%string)
     = ([FetchGeocode "Indianapolis, IN"],
        GeocodeError 500 "Failed to geocode address" true).
Proof.
  split.
  - apply (proj1 (geocodeRoute_agrees_with_search (Sample.env Sample.plainDb) None None)).
    reflexivity.
  - apply (proj2 (proj2 (geocodeRoute_agrees_with_search
                           {| GOOGLE_API_KEY := Some "key"%string;
                              geocoder := fun _ => None;
                              db := Sample.plainDb |}
                           (Some "Indianapolis, IN"%string) None)));
      reflexivity.
Defined.


(** ** Admin authentication *)

(** X16: without a configured [ADMIN_API_KEY] (unset or empty) nothing gets
    through: both middlewares answer 500 for every request, and the login
    answers 500 and leaves the session as it is. *)
Theorem admin_fails_closed :
  forall key req password session,
    truthy_opt truthy_string key = false ->
    isAdmin key req = Reject 500 "Admin functionality is not configured"
    /\ requireAdmin key req = Reject 500 "Admin functionality is not configured"
    /\ adminLogin key password session = (session, 500%Z).
Proof.
  intros key req password session Hk.
  unfold isAdmin, requireAdmin, adminLogin. rewrite Hk.
  destruct key as [k|]; simpl in Hk; [rewrite Hk|]; auto.
Qed.

Lemma admin_fails_closed_witness :
  isAdmin (Some ""%string)
          {| header_x_admin_api_key := Some ""%string; session_isAdmin := true |}
  = Reject 500 "Admin functionality is not configured".
Proof.
  apply (admin_fails_closed (Some ""%string)
           {| header_x_admin_api_key := Some ""%string; session_isAdmin := true |}
           None true).
  reflexivity.
Defined.

(** X17: [isAdmin] lets a request through exactly when the key is
    configured and the header carries it; [requireAdmin] exactly when the
    key is configured and the session is an admin session or the header
    carries the key. *)
Theorem admin_middleware_accepts :
  forall key req,
    (isAdmin key req = Next
     <-> exists k, key = Some k /\ k <> EmptyString
                   /\ header_x_admin_api_key req = Some k)
    /\ (requireAdmin key req = Next
        <-> exists k, key = Some k /\ k <> EmptyString
                      /\ (session_isAdmin req = true
                          \/ header_x_admin_api_key req = Some k)).
Proof.
  intros key req. unfold isAdmin, requireAdmin. split; split.
  - destruct key as [k|]; [|discriminate].
    destruct (truthy_string k) eqn:Hk; [|discriminate].
    destruct (header_x_admin_api_key req) as [h|]; [|discriminate].
    destruct (truthy_string h); [|discriminate].
    destruct (h =? k)%string eqn:E; [|discriminate].
    intros _. apply String.eqb_eq in E. subst h.
    exists k. repeat split; auto. now apply truthy_string_iff.
  - intros (k & -> & Hk & ->). apply truthy_string_iff in Hk.
    now rewrite Hk, String.eqb_refl.
  - destruct key as [k|]; [|discriminate].
    destruct (truthy_string k) eqn:Hk; [|discriminate].
    apply truthy_string_iff in Hk.
    destruct (session_isAdmin req); [intros _; exists k; auto|].
    destruct (header_x_admin_api_key req) as [h|]; [|discriminate].
    destruct (truthy_string h); [|discriminate]. simpl.
    destruct (h =? k)%string eqn:E; [|discriminate].
    intros _. apply String.eqb_eq in E. subst h. exists k. auto.
  - intros (k & -> & Hk & H). apply truthy_string_iff in Hk. rewrite Hk.
    destruct (session_isAdmin req); [reflexivity|].
    destruct H as [H|H]; [discriminate|]. now rewrite H, Hk, String.eqb_refl.
Qed.

Lemma admin_middleware_accepts_witness :
  isAdmin (Some "secret"%string)
          {| header_x_admin_api_key := Some "secret"%string; session_isAdmin := false |}
  = Next.
Proof.
  apply (proj1 (admin_middleware_accepts (Some "secret"%string)
                  {| header_x_admin_api_key := Some "secret"%string;
                     session_isAdmin := false |})).
  exists "secret"%string. repeat split. discriminate.
Defined.

(** X18: whatever passes [isAdmin] passes [requireAdmin]; an admin session
    without the header passes [requireAdmin] and [isAdminAuthenticated] but
    is turned away by [isAdmin] with 401. *)
Theorem admin_middleware_compared :
  forall key req,
    (isAdmin key req = Next -> requireAdmin key req = Next)
    /\ (truthy_opt truthy_string key = true ->
        session_isAdmin req = true ->
        header_x_admin_api_key req = None ->
        requireAdmin key req = Next
        /\ isAdminAuthenticated req = Next
        /\ isAdmin key req = Reject 401 "Admin API key required").
Proof.
  intros key req. split.
  - unfold isAdmin, requireAdmin.
    destruct key as [k|]; [|discriminate].
    destruct (truthy_string k); [|discriminate].
    destruct (header_x_admin_api_key req) as [h|]; [|discriminate].
    destruct (truthy_string h); [|discriminate].
    destruct (h =? k)%string; [|discriminate].
    intros _. now destruct (session_isAdmin req).
  - intros Hk Hs Hh. unfold requireAdmin, isAdminAuthenticated, isAdmin.
    destruct key as [k|]; [|discriminate]. simpl in Hk.
    now rewrite Hk, Hs, Hh.
Qed.

Lemma admin_middleware_compared_witness :
  requireAdmin (Some "secret"%string)
               {| header_x_admin_api_key := None; session_isAdmin := true |} = Next
  /\ isAdmin (Some "secret"%string)
             {| header_x_admin_api_key := None; session_isAdmin := true |}
     = Reject 401 "Admin API key required".
Proof.
  destruct (proj2 (admin_middleware_compared (Some "secret"%string)
                     {| header_x_admin_api_key := None; session_isAdmin := true |})
                  eq_refl eq_refl eq_refl) as (H1 & _ & H2).
  split; [exact H1|exact H2].
Defined.




(** ** The public API *)

Import PublicApi.

Lemma byTier_In tier (all : list CompanyRow) row :
  In row (byTier tier all)
  <-> In row all
      /\ (forall t, tier = Some t -> t <> EmptyString ->
                    company_tier (row_company row) = t).
Proof.
  unfold byTier. destruct tier as [t|].
  - destruct (truthy_string t) eqn:Ht.
    + rewrite filter_In, String.eqb_eq. split.
      * intros [Hin E]. split; [exact Hin|]. intros t' Ht' _.
        inversion Ht'; subst t'. exact E.
      * intros [Hin H]. split; [exact Hin|]. apply H; [reflexivity|].
        now apply truthy_string_iff.
    + split; [|tauto]. intros Hin. split; [exact Hin|].
      intros t' Ht' Hne. inversion Ht'; subst t'.
      apply truthy_string_iff in Hne. congruence.
  - split; [|tauto]. intros Hin. split; [exact Hin|]. discriminate.
Qed.

Lemma byState_In {A} (address : A -> option string) state (all : list A) row :
  In row (byState address state all)
  <-> In row all
      /\ (forall s, state = Some s -> s <> EmptyString ->
                    exists a, address row = Some a
                              /\ includes (toLowerCase a) (toLowerCase s) = true).
Proof.
  unfold byState. destruct state as [s|].
  - destruct (truthy_string s) eqn:Hs.
    + rewrite filter_In. unfold addressHas. split.
      * intros [Hin E]. split; [exact Hin|]. intros s' Hs' _. inversion Hs'; subst s'.
        destruct (address row) as [a|]; [|discriminate]. eauto.
      * intros [Hin H]. split; [exact Hin|].
        destruct (H s eq_refl) as (a & -> & E); [now apply truthy_string_iff|exact E].
    + split; [|tauto]. intros Hin. split; [exact Hin|].
      intros s' Hs' Hne. inversion Hs'; subst s'.
      apply truthy_string_iff in Hne. congruence.
  - split; [|tauto]. intros Hin. split; [exact Hin|]. discriminate.
Qed.

Lemma byLimit_incl {A} limit (data : list A) x : In x (byLimit limit data) -> In x data.
Proof.
  unfold byLimit. destruct (limitOf limit) as [n|]; [|auto].
  intros H. rewrite <- (firstn_skipn n data). apply in_or_app. now left.
Qed.

(** X20: every company the public API returns is the normal form of a
    stored company that passes the [tier] filter (equal tier) and the
    [state] filter (the lower-cased address contains the lower-cased
    state); without an effective [limit] every such company is returned;
    [count] is the number of entries returned.  The same holds for disposal
    sites and their [state] filter. *)
Theorem public_api_filters :
  forall tier state limit,
    (forall all,
       fst (publicCompanies all tier state limit)
       = List.length (snd (publicCompanies all tier state limit))
       /\ (forall p,
             In p (snd (publicCompanies all tier state limit)) ->
             exists row,
               In row all /\ p = normalizeCompany row
               /\ (forall t, tier = Some t -> t <> EmptyString ->
                             company_tier (row_company row) = t)
               /\ (forall s, state = Some s -> s <> EmptyString ->
                             exists a, row_address row = Some a
                                       /\ includes (toLowerCase a) (toLowerCase s) = true))
       /\ (limitOf limit = None ->
           forall row,
             In row all ->
             (forall t, tier = Some t -> t <> EmptyString ->
                        company_tier (row_company row) = t) ->
             (forall s, state = Some s -> s <> EmptyString ->
                        exists a, row_address row = Some a
                                  /\ includes (toLowerCase a) (toLowerCase s) = true) ->
             In (normalizeCompany row) (snd (publicCompanies all tier state limit))))
    /\ (forall all,
          fst (publicDisposalSites all state limit)
          = List.length (snd (publicDisposalSites all state limit))
          /\ (forall p,
                In p (snd (publicDisposalSites all state limit)) ->
                exists row,
                  In row all /\ p = normalizeSite row
                  /\ (forall s, state = Some s -> s <> EmptyString ->
                                exists a, row_site_address row = Some a
                                          /\ includes (toLowerCase a) (toLowerCase s)
                                             = true))
          /\ (limitOf limit = None ->
              forall row,
                In row all ->
                (forall s, state = Some s -> s <> EmptyString ->
                           exists a, row_site_address row = Some a
                                     /\ includes (toLowerCase a) (toLowerCase s)
                                        = true) ->
                In (normalizeSite row) (snd (publicDisposalSites all state limit)))).
Proof.
  intros tier state limit. split; intros all; unfold publicCompanies, publicDisposalSites;
    cbn [fst snd]; (split; [reflexivity|]); split.
  - intros p Hp. apply in_map_iff in Hp as (row & <- & Hin).
    apply byLimit_incl in Hin. apply byState_In in Hin as [Hin Hs].
    apply byTier_In in Hin as [Hin Ht]. exists row. auto.
  - intros Hl row Hin Ht Hs. apply in_map. unfold byLimit. rewrite Hl.
    apply byState_In. split; [|exact Hs]. apply byTier_In. auto.
  - intros p Hp. apply in_map_iff in Hp as (row & <- & Hin).
    apply byLimit_incl in Hin. apply byState_In in Hin as [Hin Hs].
    exists row. auto.
  - intros Hl row Hin Hs. apply in_map. unfold byLimit. rewrite Hl.
    apply byState_In. auto.
Qed.

Lemma public_api_filters_witness :
  snd (publicCompanies [Sample2.acmeRow; Sample2.inservRow; Sample2.badgerRow]
                       (Some "premium"%string) (Some "in"%string) None)
  = [normalizeCompany Sample2.inservRow]
  /\ In (normalizeCompany Sample2.inservRow)
        (snd (publicCompanies [Sample2.acmeRow; Sample2.inservRow; Sample2.badgerRow]
                              (Some "premium"%string) (Some "in"%string) None)).
Proof.
  split; [reflexivity|].
  destruct (proj1 (public_api_filters (Some "premium"%string) (Some "in"%string) None)
                  [Sample2.acmeRow; Sample2.inservRow; Sample2.badgerRow])
    as (_ & _ & Hall).
  apply Hall; [reflexivity|simpl; auto| |].
  - intros t Ht _. now inversion Ht.
  - intros s Hs _. inversion Hs; subst s.
    exists "500 Meridian St, Indianapolis, IN 46204"%string. split; reflexivity.
Defined.

(** X21: a [limit] that parses to a positive integer [n] caps the answer at
    the first [n] entries of the unlimited answer, in the same order, so
    [count] is the smaller of [n] and the unlimited count; a [limit] that
    is empty, does not parse or is not positive is ignored. *)
Theorem public_api_limit :
  forall (all : list CompanyRow) tier state limit,
    (forall z,
       parseInt limit = Some z -> (0 < z)%Z -> limit <> EmptyString ->
       snd (publicCompanies all tier state (Some limit))
       = firstn (Z.to_nat z) (snd (publicCompanies all tier state None))
       /\ fst (publicCompanies all tier state (Some limit))
          = Nat.min (Z.to_nat z) (fst (publicCompanies all tier state None)))
    /\ (limit = EmptyString \/ parseInt limit = None
        \/ (exists z, parseInt limit = Some z /\ (z <= 0)%Z) ->
        publicCompanies all tier state (Some limit)
        = publicCompanies all tier state None).
Proof.
  intros all tier state limit. unfold publicCompanies, byLimit. cbn [fst snd]. split.
  - intros z Hz Hpos Hne. unfold limitOf.
    apply truthy_string_iff in Hne. rewrite Hne, Hz.
    apply Z.ltb_lt in Hpos. rewrite Hpos.
    rewrite <- firstn_map. split; [reflexivity|].
    now rewrite length_firstn.
  - intros H. unfold limitOf.
    destruct (truthy_string limit) eqn:Ht; [|reflexivity].
    destruct H as [->|[->|(z & -> & Hz)]]; [discriminate|reflexivity|].
    apply Z.ltb_ge in Hz. now rewrite Hz.
Qed.

Lemma public_api_limit_witness :
  parseInt "2 per page" = Some 2%Z
  /\ parseInt "-3" = Some (-3)%Z
  /\ parseInt "all" = None
  /\ forall all tier state,
       fst (publicCompanies all tier state (Some "2 per page"%string))
       = Nat.min 2 (fst (publicCompanies all tier state None))
       /\ publicCompanies all tier state (Some "-3"%string)
          = publicCompanies all tier state None.
Proof.
  split; [reflexivity|]. split; [reflexivity|]. split; [reflexivity|].
  intros all tier state. split.
  - assert (Hpos : (0 < 2)%Z) by lia.
    assert (Hne : "2 per page"%string <> EmptyString) by discriminate.
    exact (proj2 (proj1 (public_api_limit all tier state "2 per page"%string)
                        2%Z eq_refl Hpos Hne)).
  - apply (proj2 (public_api_limit all tier state "-3"%string)).
    right. right. exists (-3)%Z. split; [reflexivity|lia].
Defined.


Lemma split_length (s : string) : List.length (split s) = S (countCommas s).
Proof.
  induction s as [|c s IH]; simpl; [reflexivity|].
  destruct (isComma c); simpl; [now rewrite IH|].
  destruct (split s) as [|piece pieces]; simpl in *; [discriminate|exact IH].
Qed.

Lemma split_no_comma (s e : string) : In e (split s) -> countCommas e = 0%nat.
Proof.
  revert e. induction s as [|c s IH]; simpl; intros e He.
  - destruct He as [<-|[]]. reflexivity.
  - destruct (isComma c) eqn:Ec.
    + destruct He as [<-|He]; [reflexivity|auto].
    + destruct (split s) as [|piece pieces].
      * destruct He as [<-|[]]. simpl. now rewrite Ec.
      * destruct He as [<-|He].
        -- simpl. rewrite Ec. simpl. apply IH. now left.
        -- apply IH. now right.
Qed.

Lemma trimStart_commas (s : string) : (countCommas (trimStart s) <= countCommas s)%nat.
Proof.
  induction s as [|c s IH]; simpl; [lia|].
  destruct (isWhite c); simpl; lia.
Qed.

Lemma trimEnd_commas (s : string) : (countCommas (trimEnd s) <= countCommas s)%nat.
Proof.
  induction s as [|c s IH]; simpl; [lia|].
  destruct (trimEnd s) as [|c' t]; simpl in *.
  - destruct (isWhite c); simpl; lia.
  - lia.
Qed.

Lemma trimStart_first (s : string) : whiteChar (firstChar (trimStart s)) = false.
Proof.
  induction s as [|c s IH]; simpl; [reflexivity|].
  destruct (isWhite c) eqn:E; [exact IH|]. simpl. exact E.
Qed.

Lemma trimEnd_first (s : string) :
  trimEnd s = EmptyString \/ firstChar (trimEnd s) = firstChar s.
Proof.
  destruct s as [|c s]; simpl; [now left|].
  destruct (trimEnd s); [|now right].
  destruct (isWhite c); [now left|now right].
Qed.

Lemma trimEnd_last (s : string) : whiteChar (lastChar (trimEnd s)) = false.
Proof.
  induction s as [|c s IH]; simpl; [reflexivity|].
  destruct (trimEnd s) as [|c' t] eqn:E.
  - destruct (isWhite c) eqn:Ec; simpl; [reflexivity|exact Ec].
  - change (lastChar (String c (String c' t)))
      with (match lastChar (String c' t) with Some x => Some x | None => Some c end).
    destruct (lastChar (String c' t)) as [x|] eqn:El; [exact IH|].
    simpl in El. destruct (lastChar t); discriminate.
Qed.

(** X22: the [services] and [materialsAccepted] lists of the public API: a
    null column gives the empty list, the empty string the one-element list
    of the empty string; otherwise there is one entry more than the column
    has commas, and no entry contains a comma or begins or ends with white
    space. *)
Theorem comma_list_entries :
  commaList None = []
  /\ commaList (Some EmptyString) = [EmptyString]
  /\ forall s,
       List.length (commaList (Some s)) = S (countCommas s)
       /\ forall e,
            In e (commaList (Some s)) ->
            countCommas e = 0%nat
            /\ whiteChar (firstChar e) = false
            /\ whiteChar (lastChar e) = false.
Proof.
  split; [reflexivity|]. split; [reflexivity|].
  intros s. unfold commaList. split.
  - now rewrite length_map, split_length.
  - intros e He. apply in_map_iff in He as (piece & <- & Hin).
    apply split_no_comma in Hin. unfold trim. split; [|split].
    + pose proof (trimEnd_commas (trimStart piece)).
      pose proof (trimStart_commas piece). lia.
    + destruct (trimEnd_first (trimStart piece)) as [E|E]; rewrite E;
        [reflexivity|apply trimStart_first].
    + apply trimEnd_last.
Qed.

Lemma comma_list_entries_witness :
  commaList (PublicApi.row_services Sample2.acmeRow)
  = ["Hydro Excavation"; "Daylighting"; "Potholing"]%string
  /\ List.length (commaList (PublicApi.row_services Sample2.acmeRow)) = 3%nat.
Proof.
  split; [reflexivity|].
  destruct comma_list_entries as (_ & _ & H).
  exact (proj1 (H "Hydro Excavation, Daylighting ,Potholing"%string)).
Defined.


(** ** Analytics *)

Lemma filter_true {A} (l : list A) : filter (fun _ => true) l = l.
Proof. induction l; simpl; congruence. Qed.

Lemma count_of_increment_same (key : string) (counts : Counts) :
  count_of key (increment key counts)
  = Some (match count_of key counts with Some n => n | None => 0 end + 1)%Z.
Proof.
  unfold count_of. induction counts as [|[k n] rest IH]; simpl.
  - now rewrite String.eqb_refl.
  - destruct (k =? key)%string eqn:E; simpl; rewrite E; [reflexivity|exact IH].
Qed.

Lemma count_of_increment_other (key key' : string) (counts : Counts) :
  key' <> key -> count_of key (increment key' counts) = count_of key counts.
Proof.
  intros Hne. unfold count_of. induction counts as [|[k n] rest IH]; simpl.
  - assert (E : (key' =? key)%string = false) by now apply String.eqb_neq.
    now rewrite E.
  - destruct (k =? key')%string eqn:E; simpl.
    + apply String.eqb_eq in E. subst k.
      assert (E' : (key' =? key)%string = false) by now apply String.eqb_neq.
      now rewrite E'.
    + destruct (k =? key)%string; [reflexivity|exact IH].
Qed.

Lemma sumCounts_increment (key : string) (counts : Counts) :
  sumCounts (increment key counts) = (sumCounts counts + 1)%Z.
Proof.
  induction counts as [|[k n] rest IH]; simpl; [reflexivity|].
  destruct (k =? key)%string; simpl; [lia|]. rewrite IH. lia.
Qed.

(** The loop finishes with numbers exactly when no key is inherited. *)
Lemma countBy_Some (f : AnalyticsEvent -> string) (events : list AnalyticsEvent) :
  forall counts,
    (exists counts', countBy f events counts = Some counts')
    <-> forallb (fun e => negb (inheritedKey (f e))) events = true.
Proof.
  induction events as [|e events IH]; intros counts; simpl.
  - split; eauto.
  - unfold bump. destruct (inheritedKey (f e)); simpl.
    + split; [intros [c Hc]; discriminate|discriminate].
    + apply IH.
Qed.

Lemma counted_countBy (key : string) (f : AnalyticsEvent -> string)
      (events : list AnalyticsEvent) :
  forall counts counts' n,
    countBy f events counts = Some counts' ->
    counted key counts n ->
    counted key counts'
            (n + List.length (filter (fun e => (f e =? key)%string) events)).
Proof.
  induction events as [|e events IH]; intros counts counts' n Hc Hn; simpl in *.
  - inversion Hc; subst counts'. now rewrite Nat.add_0_r.
  - unfold bump in Hc. destruct (inheritedKey (f e)); [discriminate|].
    destruct (f e =? key)%string eqn:E.
    + apply String.eqb_eq in E. simpl.
      replace (n + S (List.length (filter (fun e0 => (f e0 =? key)%string) events)))%nat
        with (S n + List.length (filter (fun e0 => (f e0 =? key)%string) events))%nat
        by lia.
      apply (IH _ _ _ Hc). unfold counted in *.
      rewrite E, count_of_increment_same, Hn. simpl.
      destruct (n =? 0)%nat eqn:En.
      * apply Nat.eqb_eq in En. subst n. reflexivity.
      * f_equal. lia.
    + apply (IH _ _ _ Hc). unfold counted in *.
      rewrite count_of_increment_other; [exact Hn|].
      now apply String.eqb_neq.
Qed.

Lemma sumCounts_countBy (f : AnalyticsEvent -> string) (events : list AnalyticsEvent) :
  forall counts counts',
    countBy f events counts = Some counts' ->
    sumCounts counts' = (sumCounts counts + Z.of_nat (List.length events))%Z.
Proof.
  induction events as [|e events IH]; intros counts counts' Hc; simpl in *.
  - inversion Hc; subst. lia.
  - unfold bump in Hc. destruct (inheritedKey (f e)); [discriminate|].
    rewrite (IH _ _ Hc), sumCounts_increment. lia.
Qed.

(** X23: the analytics of a company none of whose events has an event type
    or a source named like an inherited object property: [total] is the
    number of its events; for every event type, [byEventType] holds the
    number of its events of that type, and no entry when there is none;
    likewise [bySource]; the counts of either record add up to [total]. *)
Theorem company_analytics_counts :
  forall companyAnalytics companyId,
    (forall e, In e companyAnalytics -> event_companyId e = companyId ->
               inheritedKey (event_eventType e) = false
               /\ inheritedKey (event_source e) = false) ->
    exists summary,
      getCompanyAnalytics companyAnalytics companyId = Some summary
      /\ total summary = eventsWith (fun _ => true) companyAnalytics companyId
      /\ sumCounts (byEventType summary) = Z.of_nat (total summary)
      /\ sumCounts (bySource summary) = Z.of_nat (total summary)
      /\ (forall key,
            counted key (byEventType summary)
              (eventsWith (fun e => (event_eventType e =? key)%string)
                          companyAnalytics companyId))
      /\ (forall key,
            counted key (bySource summary)
              (eventsWith (fun e => (event_source e =? key)%string)
                          companyAnalytics companyId)).
Proof.
  intros events companyId Hown. unfold getCompanyAnalytics, eventsWith.
  set (all := filter (fun e => (event_companyId e =? companyId)%Z) events).
  assert (Hall : forall e, In e all ->
                           inheritedKey (event_eventType e) = false
                           /\ inheritedKey (event_source e) = false).
  { intros e He. apply filter_In in He as [Hin Hid]. apply Z.eqb_eq in Hid. auto. }
  destruct (proj2 (countBy_Some event_eventType all [])) as [types Ht].
  { apply forallb_forall. intros e He. now rewrite (proj1 (Hall e He)). }
  destruct (proj2 (countBy_Some event_source all [])) as [sources Hs].
  { apply forallb_forall. intros e He. now rewrite (proj2 (Hall e He)). }
  rewrite Ht, Hs. eexists. split; [reflexivity|]. cbn [total byEventType bySource].
  split; [|split; [|split; [|split]]].
  - now rewrite filter_true.
  - now rewrite (sumCounts_countBy _ _ _ Ht).
  - now rewrite (sumCounts_countBy _ _ _ Hs).
  - intros key. apply (@counted_countBy key event_eventType all [] types 0%nat Ht).
    reflexivity.
  - intros key. apply (@counted_countBy key event_source all [] sources 0%nat Hs).
    reflexivity.
Qed.

Lemma company_analytics_counts_witness :
  exists summary,
    getCompanyAnalytics (store_companyAnalytics Sample2.store) 42 = Some summary
    /\ total summary = 1%nat
    /\ byEventType summary = [("click"%string, 1%Z)]
    /\ sumCounts (bySource summary) = Z.of_nat (total summary).
Proof.
  assert (Hown : forall e, In e (store_companyAnalytics Sample2.store) ->
                           event_companyId e = 42%Z ->
                           inheritedKey (event_eventType e) = false
                           /\ inheritedKey (event_source e) = false).
  { intros e [<-|[<-|[]]] _; split; reflexivity. }
  destruct (@company_analytics_counts (store_companyAnalytics Sample2.store) 42 Hown)
    as (summary & Hs & _ & _ & Hsum & _).
  exists summary. split; [exact Hs|].
  assert (E : Some summary
              = Some {| total := 1; byEventType := [("click"%string, 1%Z)];
                        bySource := [("search"%string, 1%Z)] |}).
  { rewrite <- Hs. reflexivity. }
  inversion E; subst summary. repeat split.
Defined.


(** ** Deleting providers *)

Lemma find_filter_other {A} (p q : A -> bool) (l : list A) :
  (forall x, p x = true -> q x = true) -> find p (filter q l) = find p l.
Proof.
  intros H. induction l as [|x l IH]; simpl; [reflexivity|].
  destruct (q x) eqn:Eq; simpl.
  - destruct (p x); [reflexivity|exact IH].
  - destruct (p x) eqn:Ep; [|exact IH]. rewrite (H x Ep) in Eq. discriminate.
Qed.

Lemma find_filter_none {A} (p q : A -> bool) (l : list A) :
  (forall x, p x = true -> q x = false) -> find p (filter q l) = None.
Proof.
  intros H. induction l as [|x l IH]; simpl; [reflexivity|].
  destruct (q x) eqn:Eq; simpl; [|exact IH].
  destruct (p x) eqn:Ep; [|exact IH]. rewrite (H x Ep) in Eq. discriminate.
Qed.

Lemma refers_true (column : option Z) (id : Z) : refers column id = true <-> column = Some id.
Proof.
  destruct column as [n|]; simpl; [|split; discriminate].
  rewrite Z.eqb_eq. split; congruence.
Qed.

Lemma rows_related (related : Subscription -> Subscription -> Prop)
      (unlink : Subscription -> Subscription) (rows : list Subscription) :
  (forall row, related row (unlink row)) -> Forall2 related rows (map unlink rows).
Proof.
  intros H. induction rows as [|row rows IH]; simpl; constructor; auto.
Qed.

Lemma unlinkCompany_companyUnlinked (id : Z) (row : Subscription) :
  companyUnlinked id row (unlinkCompany id row).
Proof.
  unfold companyUnlinked, sameBilling, unlinkCompany.
  destruct (refers (sub_companyId row) id) eqn:E; simpl.
  - apply refers_true in E. repeat split; auto. intros H. contradiction.
  - repeat split; auto. intros H. apply refers_true in H. congruence.
Qed.

Lemma unlinkDisposalSite_siteUnlinked (id : Z) (row : Subscription) :
  siteUnlinked id row (unlinkDisposalSite id row).
Proof.
  unfold siteUnlinked, sameBilling, unlinkDisposalSite.
  destruct (refers (sub_disposalSiteId row) id) eqn:E; simpl.
  - apply refers_true in E. repeat split; auto. intros H. contradiction.
  - repeat split; auto. intros H. apply refers_true in H. congruence.
Qed.

Lemma sample_deleted_run :
  search (Sample.env (store_db (deleteCompany 42 Sample2.store)))
         (Sample.request (Some (Num 50)))
  = ([FetchGeocode "Indianapolis, IN"; CallGetStateLandingPage "IN";
      CallGetDisposalSiteLandingPage "IN";
      CallGetCompaniesByRadius (Num Sample.centerLat) (Num Sample.centerLng)
                               (Num 50) "Indianapolis, IN";
      CallGetDisposalSitesByRadius (Num Sample.centerLat) (Num Sample.centerLng)
                                   (Num 50) "Indianapolis, IN"],
     Respond 200 (SearchJson
       (assemble Sample.indianapolis (Num 50) (Some "IN"%string) (Some "Indiana"%string)
                 None None None None [Sample.acme; Sample.badger] []))).
Proof.
  assert (H50 : (0 <= 50)%R) by lra.
  assert (Hall : Forall (fun c => company_lat c = TextNumber Sample.centerLat
                                  /\ company_lng c = TextNumber Sample.centerLng)
                        (companies (store_db (deleteCompany 42 Sample2.store)))).
  { repeat constructor. }
  exact (@centered_search (store_db (deleteCompany 42 Sample2.store))
           (Some (Num 50)) 50 _ _ _ _ _ Hall eq_refl eq_refl H50 eq_refl).
Qed.

(** X24: after [deleteCompany id] the company is gone, no state landing
    page is bound to it, no analytics event and no subscription refers to
    it, and no subscription row is lost: the rows are those of before, in
    order, each with every column as it was except that a link to the
    company is null; every other company, every landing page bound
    elsewhere and every event of another company is kept, and the disposal
    sites and their landing pages are untouched. *)
Theorem deleteCompany_cascade :
  forall id s,
    let s' := deleteCompany id s in
    getCompany (store_db s') id = None
    /\ (forall page, In page (stateLandingPages (store_db s')) ->
                     page_companyId page <> Some id)
    /\ (forall e, In e (store_companyAnalytics s') -> event_companyId e <> id)
    /\ (forall sub, In sub (store_subscriptions s') -> sub_companyId sub <> Some id)
    /\ map sub_id (store_subscriptions s') = map sub_id (store_subscriptions s)
    /\ Forall2 (companyUnlinked id) (store_subscriptions s) (store_subscriptions s')
    /\ (forall id', id' <> id ->
                    getCompany (store_db s') id' = getCompany (store_db s) id')
    /\ (forall page, In page (stateLandingPages (store_db s)) ->
                     page_companyId page <> Some id ->
                     In page (stateLandingPages (store_db s')))
    /\ (forall e, In e (store_companyAnalytics s) -> event_companyId e <> id ->
                  In e (store_companyAnalytics s'))
    /\ disposalSites (store_db s') = disposalSites (store_db s)
    /\ disposalSiteLandingPages (store_db s') = disposalSiteLandingPages (store_db s).
Proof.
  intros id s s'. unfold s', deleteCompany, getCompany. simpl.
  repeat match goal with |- _ /\ _ => split end; try reflexivity.
  - apply find_filter_none. intros c E. now rewrite E.
  - intros page Hin. apply filter_In in Hin as [_ H].
    apply negb_true_iff in H. intros E. apply refers_true in E. congruence.
  - intros e Hin. apply filter_In in Hin as [_ H].
    now apply negb_true_iff, Z.eqb_neq in H.
  - intros sub Hin. apply in_map_iff in Hin as (sub0 & <- & _).
    unfold unlinkCompany. destruct (refers (sub_companyId sub0) id) eqn:E; simpl.
    + discriminate.
    + intros H. apply refers_true in H. congruence.
  - rewrite map_map. apply map_ext. intros sub. unfold unlinkCompany.
    now destruct (refers (sub_companyId sub) id).
  - apply rows_related, unlinkCompany_companyUnlinked.
  - intros id' Hne. apply find_filter_other. intros c E.
    apply Z.eqb_eq in E. apply negb_true_iff, Z.eqb_neq. congruence.
  - intros page Hin Hne. apply filter_In. split; [exact Hin|].
    apply negb_true_iff. destruct (refers (page_companyId page) id) eqn:E; [|reflexivity].
    apply refers_true in E. contradiction.
  - intros e Hin Hne. apply filter_In. split; [exact Hin|].
    now apply negb_true_iff, Z.eqb_neq.
Qed.

Lemma deleteCompany_cascade_witness :
  let s' := deleteCompany 42 Sample2.store in
  getCompany (store_db s') 42 = None
  /\ (forall page, In page (stateLandingPages (store_db s')) ->
                   page_companyId page <> Some 42%Z)
  /\ (forall e, In e (store_companyAnalytics s') -> event_companyId e <> 42%Z)
  /\ (forall sub, In sub (store_subscriptions s') -> sub_companyId sub <> Some 42%Z)
  /\ map sub_id (store_subscriptions s') = map sub_id (store_subscriptions Sample2.store)
  /\ Forall2 (companyUnlinked 42) (store_subscriptions Sample2.store)
             (store_subscriptions s')
  /\ (forall id', id' <> 42%Z ->
                  getCompany (store_db s') id' = getCompany (store_db Sample2.store) id')
  /\ (forall page, In page (stateLandingPages (store_db Sample2.store)) ->
                   page_companyId page <> Some 42%Z ->
                   In page (stateLandingPages (store_db s')))
  /\ (forall e, In e (store_companyAnalytics Sample2.store) -> event_companyId e <> 42%Z ->
                In e (store_companyAnalytics s'))
  /\ disposalSites (store_db s') = disposalSites (store_db Sample2.store)
  /\ disposalSiteLandingPages (store_db s')
     = disposalSiteLandingPages (store_db Sample2.store).
Proof.
  exact (deleteCompany_cascade 42 Sample2.store).
Defined.

(** X25: [deleteCompany] and [deleteDisposalSite] keep every bound landing
    page resolvable: if before the deletion every landing page that is bound
    to an id resolves to a provider, so it does after it. *)
Theorem delete_keeps_pages_resolvable :
  forall id s,
    boundPagesResolve (store_db s) ->
    boundPagesResolve (store_db (deleteCompany id s))
    /\ boundPagesResolve (store_db (deleteDisposalSite id s)).
Proof.
  intros id s [Hc Hd]. split; split; unfold deleteCompany, deleteDisposalSite; simpl.
  - intros page id' Hin Hid. apply filter_In in Hin as [Hin Hne].
    apply negb_true_iff in Hne.
    assert (Hneq : id' <> id).
    { intros ->. rewrite Hid in Hne. simpl in Hne. now rewrite Z.eqb_refl in Hne. }
    unfold getCompany. simpl. rewrite find_filter_other.
    + exact (Hc page id' Hin Hid).
    + intros c E. apply Z.eqb_eq in E. apply negb_true_iff, Z.eqb_neq. congruence.
  - intros page id' Hin Hid. exact (Hd page id' Hin Hid).
  - intros page id' Hin Hid. exact (Hc page id' Hin Hid).
  - intros page id' Hin Hid. apply filter_In in Hin as [Hin Hne].
    apply negb_true_iff in Hne.
    assert (Hneq : id' <> id).
    { intros ->. rewrite Hid in Hne. simpl in Hne. now rewrite Z.eqb_refl in Hne. }
    unfold getDisposalSite. simpl. rewrite find_filter_other.
    + exact (Hd page id' Hin Hid).
    + intros c E. apply Z.eqb_eq in E. apply negb_true_iff, Z.eqb_neq. congruence.
Qed.

Lemma delete_keeps_pages_resolvable_witness :
  boundPagesResolve (store_db Sample2.store)
  /\ boundPagesResolve (store_db (deleteCompany 42 Sample2.store))
  /\ boundPagesResolve (store_db (deleteDisposalSite 7 Sample2.store)).
Proof.
  assert (H : boundPagesResolve (store_db Sample2.store)).
  { split.
    - intros page id [<-|[]] Hid. inversion Hid; subst id. discriminate.
    - intros page id []. }
  split; [exact H|]. exact (@delete_keeps_pages_resolvable 42 Sample2.store H).
Defined.

(** What a search can see of a deletion: the company and the landing pages
    bound to it are gone. *)
Lemma deleteCompany_unbinds (id : Z) (s : Store) :
  (forall c, In c (companies (store_db (deleteCompany id s))) -> company_id c <> id)
  /\ (forall page, In page (stateLandingPages (store_db (deleteCompany id s))) ->
                   page_companyId page <> Some id).
Proof.
  unfold deleteCompany. simpl. split.
  - intros c Hin. apply filter_In in Hin as [_ H].
    now apply negb_true_iff, Z.eqb_neq in H.
  - intros page Hin. apply filter_In in Hin as [_ H].
    apply negb_true_iff in H. intros E. apply refers_true in E. congruence.
Qed.

(** X26: after [deleteCompany id] no search mentions the company: it is
    not the premium company, the landing page of the response is not bound
    to it, and it is not among the [companies]. *)
Theorem deleted_company_never_found :
  forall id s env body t r,
    db env = store_db (deleteCompany id s) ->
    search env body = (t, Respond 200 (SearchJson r)) ->
    (forall page pc, res_premiumLandingPage r = Some (page, pc) ->
                     page_companyId page <> Some id)
    /\ (forall P, premiumCompanyOf r = Some P -> company_id P <> id)
    /\ occurrences id (res_companies r) = 0%nat.
Proof.
  intros id s env body t r Hdb H.
  destruct (deleteCompany_unbinds id s) as (Hgone & Hpages).
  destruct (search_200_assemble _ _ H)
    as (address & result & t3 & page & pc & dpage & ps & Ha & _ & H3 & _ & Hr).
  assert (Hpc : premiumCompanyOf r = pc).
  { rewrite Hr. eapply premiumCompanyOf_assemble; eauto. }
  assert (Hnone : forall c, In c (companies (db env)) -> company_id c <> id).
  { intros c Hin. rewrite Hdb in Hin. now apply Hgone. }
  apply resolvePremium_inv in H3.
  split; [|split].
  - intros page0 pc0 Hp. rewrite Hr in Hp. unfold assemble in Hp. simpl in Hp.
    destruct page as [p|]; [|discriminate]. inversion Hp; subst page0 pc0.
    destruct H3 as [(_ & _ & Hn & _)|(code & t1 & t2 & _ & _ & Hpage & _)];
      [discriminate|].
    symmetry in Hpage. unfold getStateLandingPageByStateCode in Hpage.
    apply find_some in Hpage as [Hin _]. rewrite Hdb in Hin. now apply Hpages.
  - intros P HP. rewrite Hpc in HP.
    destruct H3 as [(_ & _ & _ & Hn & _)|(code & t1 & t2 & _ & _ & _ & _ & H1 & _)];
      [congruence|].
    apply resolvePremiumCompany_inv in H1.
    destruct H1 as [(p & id0 & _ & _ & _ & _ & Hget & _)|(Hn & _)]; [|congruence].
    rewrite HP in Hget. symmetry in Hget. unfold getCompany in Hget. apply find_some in Hget as [Hin _].
    now apply Hnone.
  - assert (Hperm : Permutation (res_companies r)
                      (separatePremium pc
                         (getCompaniesByRadius (companies (db env)) (geo_lat result)
                            (geo_lng result) (radiusOf body) (Some address)))).
    { rewrite Hr. apply prioritize_Permutation. }
    rewrite (occurrences_Permutation id Hperm). unfold occurrences.
    rewrite filter_none; [reflexivity|].
    intros c Hin. apply Z.eqb_neq. apply Hnone.
    unfold separatePremium, getCompaniesByRadius in Hin.
    destruct pc; repeat (apply filter_In in Hin as [Hin _]); exact Hin.
Qed.

Lemma deleted_company_never_found_witness :
  exists t r,
    search (Sample.env (store_db (deleteCompany 42 Sample2.store)))
           (Sample.request (Some (Num 50)))
    = (t, Respond 200 (SearchJson r))
    /\ (forall page pc, res_premiumLandingPage r = Some (page, pc) ->
                        page_companyId page <> Some 42%Z)
    /\ (forall P, premiumCompanyOf r = Some P -> company_id P <> 42%Z)
    /\ occurrences 42 (res_companies r) = 0%nat.
Proof.
  eexists. eexists. split; [exact sample_deleted_run|].
  exact (@deleted_company_never_found 42 Sample2.store
           (Sample.env (store_db (deleteCompany 42 Sample2.store)))
           (Sample.request (Some (Num 50))) _ _ eq_refl sample_deleted_run).
Defined.

(** X27: after [deleteDisposalSite id] the site is gone, no disposal-site
    landing page is bound to it and no subscription refers to it; the
    subscription rows are those of before, in order, each with every column
    as it was except that a link to the site is null; every other site and
    every landing page bound elsewhere is kept, and the companies, their
    landing pages and the analytics are untouched. *)
Theorem deleteDisposalSite_cascade :
  forall id s,
    let s' := deleteDisposalSite id s in
    getDisposalSite (store_db s') id = None
    /\ (forall page, In page (disposalSiteLandingPages (store_db s')) ->
                     dpage_disposalSiteId page <> Some id)
    /\ (forall sub, In sub (store_subscriptions s') -> sub_disposalSiteId sub <> Some id)
    /\ map sub_id (store_subscriptions s') = map sub_id (store_subscriptions s)
    /\ Forall2 (siteUnlinked id) (store_subscriptions s) (store_subscriptions s')
    /\ (forall id', id' <> id ->
                    getDisposalSite (store_db s') id' = getDisposalSite (store_db s) id')
    /\ (forall page, In page (disposalSiteLandingPages (store_db s)) ->
                     dpage_disposalSiteId page <> Some id ->
                     In page (disposalSiteLandingPages (store_db s')))
    /\ companies (store_db s') = companies (store_db s)
    /\ stateLandingPages (store_db s') = stateLandingPages (store_db s)
    /\ store_companyAnalytics s' = store_companyAnalytics s.
Proof.
  intros id s s'. unfold s', deleteDisposalSite, getDisposalSite. simpl.
  repeat match goal with |- _ /\ _ => split end; try reflexivity.
  - apply find_filter_none. intros c E. now rewrite E.
  - intros page Hin. apply filter_In in Hin as [_ H].
    apply negb_true_iff in H. intros E. apply refers_true in E. congruence.
  - intros sub Hin. apply in_map_iff in Hin as (sub0 & <- & _).
    unfold unlinkDisposalSite. destruct (refers (sub_disposalSiteId sub0) id) eqn:E; simpl.
    + discriminate.
    + intros H. apply refers_true in H. congruence.
  - rewrite map_map. apply map_ext. intros sub. unfold unlinkDisposalSite.
    now destruct (refers (sub_disposalSiteId sub) id).
  - apply rows_related, unlinkDisposalSite_siteUnlinked.
  - intros id' Hne. apply find_filter_other. intros c E.
    apply Z.eqb_eq in E. apply negb_true_iff, Z.eqb_neq. congruence.
  - intros page Hin Hne. apply filter_In. split; [exact Hin|].
    apply negb_true_iff.
    destruct (refers (dpage_disposalSiteId page) id) eqn:E; [|reflexivity].
    apply refers_true in E. contradiction.
Qed.

Lemma deleteDisposalSite_cascade_witness :
  let s' := deleteDisposalSite 7 Sample2.siteStore in
  getDisposalSite (store_db s') 7 = None
  /\ (forall page, In page (disposalSiteLandingPages (store_db s')) ->
                   dpage_disposalSiteId page <> Some 7%Z)
  /\ (forall sub, In sub (store_subscriptions s') -> sub_disposalSiteId sub <> Some 7%Z)
  /\ map sub_id (store_subscriptions s') = map sub_id (store_subscriptions Sample2.siteStore)
  /\ Forall2 (siteUnlinked 7) (store_subscriptions Sample2.siteStore)
             (store_subscriptions s')
  /\ (forall id', id' <> 7%Z ->
                  getDisposalSite (store_db s') id'
                  = getDisposalSite (store_db Sample2.siteStore) id')
  /\ (forall page, In page (disposalSiteLandingPages (store_db Sample2.siteStore)) ->
                   dpage_disposalSiteId page <> Some 7%Z ->
                   In page (disposalSiteLandingPages (store_db s')))
  /\ companies (store_db s') = companies (store_db Sample2.siteStore)
  /\ stateLandingPages (store_db s') = stateLandingPages (store_db Sample2.siteStore)
  /\ store_companyAnalytics s' = store_companyAnalytics Sample2.siteStore.
Proof.
  exact (deleteDisposalSite_cascade 7 Sample2.siteStore).
Defined.


(** ** The callers of the search in the client *)

Lemma search_premium_resolved env body t r page P :
  search env body = (t, Respond 200 (SearchJson r)) ->
  res_premiumLandingPage r = Some (page, Some P) ->
  page_companyId page = Some (company_id P)
  /\ page_active page = "yes"%string
  /\ occurrences (company_id P) (res_companies r) = 0%nat.
Proof.
  intros H Hp.
  destruct (search_200_assemble _ _ H)
    as (address & result & t3 & page' & pc & dpage & ps & _ & _ & H3 & _ & Hr).
  assert (Hperm : Permutation (res_companies r)
                    (separatePremium pc
                       (getCompaniesByRadius (companies (db env)) (geo_lat result)
                          (geo_lng result) (radiusOf body) (Some address)))).
  { rewrite Hr. apply prioritize_Permutation. }
  rewrite Hr in Hp. unfold assemble in Hp. simpl in Hp.
  destruct page' as [p|]; [|discriminate]. inversion Hp; subst p pc. clear Hp.
  apply resolvePremium_inv in H3.
  destruct H3 as [(_ & _ & Hn & _)|(code & t1 & t2 & _ & _ & _ & _ & H1 & _)];
    [discriminate|].
  apply resolvePremiumCompany_inv in H1.
  destruct H1 as [(p & id & Hpg & Hact & Hid & _ & Hget & _)|(Hn & _)]; [|discriminate].
  inversion Hpg; subst p. symmetry in Hget. apply getCompany_id in Hget.
  rewrite Hget. repeat split; auto.
  rewrite (occurrences_Permutation _ Hperm). simpl. rewrite <- Hget.
  apply occurrences_separated.
Qed.

Lemma search_200_pages env body t r code name :
  search env body = (t, Respond 200 (SearchJson r)) ->
  res_state r = Some (code, name) ->
  Client.isSome (res_premiumLandingPage r)
  = Client.isSome (getStateLandingPageByStateCode (db env) code)
  /\ Client.isSome (res_disposalSiteLandingPage r)
     = Client.isSome (getDisposalSiteLandingPageByStateCode (db env) code).
Proof.
  intros H Hstate.
  destruct (search_200_assemble _ _ H)
    as (address & result & t3 & page & pc & dpage & ps & _ & _ & H3 & _ & Hr).
  rewrite Hr in Hstate. apply res_state_assemble in Hstate as [Hsc Htc].
  apply resolvePremium_inv in H3.
  destruct H3 as [(Hfalse & _)|(code' & t1 & t2 & Hcode & _ & Hp & Hd & _)].
  { rewrite Hsc in Hfalse. simpl in Hfalse. congruence. }
  rewrite Hsc in Hcode. inversion Hcode; subst code'.
  rewrite Hr, <- Hp, <- Hd. unfold assemble. simpl.
  destruct page, dpage; split; reflexivity.
Qed.

Lemma find_none_occurrences id (l : list Company) :
  occurrences id l = 0%nat -> find (Client.idIs (Some id)) l = None.
Proof.
  unfold occurrences. induction l as [|c l IH]; simpl; [reflexivity|].
  destruct (company_id c =? id)%Z; simpl; [discriminate|exact IH].
Qed.

Lemma find_some_occurrences id (l : list Company) :
  occurrences id l <> 0%nat ->
  exists p, find (Client.idIs (Some id)) l = Some p /\ company_id p = id /\ In p l.
Proof.
  unfold occurrences. induction l as [|c l IH]; simpl; [congruence|].
  destruct (company_id c =? id)%Z eqn:E; simpl.
  - intros _. exists c. apply Z.eqb_eq in E. auto.
  - intros H. destruct (IH H) as (p & Hf & Hid & Hin). exists p. auto.
Qed.

(** X28: the company list of the state landing page.  With a search
    context, when the landing page's company is among the search results it
    is shown first and exactly once, followed by the other results in their
    order; when it is not, the results are shown as they are.  Without a
    search context the list is at most the landing page's company. *)
Theorem state_page_company_list :
  forall r allCompanies id,
    (occurrences id (res_companies r) <> 0%nat ->
     exists p,
       Client.displayCompanies true (Some r) allCompanies (Some id)
       = p :: filter (fun c => negb (company_id c =? id)%Z) (res_companies r)
       /\ company_id p = id /\ In p (res_companies r)
       /\ occurrences id
            (Client.displayCompanies true (Some r) allCompanies (Some id)) = 1%nat)
    /\ (occurrences id (res_companies r) = 0%nat ->
        Client.displayCompanies true (Some r) allCompanies (Some id) = res_companies r)
    /\ Client.displayCompanies true (Some r) allCompanies None = res_companies r
    /\ (List.length (Client.displayCompanies false (Some r) allCompanies (Some id))
        <= 1)%nat.
Proof.
  intros r allCompanies id. unfold Client.displayCompanies, Client.premiumCompany.
  repeat split.
  - intros H. destruct (@find_some_occurrences id _ H) as (p & Hf & Hid & Hin).
    exists p. rewrite Hf, Hid. repeat split; auto.
    unfold occurrences at 1. simpl. rewrite <- Hid at 1. rewrite Z.eqb_refl. simpl.
    f_equal. apply occurrences_separated.
  - intros H. rewrite (@find_none_occurrences id _ H). apply filter_true.
  - simpl. replace (find (Client.idIs None) (res_companies r)) with (@None Company).
    + apply filter_true.
    + symmetry. induction (res_companies r); simpl; auto.
  - destruct allCompanies as [all|]; simpl; [|lia].
    destruct (find (Client.idIs (Some id)) all); simpl; lia.
Qed.

Lemma state_page_company_list_witness :
  let r := assemble Sample.indianapolis (Num 50) (Some "IN"%string) (Some "Indiana"%string)
                    None None None None [Sample.acme; Sample.inserv; Sample.badger] [] in
  occurrences 42 (res_companies r) <> 0%nat
  /\ exists p,
       Client.displayCompanies true (Some r) None (Some 42%Z)
       = p :: filter (fun c => negb (company_id c =? 42)%Z) (res_companies r)
       /\ company_id p = 42%Z /\ In p (res_companies r)
       /\ occurrences 42 (Client.displayCompanies true (Some r) None (Some 42%Z)) = 1%nat.
Proof.
  intros r.
  assert (H : occurrences 42 (res_companies r) <> 0%nat) by discriminate.
  split; [exact H|].
  exact (proj1 (state_page_company_list r None 42) H).
Defined.

(** X29: the search and the state landing page together.  When the search
    resolved a premium company for the state's landing page, the page (with
    its search context, and bound to that company) does not find it among
    the search results: it shows the [companies] of the response unchanged,
    and the premium company is not among them. *)
Theorem state_page_hides_premium :
  forall env body t r page P allCompanies,
    search env body = (t, Respond 200 (SearchJson r)) ->
    res_premiumLandingPage r = Some (page, Some P) ->
    Client.premiumCompany true (Some r) allCompanies (page_companyId page) = None
    /\ Client.displayCompanies true (Some r) allCompanies (page_companyId page)
       = res_companies r
    /\ occurrences (company_id P)
         (Client.displayCompanies true (Some r) allCompanies (page_companyId page))
       = 0%nat.
Proof.
  intros env body t r page P allCompanies H Hp.
  destruct (search_premium_resolved _ _ H Hp) as (Hid & _ & Hocc).
  assert (Hnone : Client.premiumCompany true (Some r) allCompanies (page_companyId page)
                  = None).
  { unfold Client.premiumCompany. rewrite Hid. now apply find_none_occurrences. }
  assert (Hd : Client.displayCompanies true (Some r) allCompanies (page_companyId page)
               = res_companies r).
  { unfold Client.displayCompanies. rewrite Hnone. apply filter_true. }
  rewrite Hd. auto.
Qed.

Lemma state_page_hides_premium_witness :
  exists t r,
    search (Sample.env Sample.premiumDb) (Sample.request (Some (Num 50)))
    = (t, Respond 200 (SearchJson r))
    /\ res_premiumLandingPage r = Some (Sample.indianaPage, Some Sample.inserv)
    /\ Client.premiumCompany true (Some r) None (Some 42%Z) = None
    /\ Client.displayCompanies true (Some r) None (Some 42%Z) = res_companies r
    /\ occurrences 42 (Client.displayCompanies true (Some r) None (Some 42%Z)) = 0%nat.
Proof.
  eexists. eexists. split; [exact sample_premium_run|]. split; [reflexivity|].
  exact (@state_page_hides_premium _ _ _ _ Sample.indianaPage Sample.inserv None
           sample_premium_run eq_refl).
Defined.

(** X30: where the home page goes after a successful search.  It leaves
    the home page only when the response has a state, and then: with the
    filter "all" or "companies" exactly when the state has a company landing
    page, active or not, to the state route; with the filter "disposal"
    exactly when the state has a disposal-site landing page, to the
    disposal-sites route.  A disposal-site landing page alone never
    redirects a search for "all". *)
Theorem home_page_redirect :
  forall env body t r,
    search env body = (t, Respond 200 (SearchJson r)) ->
    (res_state r = None -> forall selectedType, Client.redirectOf selectedType r = None)
    /\ (forall code name,
          res_state r = Some (code, name) ->
          Client.redirectOf Client.TypeAll r
          = (if Client.isSome (getStateLandingPageByStateCode (db env) code)
             then Some (Client.StateRoute code) else None)
          /\ Client.redirectOf Client.TypeCompanies r = Client.redirectOf Client.TypeAll r
          /\ Client.redirectOf Client.TypeDisposal r
             = (if Client.isSome (getDisposalSiteLandingPageByStateCode (db env) code)
                then Some (Client.DisposalSitesRoute code) else None)).
Proof.
  intros env body t r H. split.
  - intros Hn selectedType. unfold Client.redirectOf. now rewrite Hn.
  - intros code name Hs. destruct (search_200_pages _ _ H Hs) as [Hp Hd].
    unfold Client.redirectOf. rewrite Hs, Hp, Hd. auto.
Qed.

Lemma home_page_redirect_witness :
  exists t r,
    search (Sample.env Sample2.inactiveDb) (Sample.request (Some (Num 50)))
    = (t, Respond 200 (SearchJson r))
    /\ res_state r = Some ("IN"%string, Some "Indiana"%string)
    /\ Client.redirectOf Client.TypeAll r = Some (Client.StateRoute "IN")
    /\ Client.redirectOf Client.TypeCompanies r = Client.redirectOf Client.TypeAll r
    /\ Client.redirectOf Client.TypeDisposal r = None.
Proof.
  eexists. eexists. split; [exact sample_inactive_run|]. split; [reflexivity|].
  exact (proj2 (@home_page_redirect _ _ _ _ sample_inactive_run)
           "IN"%string (Some "Indiana"%string) eq_refl).
Defined.
